(** * Wizard card-game engine (ml/wizard_env.py): a shallow embedding

    The development follows the Python source: [Card] with its flat
    60-slot encoding, the deck and the dealer, the bid and play resolvers,
    the trick evaluator, scoring, the opponent stepper and the
    [reset]/[step] facade of [WizardEnv].

    Conventions.
    - Python integers are [Z]; seats (indices into the per-player lists)
      are [nat].
    - numpy vectors are [list Z]; the element type (int32, bool, float) of
      a vector is not tracked, a set slot is [1] and a cleared one [0].
      The int32 arithmetic of the score vector wraps around ([wrap32]);
      bids and trick counts are bounded by the round number and are
      stored as they are.
    - Exceptions are values of [exn]; stateful methods live in the monad
      [M], which returns the environment as it is at the point where the
      method returned or raised.
    - The two random sources are explicit generator states: [np_random]
      (the environment's own generator, set by [reset(seed=...)]) and
      [py_random] (the module-level generator behind [random.shuffle],
      which belongs to the process and not to the environment). *)

From Stdlib Require Import ZArith QArith List Bool Lia Permutation.
From stdpp Require Import base list.

Open Scope Z_scope.

(** ** Exceptions and results *)

Inductive exn : Type :=
| ValueError      (* raise ValueError(...), Enum(value) on a bad value,
                     Generator.choice on an empty sequence *)
| IndexError      (* numpy index out of bounds *)
| StopIteration   (* next() on an exhausted generator *)
| Diverges.       (* not an exception: a while loop that never ends *)

Inductive result (A : Type) : Type :=
| Ok (a : A)
| Raise (e : exn).
Arguments Ok {A} a.
Arguments Raise {A} e.

(** ** Card model *)

Inductive CardValue : Type :=
| JESTER | ONE | TWO | THREE | FOUR | FIVE | SIX | SEVEN | EIGHT | NINE
| TEN | ELEVEN | TWELVE | THIRTEEN | WIZARD.

Inductive CardSuit : Type :=
| HEARTS | DIAMONDS | CLUBS | SPADES.

(** [CardValue.value] *)
Definition value_of (v : CardValue) : Z :=
  match v with
  | JESTER => 0 | ONE => 1 | TWO => 2 | THREE => 3 | FOUR => 4 | FIVE => 5
  | SIX => 6 | SEVEN => 7 | EIGHT => 8 | NINE => 9 | TEN => 10
  | ELEVEN => 11 | TWELVE => 12 | THIRTEEN => 13 | WIZARD => 14
  end.

(** [CardSuit.value] *)
Definition suit_value (s : CardSuit) : Z :=
  match s with HEARTS => 0 | DIAMONDS => 1 | CLUBS => 2 | SPADES => 3 end.

(** [CardValue(n)]: lookup of an enum member by value; [ValueError] when
    no member has that value. *)
Definition CardValue_of (n : Z) : result CardValue :=
  match n with
  | 0 => Ok JESTER | 1 => Ok ONE | 2 => Ok TWO | 3 => Ok THREE
  | 4 => Ok FOUR | 5 => Ok FIVE | 6 => Ok SIX | 7 => Ok SEVEN
  | 8 => Ok EIGHT | 9 => Ok NINE | 10 => Ok TEN | 11 => Ok ELEVEN
  | 12 => Ok TWELVE | 13 => Ok THIRTEEN | 14 => Ok WIZARD
  | _ => Raise ValueError
  end.

(** [CardSuit(n)] *)
Definition CardSuit_of (n : Z) : result CardSuit :=
  match n with
  | 0 => Ok HEARTS | 1 => Ok DIAMONDS | 2 => Ok CLUBS | 3 => Ok SPADES
  | _ => Raise ValueError
  end.

Definition value_eqb (a b : CardValue) : bool := value_of a =? value_of b.
Definition suit_eqb (a b : CardSuit) : bool := suit_value a =? suit_value b.

Record Card : Type := mkCard { value : CardValue; suit : CardSuit }.

(** Cards are compared by rank and suit, as [_vector_idx_to_hand_idx]
    does. [Card] defines no [__eq__], so [in] and [list.remove] compare
    object identities; every deck holds one object per (rank, suit), so
    the two comparisons agree on the cards of a deal. *)
Definition card_eqb (a b : Card) : bool :=
  suit_eqb (suit a) (suit b) && value_eqb (value a) (value b).

Definition is_wizard (c : Card) : bool := value_eqb (value c) WIZARD.
Definition is_jester (c : Card) : bool := value_eqb (value c) JESTER.
(** [card.value != WIZARD and card.value != JESTER] *)
Definition is_regular (c : Card) : bool :=
  negb (is_wizard c) && negb (is_jester c).

Definition DECK_SIZE : Z := 60.
Definition NUM_PLAYERS : nat := 4.
Definition NUM_SUITS : Z := 4.
Definition MAX_ROUND : Z := DECK_SIZE / Z.of_nat NUM_PLAYERS.

(** [np.zeros(n)] *)
Definition zeros (n : Z) : list Z := replicate (Z.to_nat n) 0.

(** The slot that [Card.to_vector] sets. *)
Definition vector_index (c : Card) : Z :=
  if is_wizard c then 52 + suit_value (suit c)
  else if is_jester c then 56 + suit_value (suit c)
  else suit_value (suit c) * 13 + (value_of (value c) - 1).

(** [Card.to_vector]: the one-hot vector of a card. The slot is below 60
    for every card, so with [vector_size = DECK_SIZE], the only size the
    engine passes, the store is in range. *)
Definition to_vector (c : Card) (vector_size : Z) : list Z :=
  <[ Z.to_nat (vector_index c) := 1 ]> (zeros vector_size).

(** [Card.from_vector_idx]. Python's [%] and [//] round towards minus
    infinity, like [Z.modulo] and [Z.div]. The rank is built before the
    suit; both raise [ValueError] on a value that is no member. *)
Definition from_vector_idx (vector_idx : Z) : result Card :=
  if vector_idx <? 52 then
    match CardValue_of (vector_idx mod 13 + 1) with
    | Raise e => Raise e
    | Ok v =>
        match CardSuit_of (vector_idx / 13) with
        | Raise e => Raise e
        | Ok s => Ok (mkCard v s)
        end
    end
  else if vector_idx <? 56 then
    match CardSuit_of (vector_idx - 52) with
    | Raise e => Raise e
    | Ok s => Ok (mkCard WIZARD s)
    end
  else
    match CardSuit_of (vector_idx - 56) with
    | Raise e => Raise e
    | Ok s => Ok (mkCard JESTER s)
    end.

(** The vector with a single [1] at slot [i], written without reference
    to cards: what "re-encoding yields the index [i]" means for a one-hot
    encoding. *)
Definition one_hot (n : nat) (i : Z) : list Z :=
  map (fun k => if Z.of_nat k =? i then 1 else 0) (seq 0 n).

(** ** Trick evaluator *)

(** [cards_with_players] of [_evaluate_trick]: the cards of the trick
    with the seat that played each, in play order. *)
Definition cards_with_players (trick_leader : nat) (trick : list Card)
  : list (Card * nat) :=
  imap (fun i card => (card, (trick_leader + i) mod NUM_PLAYERS)%nat) trick.

(** The body of the comparison loop of [_evaluate_trick]; the state is
    [(winning_card, winner)]. *)
Definition compare_step (trump_card : option Card)
    (acc : Card * nat) (cp : Card * nat) : Card * nat :=
  let '(winning_card, winner) := acc in
  let '(card, player) := cp in
  if is_jester card then acc
  else if match trump_card with
          | Some t => suit_eqb (suit card) (suit t)
                      && negb (suit_eqb (suit winning_card) (suit t))
          | None => false
          end
  then (card, player)
  else if suit_eqb (suit card) (suit winning_card)
          && (value_of (value card) >? value_of (value winning_card))
  then (card, player)
  else acc.

(** [WizardEnv._evaluate_trick], as a function of the three attributes it
    reads. *)
Definition evaluate_trick (trick_leader : nat) (trump_card : option Card)
    (trick : list Card) : result nat :=
  let cwp := cards_with_players trick_leader trick in
  match find (fun cp => is_wizard (fst cp)) (rev cwp) with
  | Some (_, player) => Ok player
  | None =>
      if forallb (fun cp => is_jester (fst cp)) cwp then Ok trick_leader
      else
        match find (fun cp => negb (is_jester (fst cp))) cwp with
        | None => Raise StopIteration
        | Some first =>
            Ok (snd (fold_left (compare_step trump_card) cwp first))
        end
  end.

(** *** The ordering in the words of the specification *)

(** Position of the last card of the trick that satisfies [p]. *)
Fixpoint last_position (p : Card -> bool) (trick : list Card) (i : nat)
  : option nat :=
  match trick with
  | [] => None
  | c :: rest =>
      match last_position p rest (S i) with
      | Some j => Some j
      | None => if p c then Some i else None
      end
  end.

(** A later card replaces the current winner iff it is trump while the
    winner is not, or it has the winner's suit and a strictly higher
    rank. *)
Definition replaces (trump_suit : option CardSuit) (card winning : Card)
  : bool :=
  match trump_suit with
  | Some t => suit_eqb (suit card) t && negb (suit_eqb (suit winning) t)
  | None => false
  end
  || (suit_eqb (suit card) (suit winning)
      && (value_of (value winning) <? value_of (value card))).

(** The non-Jester cards with the position at which each was played. *)
Fixpoint non_jesters (trick : list Card) (i : nat) : list (Card * nat) :=
  match trick with
  | [] => []
  | c :: rest =>
      if is_jester c then non_jesters rest (S i)
      else (c, i) :: non_jesters rest (S i)
  end.

Fixpoint best_of (trump_suit : option CardSuit) (winning : Card * nat)
    (later : list (Card * nat)) : Card * nat :=
  match later with
  | [] => winning
  | c :: rest =>
      best_of trump_suit
        (if replaces trump_suit (fst c) (fst winning) then c else winning)
        rest
  end.

Definition seat_at (trick_leader position : nat) : nat :=
  ((trick_leader + position) mod NUM_PLAYERS)%nat.

(** Wizard > trump > highest of the suit, Jester lowest, last Wizard
    wins. *)
Definition trick_winner_spec (trick_leader : nat)
    (trump_suit : option CardSuit) (trick : list Card) : nat :=
  match last_position is_wizard trick 0 with
  | Some i => seat_at trick_leader i
  | None =>
      match non_jesters trick 0 with
      | [] => trick_leader
      | first :: later =>
          seat_at trick_leader (snd (best_of trump_suit first later))
      end
  end.

(** ** Random sources *)

(** A generator state is the sequence of raw outputs it has still to
    produce; a seed is identified with the sequence it determines. A draw
    below [n] consumes one output ([0] for ever once the sequence ends).
    Every behaviour of a generator over a finite run is the behaviour of
    some such sequence. *)
Definition rng : Type := list nat.

Definition randbelow (n : nat) (g : rng) : nat * rng :=
  match g with
  | [] => (0%nat, [])
  | r :: g' => ((r mod n)%nat, g')
  end.

(** [x[i], x[j] = x[j], x[i]] *)
Definition swap {A : Type} (x : list A) (i j : nat) : list A :=
  match x !! i, x !! j with
  | Some a, Some b => <[ j := a ]> (<[ i := b ]> x)
  | _, _ => x
  end.

(** [random.shuffle] of the Python standard library:
    [for i in reversed(range(1, len(x))): j = randbelow(i + 1); swap]. *)
Fixpoint shuffle_from {A : Type} (i : nat) (x : list A) (g : rng)
  : list A * rng :=
  match i with
  | O => (x, g)
  | S i' =>
      let '(j, g') := randbelow (S i) g in
      shuffle_from i' (swap x i j) g'
  end.

Definition shuffle {A : Type} (x : list A) (g : rng) : list A * rng :=
  shuffle_from (length x - 1) x g.

(** ** Environment state *)

(** The value stored under ["lead_suit"]: [_process_play], [_finish_trick]
    and [reset] store an integer, [_simulate_play] stores the enum member
    [card.suit] itself. *)
Inductive LeadSuit : Type :=
| LeadIndex (n : Z)
| LeadMember (s : CardSuit).

(** [lead_suit == self.NUM_SUITS]: a plain [Enum] member is equal to no
    integer. *)
Definition lead_is_unset (l : LeadSuit) : bool :=
  match l with
  | LeadIndex n => n =? NUM_SUITS
  | LeadMember _ => false
  end.

(** The dictionary [self.state], which is also the observation. *)
Record State : Type := mkState {
  s_hand : list Z;
  s_trump_card : list Z;
  s_cards_played_in_trick : list Z;
  s_cards_played_in_round : list Z;
  s_player_bids : list Z;
  s_player_tricks : list Z;
  s_player_scores : list Z;
  s_round_number : Z;
  s_phase : Z;
  s_lead_suit : LeadSuit;
  s_position_in_trick : Z;
  s_valid_actions : list Z
}.

(** The attributes of a [WizardEnv], followed by two components that are
    not attributes: [py_random], the state of the module-level generator
    of [random], and [deck_rest], the cards left in the local [deck] of
    [_deal_cards] when it returns (the method drops them; the field keeps
    them so that the partition of the deck can be stated). *)
Record Env : Type := mkEnv {
  state : State;
  hands : list (list Card);
  trump_card : option Card;
  cards_played_in_trick : list Card;
  round_starter : nat;
  trick_leader : nat;
  np_random : rng;
  py_random : rng;
  deck_rest : list Card
}.

Definition set_state (f : State -> State) (e : Env) : Env :=
  mkEnv (f (state e)) (hands e) (trump_card e) (cards_played_in_trick e)
        (round_starter e) (trick_leader e) (np_random e) (py_random e)
        (deck_rest e).
Definition set_hands (h : list (list Card)) (e : Env) : Env :=
  mkEnv (state e) h (trump_card e) (cards_played_in_trick e)
        (round_starter e) (trick_leader e) (np_random e) (py_random e)
        (deck_rest e).
Definition set_trump_card (t : option Card) (e : Env) : Env :=
  mkEnv (state e) (hands e) t (cards_played_in_trick e)
        (round_starter e) (trick_leader e) (np_random e) (py_random e)
        (deck_rest e).
Definition set_cards_played_in_trick (t : list Card) (e : Env) : Env :=
  mkEnv (state e) (hands e) (trump_card e) t
        (round_starter e) (trick_leader e) (np_random e) (py_random e)
        (deck_rest e).
Definition set_round_starter (p : nat) (e : Env) : Env :=
  mkEnv (state e) (hands e) (trump_card e) (cards_played_in_trick e)
        p (trick_leader e) (np_random e) (py_random e) (deck_rest e).
Definition set_trick_leader (p : nat) (e : Env) : Env :=
  mkEnv (state e) (hands e) (trump_card e) (cards_played_in_trick e)
        (round_starter e) p (np_random e) (py_random e) (deck_rest e).
Definition set_np_random (g : rng) (e : Env) : Env :=
  mkEnv (state e) (hands e) (trump_card e) (cards_played_in_trick e)
        (round_starter e) (trick_leader e) g (py_random e) (deck_rest e).
Definition set_py_random (g : rng) (e : Env) : Env :=
  mkEnv (state e) (hands e) (trump_card e) (cards_played_in_trick e)
        (round_starter e) (trick_leader e) (np_random e) g (deck_rest e).
Definition set_deck_rest (d : list Card) (e : Env) : Env :=
  mkEnv (state e) (hands e) (trump_card e) (cards_played_in_trick e)
        (round_starter e) (trick_leader e) (np_random e) (py_random e) d.

Definition put_hand (v : list Z) (s : State) : State :=
  mkState v (s_trump_card s) (s_cards_played_in_trick s)
    (s_cards_played_in_round s) (s_player_bids s) (s_player_tricks s)
    (s_player_scores s) (s_round_number s) (s_phase s) (s_lead_suit s)
    (s_position_in_trick s) (s_valid_actions s).
Definition put_trump_card (v : list Z) (s : State) : State :=
  mkState (s_hand s) v (s_cards_played_in_trick s)
    (s_cards_played_in_round s) (s_player_bids s) (s_player_tricks s)
    (s_player_scores s) (s_round_number s) (s_phase s) (s_lead_suit s)
    (s_position_in_trick s) (s_valid_actions s).
Definition put_cards_played_in_trick (v : list Z) (s : State) : State :=
  mkState (s_hand s) (s_trump_card s) v
    (s_cards_played_in_round s) (s_player_bids s) (s_player_tricks s)
    (s_player_scores s) (s_round_number s) (s_phase s) (s_lead_suit s)
    (s_position_in_trick s) (s_valid_actions s).
Definition put_cards_played_in_round (v : list Z) (s : State) : State :=
  mkState (s_hand s) (s_trump_card s) (s_cards_played_in_trick s)
    v (s_player_bids s) (s_player_tricks s)
    (s_player_scores s) (s_round_number s) (s_phase s) (s_lead_suit s)
    (s_position_in_trick s) (s_valid_actions s).
Definition put_player_bids (v : list Z) (s : State) : State :=
  mkState (s_hand s) (s_trump_card s) (s_cards_played_in_trick s)
    (s_cards_played_in_round s) v (s_player_tricks s)
    (s_player_scores s) (s_round_number s) (s_phase s) (s_lead_suit s)
    (s_position_in_trick s) (s_valid_actions s).
Definition put_player_tricks (v : list Z) (s : State) : State :=
  mkState (s_hand s) (s_trump_card s) (s_cards_played_in_trick s)
    (s_cards_played_in_round s) (s_player_bids s) v
    (s_player_scores s) (s_round_number s) (s_phase s) (s_lead_suit s)
    (s_position_in_trick s) (s_valid_actions s).
Definition put_player_scores (v : list Z) (s : State) : State :=
  mkState (s_hand s) (s_trump_card s) (s_cards_played_in_trick s)
    (s_cards_played_in_round s) (s_player_bids s) (s_player_tricks s)
    v (s_round_number s) (s_phase s) (s_lead_suit s)
    (s_position_in_trick s) (s_valid_actions s).
Definition put_round_number (n : Z) (s : State) : State :=
  mkState (s_hand s) (s_trump_card s) (s_cards_played_in_trick s)
    (s_cards_played_in_round s) (s_player_bids s) (s_player_tricks s)
    (s_player_scores s) n (s_phase s) (s_lead_suit s)
    (s_position_in_trick s) (s_valid_actions s).
Definition put_phase (n : Z) (s : State) : State :=
  mkState (s_hand s) (s_trump_card s) (s_cards_played_in_trick s)
    (s_cards_played_in_round s) (s_player_bids s) (s_player_tricks s)
    (s_player_scores s) (s_round_number s) n (s_lead_suit s)
    (s_position_in_trick s) (s_valid_actions s).
Definition put_lead_suit (l : LeadSuit) (s : State) : State :=
  mkState (s_hand s) (s_trump_card s) (s_cards_played_in_trick s)
    (s_cards_played_in_round s) (s_player_bids s) (s_player_tricks s)
    (s_player_scores s) (s_round_number s) (s_phase s) l
    (s_position_in_trick s) (s_valid_actions s).
Definition put_position_in_trick (n : Z) (s : State) : State :=
  mkState (s_hand s) (s_trump_card s) (s_cards_played_in_trick s)
    (s_cards_played_in_round s) (s_player_bids s) (s_player_tricks s)
    (s_player_scores s) (s_round_number s) (s_phase s) (s_lead_suit s)
    n (s_valid_actions s).
Definition put_valid_actions (v : list Z) (s : State) : State :=
  mkState (s_hand s) (s_trump_card s) (s_cards_played_in_trick s)
    (s_cards_played_in_round s) (s_player_bids s) (s_player_tricks s)
    (s_player_scores s) (s_round_number s) (s_phase s) (s_lead_suit s)
    (s_position_in_trick s) v.

(** ** The monad of the methods *)

Definition M (A : Type) : Type := Env -> result A * Env.

Definition ret {A : Type} (a : A) : M A := fun e => (Ok a, e).
Definition raise {A : Type} (x : exn) : M A := fun e => (Raise x, e).
Definition bind {A B : Type} (m : M A) (k : A -> M B) : M B :=
  fun e =>
    match m e with
    | (Ok a, e') => k a e'
    | (Raise x, e') => (Raise x, e')
    end.
Definition get : M Env := fun e => (Ok e, e).
Definition modify (f : Env -> Env) : M unit := fun e => (Ok tt, f e).

Notation "'let*' x ':=' m 'in' k" := (bind m (fun x => k))
  (at level 10, x name, m at level 100, k at level 200).
Notation "m '>>' k" := (bind m (fun _ => k))
  (at level 90, right associativity).

(** [for x in xs: body(x)] *)
Fixpoint for_each {A : Type} (xs : list A) (body : A -> M unit) : M unit :=
  match xs with
  | [] => ret tt
  | x :: rest => body x >> for_each rest body
  end.

(** [self.np_random.choice(a)]: one draw of a position of [a];
    [ValueError] on an empty [a]. *)
Definition choice {A : Type} (a : list A) : M A :=
  fun e =>
    let '(i, g) := randbelow (length a) (np_random e) in
    match a !! i with
    | Some x => (Ok x, set_np_random g e)
    | None => (Raise ValueError, e)
    end.

(** ** Vectors *)

Definition vec_add (u v : list Z) : list Z := zip_with Z.add u v.
Definition truth (x : Z) : Z := if x =? 0 then 0 else 1.
Definition vec_or (u v : list Z) : list Z :=
  zip_with (fun a b => truth (Z.abs a + Z.abs b)) u v.
(** [np.sum(vs, axis=0)] for a non-empty [vs] of vectors of 60 slots *)
Definition vec_sum (vs : list (list Z)) : list Z :=
  fold_left vec_add vs (zeros DECK_SIZE).
(** [np.logical_or.reduce(vs)] for a non-empty [vs] *)
Definition vec_or_reduce (vs : list (list Z)) : list Z :=
  match vs with
  | [] => zeros DECK_SIZE
  | v :: rest => fold_left vec_or rest (map truth v)
  end.
(** [v.fill(0)] *)
Definition fill0 (v : list Z) : list Z := map (fun _ => 0) v.
(** [v[i]] for an index [i] within the vector *)
Definition item (v : list Z) (i : nat) : Z := default 0 (v !! i).
(** [self.hands[i]] *)
Definition hand_of (e : Env) (i : nat) : list Card :=
  default [] (hands e !! i).
(** [range(a, b)] over seats *)
Definition seat_range (a b : nat) : list nat := seq a (b - a).
(** [list(range(n))] *)
Definition zrange (n : Z) : list Z := map Z.of_nat (seq 0 (Z.to_nat n)).

(** ** Deck and dealer *)

Definition ranks : list CardValue :=
  [ONE; TWO; THREE; FOUR; FIVE; SIX; SEVEN; EIGHT; NINE; TEN; ELEVEN;
   TWELVE; THIRTEEN].

(** [WizardEnv._create_deck] *)
Definition _create_deck : list Card :=
  flat_map
    (fun s => map (fun v => mkCard v s) ranks
              ++ [mkCard WIZARD s; mkCard JESTER s])
    [HEARTS; DIAMONDS; CLUBS; SPADES].

(** [deck.pop()]: the last card and the deck without it; [None] stands
    for the empty deck, which the dealer tests before it pops. *)
Definition pop {A : Type} (l : list A) : option (A * list A) :=
  match rev l with
  | [] => None
  | x :: r => Some (x, rev r)
  end.

(** [if deck: self.hands[player].append(deck.pop())] *)
Definition deal_one (acc : list Card * list (list Card)) (player : nat)
  : list Card * list (list Card) :=
  match pop (fst acc) with
  | None => acc
  | Some (c, deck') => (deck', alter (fun h => h ++ [c]) player (snd acc))
  end.

(** The two nested loops of [_deal_cards]. *)
Definition deal_rounds (rounds : nat) (acc : list Card * list (list Card))
  : list Card * list (list Card) :=
  fold_left
    (fun a _ => fold_left deal_one (seq 0 NUM_PLAYERS) a)
    (seq 0 rounds) acc.

(** [WizardEnv._deal_cards]. The deck is shuffled with the module-level
    generator of [random]. *)
Definition _deal_cards : M unit :=
  fun e =>
    let '(deck, g) := shuffle _create_deck (py_random e) in
    let '(deck1, hs) :=
      deal_rounds (Z.to_nat (s_round_number (state e)))
                  (deck, replicate NUM_PLAYERS []) in
    let '(trump, deck2) :=
      match pop deck1 with
      | Some (c, d) => (Some c, d)
      | None => (None, deck1)
      end in
    let hand_vec :=
      vec_sum (map (fun c => to_vector c DECK_SIZE) (default [] (hs !! 0%nat))) in
    let trump_vec :=
      match trump with
      | Some c => to_vector c DECK_SIZE
      | None => zeros DECK_SIZE
      end in
    (Ok tt,
     set_state (fun s => put_trump_card trump_vec (put_hand hand_vec s))
       (set_trump_card trump
          (set_hands hs (set_deck_rest deck2 (set_py_random g e))))).

(** ** Bid resolver *)

(** [np.count_nonzero(v)] *)
Definition count_nonzero (v : list Z) : nat :=
  length (List.filter (fun x => negb (x =? 0)) v).

(** [np.sum(v)] *)
Definition zsum (v : list Z) : Z := fold_right Z.add 0 v.

(** [l.remove(x)] on a list of integers that holds [x] *)
Fixpoint remove_bid (x : Z) (l : list Z) : list Z :=
  match l with
  | [] => []
  | y :: rest => if y =? x then rest else y :: remove_bid x rest
  end.

(** [WizardEnv._get_valid_bids] *)
Definition _get_valid_bids (e : Env) : list Z :=
  let st := state e in
  let valid_bids := zrange (s_round_number st + 1) in
  let num_bids := count_nonzero (s_player_bids st) in
  if (num_bids =? NUM_PLAYERS - 1)%nat then
    let total_bids := zsum (s_player_bids st) in
    let forbidden_bid := s_round_number st - total_bids in
    if (0 <=? forbidden_bid) && (forbidden_bid <=? s_round_number st)
    then remove_bid forbidden_bid valid_bids
    else valid_bids
  else valid_bids.

(** ** Play resolver *)

(** [WizardEnv._is_valid_play] *)
Definition _is_valid_play (e : Env) (card : Card) (player_idx : nat) : bool :=
  let hand := hand_of e player_idx in
  if negb (existsb (card_eqb card) hand) then false
  else if (length (cards_played_in_trick e) =? 0)%nat then true
  else if is_wizard card || is_jester card then true
  else
    match find is_regular (cards_played_in_trick e) with
    | None => true
    | Some c =>
        let lead_suit := suit c in
        let has_lead_suit := existsb (fun h => suit_eqb (suit h) lead_suit) hand in
        if has_lead_suit then suit_eqb (suit card) lead_suit else true
    end.

(** [WizardEnv._update_valid_actions]. In the bidding phase the mask is
    written through an index list, which raises [IndexError] when a bid
    is not below the size of the mask. The assignment to
    [self.action_space] is not modelled: nothing reads it. *)
Definition _update_valid_actions : M unit :=
  fun e =>
    if s_phase (state e) =? 0 then
      let valid_bids := _get_valid_bids e in
      if forallb (fun b => b <? DECK_SIZE) valid_bids then
        (Ok tt,
         set_state
           (put_valid_actions
              (fold_left (fun v b => <[ Z.to_nat b := 1 ]> v) valid_bids
                         (zeros DECK_SIZE))) e)
      else (Raise IndexError, e)
    else
      let valid_cards :=
        List.filter (fun card => _is_valid_play e card 0) (hand_of e 0) in
      (Ok tt,
       set_state
         (put_valid_actions
            (fold_left (fun v card => vec_add v (to_vector card DECK_SIZE))
                       valid_cards (zeros DECK_SIZE))) e).

(** [WizardEnv._process_bid] *)
Definition _process_bid (bid : Z) : M unit :=
  fun e =>
    let valid_bids := _get_valid_bids e in
    if negb (existsb (Z.eqb bid) valid_bids) then (Raise ValueError, e)
    else
      (Ok tt,
       set_state (fun s => put_player_bids (<[ 0%nat := bid ]> (s_player_bids s)) s) e).

(** The position of the first element that satisfies [p]. *)
Fixpoint index_where {A : Type} (p : A -> bool) (l : list A) : option nat :=
  match l with
  | [] => None
  | x :: rest => if p x then Some 0%nat else option_map S (index_where p rest)
  end.

(** [WizardEnv._vector_idx_to_hand_idx] *)
Definition _vector_idx_to_hand_idx (e : Env) (vector_idx : Z)
  : result (option nat) :=
  match from_vector_idx vector_idx with
  | Raise x => Raise x
  | Ok target_card =>
      Ok (index_where
            (fun card => suit_eqb (suit card) (suit target_card)
                         && value_eqb (value card) (value target_card))
            (hand_of e 0))
  end.

(** [WizardEnv._process_play] *)
Definition _process_play (action : Z) : M unit :=
  fun e =>
    if negb (s_phase (state e) =? 1) then (Raise ValueError, e)
    else
      match _vector_idx_to_hand_idx e action with
      | Raise x => (Raise x, e)
      | Ok None => (Raise ValueError, e)
      | Ok (Some hand_idx) =>
          match hand_of e 0 !! hand_idx with
          | None => (Raise IndexError, e)
          | Some card =>
              let hand' := delete hand_idx (hand_of e 0) in
              let trick' := cards_played_in_trick e ++ [card] in
              let hand_vec :=
                match hand' with
                | [] => zeros DECK_SIZE
                | _ => vec_or_reduce (map (fun c => to_vector c DECK_SIZE) hand')
                end in
              let upd (s : State) : State :=
                let s1 :=
                  put_hand hand_vec
                    (put_cards_played_in_round
                       (vec_add (s_cards_played_in_round s) (to_vector card DECK_SIZE))
                       (put_cards_played_in_trick
                          (vec_add (s_cards_played_in_trick s) (to_vector card DECK_SIZE))
                          s)) in
                if (length trick' =? 1)%nat then
                  put_lead_suit
                    (if is_regular card then LeadIndex (suit_value (suit card))
                     else LeadIndex NUM_SUITS) s1
                else s1 in
              (Ok tt,
               set_state upd
                 (set_cards_played_in_trick trick'
                    (set_hands (<[ 0%nat := hand' ]> (hands e)) e)))
          end
      end.

(** [l.remove(card)]: the list without the first occurrence of [card];
    [None] when there is none ([ValueError] in Python). *)
Fixpoint remove_card (card : Card) (l : list Card) : option (list Card) :=
  match l with
  | [] => None
  | c :: rest =>
      if card_eqb c card then Some rest
      else option_map (cons c) (remove_card card rest)
  end.

(** [WizardEnv._simulate_play] *)
Definition _simulate_play (player_idx : nat) : M unit :=
  let* e := get in
  let valid_cards :=
    List.filter (fun card => _is_valid_play e card player_idx) (hand_of e player_idx) in
  match valid_cards with
  | [] => ret tt
  | _ =>
      let* card := choice valid_cards in
      fun e =>
        let lead :=
          if lead_is_unset (s_lead_suit (state e)) && is_regular card
          then LeadMember (suit card)
          else s_lead_suit (state e) in
        match remove_card card (hand_of e player_idx) with
        | None => (Raise ValueError, set_state (put_lead_suit lead) e)
        | Some hand' =>
            (Ok tt,
             set_state
               (fun s =>
                  put_cards_played_in_round
                    (vec_add (s_cards_played_in_round s) (to_vector card DECK_SIZE))
                    (put_cards_played_in_trick
                       (vec_add (s_cards_played_in_trick s) (to_vector card DECK_SIZE))
                       (put_lead_suit lead s)))
               (set_cards_played_in_trick (cards_played_in_trick e ++ [card])
                  (set_hands (<[ player_idx := hand' ]> (hands e)) e)))
        end
  end.

(** ** Trick and round resolution *)

(** [WizardEnv._evaluate_trick] *)
Definition _evaluate_trick : M nat :=
  fun e =>
    (evaluate_trick (trick_leader e) (trump_card e) (cards_played_in_trick e), e).

(** [WizardEnv._finish_trick]; the result is the shaping reward. *)
Definition _finish_trick : M Q :=
  let* winner := _evaluate_trick in
  let* e := get in
  let reward : Q :=
    if (winner =? 0)%nat then
      if item (s_player_tricks (state e)) 0 <? item (s_player_bids (state e)) 0
      then (2 # 10)%Q else (- (2 # 10))%Q
    else 0%Q in
  modify
    (fun e =>
       set_state
         (fun s =>
            put_lead_suit (LeadIndex NUM_SUITS)
              (put_cards_played_in_trick (fill0 (s_cards_played_in_trick s))
                 (put_position_in_trick ((4 - Z.of_nat winner) mod 4)
                    (put_player_tricks
                       (alter (fun t => t + 1) winner (s_player_tricks s)) s))))
         (set_cards_played_in_trick [] (set_trick_leader winner e))) >>
  _update_valid_actions >>
  ret reward.

(** int32 arithmetic of the score vector wraps around. *)
Definition wrap32 (z : Z) : Z := (z + 2 ^ 31) mod 2 ^ 32 - 2 ^ 31.

(** The body of the scoring loop of [_finish_round] for seat [i]. *)
Definition score_seat (s : State) (i : nat) : State :=
  let bid := item (s_player_bids s) i in
  let tricks := item (s_player_tricks s) i in
  let old := item (s_player_scores s) i in
  let new :=
    if tricks =? bid then wrap32 (old + wrap32 (1 + 1 * bid))
    else wrap32 (old - Z.abs (wrap32 (bid - tricks))) in
  put_player_scores (<[ i := new ]> (s_player_scores s)) s.

(** [WizardEnv._finish_round]; the result is the agent's score delta. *)
Definition _finish_round : M Q :=
  let* e := get in
  let old_score := item (s_player_scores (state e)) 0 in
  let scored := fold_left score_seat (seq 0 NUM_PLAYERS) (state e) in
  let reward := wrap32 (item (s_player_scores scored) 0 - old_score) in
  modify
    (fun e =>
       let starter := ((round_starter e + 1) mod NUM_PLAYERS)%nat in
       set_state
         (fun _ =>
            put_position_in_trick ((4 - Z.of_nat starter) mod 4)
              (put_cards_played_in_round (fill0 (s_cards_played_in_round scored))
                 (put_player_tricks (fill0 (s_player_tricks scored))
                    (put_player_bids (fill0 (s_player_bids scored))
                       (put_phase 0
                          (put_round_number (s_round_number scored + 1) scored))))))
         (set_trick_leader starter (set_round_starter starter e))) >>
  _deal_cards >>
  _update_valid_actions >>
  ret (inject_Z reward).

(** ** Facade *)

Definition initial_state : State :=
  mkState (zeros DECK_SIZE) (zeros DECK_SIZE) (zeros DECK_SIZE)
    (zeros DECK_SIZE) (zeros (Z.of_nat NUM_PLAYERS))
    (zeros (Z.of_nat NUM_PLAYERS)) (zeros (Z.of_nat NUM_PLAYERS))
    1 0 (LeadIndex NUM_SUITS) 0 (zeros DECK_SIZE).

(** [WizardEnv.reset]. [super().reset(seed=seed)] replaces the
    environment's generator when a seed is given and touches nothing
    else; [round_starter] is read, never written. *)
Definition reset (seed : option rng) : M unit :=
  modify (fun e => match seed with Some g => set_np_random g e | None => e end) >>
  modify
    (fun e =>
       set_trick_leader (round_starter e)
         (set_hands (replicate NUM_PLAYERS [])
            (set_cards_played_in_trick []
               (set_state (fun _ => initial_state) e)))) >>
  _deal_cards >>
  _update_valid_actions.

(** [WizardEnv.__init__]: [round_starter = 0], [trick_leader = 0], then
    [self.reset()]. [np0] is the generator that the base class creates on
    first use when no seed was given, [py0] the state of the module-level
    generator at that moment. The attributes that [reset] creates have
    placeholder values before it runs; [reset] overwrites them without
    reading them. *)
Definition __init__ (np0 py0 : rng) : result unit * Env :=
  reset None (mkEnv initial_state [] None [] 0 0 np0 py0 []).

(** [WizardEnv._get_next_player] *)
Definition _get_next_player (current_player : nat) : nat :=
  ((current_player + 1) mod NUM_PLAYERS)%nat.

(** [while current_player != target: _simulate_play(current_player);
    current_player = _get_next_player(current_player)]. The loop is cut
    after [fuel] iterations; for a target below [NUM_PLAYERS] it ends
    within [NUM_PLAYERS] iterations, for any other target it never ends
    in Python and yields [Diverges] here. *)
Fixpoint simulate_until (fuel : nat) (target : Env -> nat)
    (current_player : nat) : M unit :=
  let* e := get in
  if (current_player =? target e)%nat then ret tt
  else
    match fuel with
    | O => raise Diverges
    | S fuel' =>
        _simulate_play current_player >>
        simulate_until fuel' target (_get_next_player current_player)
    end.

Definition set_bid (i : nat) (bid : Z) : M unit :=
  modify
    (set_state (fun s => put_player_bids (<[ i := bid ]> (s_player_bids s)) s)).

(** [WizardEnv._play_until_agent_turn] *)
Definition _play_until_agent_turn : M unit :=
  let* e := get in
  if s_phase (state e) =? 0 then
    (if negb (round_starter e =? 0)%nat then
       for_each (seat_range (round_starter e) NUM_PLAYERS)
         (fun i =>
            let* e := get in
            let valid_bids := zrange (s_round_number (state e) + 1) in
            let* bid := choice valid_bids in
            set_bid i bid)
     else ret tt) >>
    _update_valid_actions
  else
    simulate_until NUM_PLAYERS (fun _ => 0%nat) (trick_leader e).

(** The body of the loop of [step] that simulates the remaining bids. *)
Definition simulate_bid (i : nat) : M unit :=
  let* e := get in
  let rn := s_round_number (state e) in
  let valid_bids := zrange (rn + 1) in
  let valid_bids :=
    if (i =? NUM_PLAYERS - 1)%nat then
      let forbidden_bid := rn - zsum (s_player_bids (state e)) in
      if (0 <=? forbidden_bid) && (forbidden_bid <=? rn)
      then remove_bid forbidden_bid valid_bids
      else valid_bids
    else valid_bids in
  let* bid := choice valid_bids in
  set_bid i bid.

(** [WizardEnv.step]; the result is [(reward, done)], the observation is
    the [state] of the environment the call leaves. *)
Definition step (action : Z) : M (Q * bool) :=
  let* e := get in
  if s_phase (state e) =? 0 then
    _process_bid action >>
    for_each
      (if negb (round_starter e =? 0)%nat
       then seat_range 1 (round_starter e)
       else seat_range 1 NUM_PLAYERS)
      simulate_bid >>
    modify
      (fun e =>
         set_state
           (fun s =>
              put_position_in_trick ((4 - Z.of_nat (round_starter e)) mod 4)
                (put_phase 1 s))
           (set_trick_leader (round_starter e) e)) >>
    _update_valid_actions >>
    _play_until_agent_turn >>
    ret (0%Q, false)
  else
    _process_play action >>
    simulate_until NUM_PLAYERS trick_leader (_get_next_player 0) >>
    let* reward := _finish_trick in
    let* e := get in
    if forallb (fun hand => (length hand =? 0)%nat) (hands e) then
      let* reward := _finish_round in
      let* e := get in
      if s_round_number (state e) >? MAX_ROUND then ret (reward, true)
      else _play_until_agent_turn >> ret (reward, false)
    else
      _play_until_agent_turn >> ret (reward, false).

(** ** Runs *)

(** The observations of a run: the state after each call of [step], up to
    and including the first call that raises; and the environment the
    run leaves. *)
Fixpoint observations (actions : list Z) (e : Env) : list State * Env :=
  match actions with
  | [] => ([], e)
  | a :: rest =>
      match step a e with
      | (Ok _, e') =>
          let '(obs, e'') := observations rest e' in (state e' :: obs, e'')
      | (Raise _, e') => ([state e'], e')
      end
  end.

(** A game constructed with a seed: [env = WizardEnv()] followed by
    [env.reset(seed=seed)], then the agent's actions. The observation
    sequence starts with the one that [reset] returns. [py0] is the state
    of the module-level generator when the game is constructed. *)
Definition game (np0 py0 : rng) (seed : rng) (actions : list Z)
  : list State * Env :=
  let e0 := snd (__init__ np0 py0) in
  let e1 := snd (reset (Some seed) e0) in
  let '(obs, e2) := observations actions e1 in
  (state e1 :: obs, e2).

(** Two games in one process, one after the other, with the same seed and
    the same actions: the second starts from the state in which the first
    left the module-level generator. *)
Definition two_games (np0 py0 : rng) (seed : rng) (actions : list Z)
  : list State * list State :=
  let '(obs1, e1) := game np0 py0 seed actions in
  let '(obs2, _) := game np0 (py_random e1) seed actions in
  (obs1, obs2).

(** The agent of [play_game.py], made deterministic: the first action the
    mask allows. *)
Definition first_valid_action (e : Env) : Z :=
  match index_where (fun x => x =? 1) (s_valid_actions (state e)) with
  | Some i => Z.of_nat i
  | None => 0
  end.

(** [n] steps of that agent; the result of the last step is returned. *)
Fixpoint play (n : nat) (e : Env) : result (Q * bool) * Env :=
  match n with
  | O => (Ok (0%Q, false), e)
  | S n' =>
      match play n' e with
      | (Ok _, e') => step (first_valid_action e') e'
      | r => r
      end
  end.

(** ** The partition of the deck *)

(** The cards that a vector of slot counts stands for: each card of the
    deck as many times as its slot counts. *)
Definition cards_of_vector (v : list Z) : list Card :=
  flat_map
    (fun c => replicate (Z.to_nat (item v (Z.to_nat (vector_index c)))) c)
    _create_deck.

(** Undealt rest of the deck, all hands, the trump card if one was drawn,
    and the cards played in the current round. *)
Definition all_cards (e : Env) : list Card :=
  deck_rest e ++ concat (hands e) ++ option_list (trump_card e)
  ++ cards_of_vector (s_cards_played_in_round (state e)).

(** The four piles are a partition of the deck; the round vector is a
    vector of 60 counts. *)
Definition deck_partition (e : Env) : Prop :=
  length (s_cards_played_in_round (state e)) = Z.to_nat DECK_SIZE
  /\ Forall (fun x => 0 <= x) (s_cards_played_in_round (state e))
  /\ all_cards e ≡ₚ _create_deck.

(** The states of an environment between calls: the state the
    constructor leaves, and the state that [reset] or [step] leaves,
    whether the call returned or raised. *)
Inductive reachable : Env -> Prop :=
| reachable_init (np0 py0 : rng) : reachable (snd (__init__ np0 py0))
| reachable_reset (e : Env) (seed : option rng) :
    reachable e -> reachable (snd (reset seed e))
| reachable_step (e : Env) (action : Z) :
    reachable e -> reachable (snd (step action e)).

(** [m] keeps [P], whatever its outcome. *)
Definition preserves {A : Type} (P : Env -> Prop) (m : M A) : Prop :=
  forall e, P e -> P (snd (m e)).

(** From a state in [P], [m] returns (it does not raise) and its result
    and final state satisfy [Q]. *)
Definition returns {A : Type} (P : Env -> Prop) (m : M A)
    (Q : A -> Env -> Prop) : Prop :=
  forall e, P e -> exists a e', m e = (Ok a, e') /\ Q a e'.

(** The action names a card that the agent holds: it decodes to a card
    and that card is in [hands[0]]. *)
Definition holds_card (e : Env) (action : Z) : Prop :=
  exists c, from_vector_idx action = Ok c /\ In c (hand_of e 0).

(** ** Concrete runs *)

(** Two generator states, long enough for a whole game. *)
Definition np_tape : rng :=
  [0; 0; 0; 0; 0; 0; 0; 1; 1; 0; 0; 0; 0; 0; 0; 1; 1; 1]%nat
  ++ map (fun i => (i * 7 + 3)%nat) (seq 0 450).
Definition py_tape : rng := map (fun i => (i * 11 + 5)%nat) (seq 0 1200).

(** A fresh environment, and the environment after [n] steps of the
    agent that takes the first action the mask allows. *)
Definition env0 : Env := snd (__init__ np_tape py_tape).
Definition env_after (n : nat) : Env := snd (play n env0).

(** The example trick of the specification: trump Diamonds, seat 1 leads
    the 5 of Clubs, seat 2 plays the 9 of Clubs, seat 3 the 3 of
    Diamonds. *)
Definition example_trick_env : Env :=
  set_trick_leader 1
    (set_trump_card (Some (mkCard TWO DIAMONDS))
       (set_cards_played_in_trick
          [mkCard FIVE CLUBS; mkCard NINE CLUBS; mkCard THREE DIAMONDS] env0)).

(** Round 5 with the bids 1, 1, 1 of the three other seats on the table
    and the agent to bid last. *)
Definition last_bid_env : Env :=
  set_state (fun s => put_round_number 5 (put_player_bids [0; 1; 1; 1] s)) env0.

(** The fourth card is on the trick: the agent has played the Queen of
    Diamonds after the three other seats. *)
Definition full_trick_env : Env := snd (_process_play 24 (env_after 3)).

(** ** Auxiliary notions of the proofs *)

(** The cards of a trick with their seats, the first card being at
    position [i]. *)
Definition tagged (leader : nat) (i : nat) (trick : list Card) : list (Card * nat) :=
  imap (fun k card => (card, seat_at leader (i + k))) trick.

Definition with_seat (leader : nat) (cp : Card * nat) : Card * nat :=
  (fst cp, seat_at leader (snd cp)).

(** The components that [deck_partition] reads. *)
Definition piles (e : Env)
  : list Card * list (list Card) * option Card * list Z :=
  (deck_rest e, hands e, trump_card e, s_cards_played_in_round (state e)).

(** Operations that leave the piles where they are. *)
Definition keeps_piles {A : Type} (m : M A) : Prop :=
  forall x, preserves (fun e => piles e = x) m.

(** The part of the state that neither a bid nor a play changes. *)
Definition round_frame (n ph : Z) (starter : nat) (e : Env) : Prop :=
  s_round_number (state e) = n /\ s_phase (state e) = ph
  /\ round_starter e = starter.

(** ** The state of a game between two calls *)

(** The slot of a card as a position of a vector. *)
Definition slot (c : Card) : nat := Z.to_nat (vector_index c).

(** The sum of the one-hot vectors of some cards. *)
Definition hand_vector (h : list Card) : list Z :=
  vec_sum (map (fun c => to_vector c DECK_SIZE) h).

(** The mask that marks the slots of some bids. *)
Definition bid_mask (bids : list Z) : list Z :=
  fold_left (fun v b => <[ Z.to_nat b := 1 ]> v) bids (zeros DECK_SIZE).

(** How often a card occurs in a list. *)
Definition occurrences (c : Card) (l : list Card) : Z :=
  Z.of_nat (length (List.filter (card_eqb c) l)).

(** The value that [_simulate_play] stores under ["lead_suit"] when
    [card] is played. *)
Definition lead_after (card : Card) (lead : LeadSuit) : LeadSuit :=
  if lead_is_unset lead && is_regular card then LeadMember (suit card)
  else lead.

(** The environment after seat [p] has put [card] on the trick and keeps
    [hand'], as [_simulate_play] leaves it. *)
Definition after_play (p : nat) (card : Card) (hand' : list Card) (e : Env)
  : Env :=
  set_state
    (fun s =>
       put_cards_played_in_round
         (vec_add (s_cards_played_in_round s) (to_vector card DECK_SIZE))
         (put_cards_played_in_trick
            (vec_add (s_cards_played_in_trick s) (to_vector card DECK_SIZE))
            (put_lead_suit (lead_after card (s_lead_suit (state e))) s)))
    (set_cards_played_in_trick (cards_played_in_trick e ++ [card])
       (set_hands (<[ p := hand' ]> (hands e)) e)).

(** The environment after the agent has played the card at position
    [hand_idx] of its hand, as [_process_play] leaves it. *)
Definition after_agent_play (hand_idx : nat) (card : Card) (e : Env) : Env :=
  let hand' := delete hand_idx (hand_of e 0) in
  let trick' := cards_played_in_trick e ++ [card] in
  let hand_vec :=
    match hand' with
    | [] => zeros DECK_SIZE
    | _ => vec_or_reduce (map (fun c => to_vector c DECK_SIZE) hand')
    end in
  let upd (s : State) : State :=
    let s1 :=
      put_hand hand_vec
        (put_cards_played_in_round
           (vec_add (s_cards_played_in_round s) (to_vector card DECK_SIZE))
           (put_cards_played_in_trick
              (vec_add (s_cards_played_in_trick s) (to_vector card DECK_SIZE))
              s)) in
    if (length trick' =? 1)%nat then
      put_lead_suit
        (if is_regular card then LeadIndex (suit_value (suit card))
         else LeadIndex NUM_SUITS) s1
    else s1 in
  set_state upd
    (set_cards_played_in_trick trick'
       (set_hands (<[ 0%nat := hand' ]> (hands e)) e)).

(** The number of seats that play before the agent in a trick that seat
    [L] leads. *)
Definition agent_pos (L : nat) : nat := ((4 - L) mod 4)%nat.

(** Seat [p] is among the first [n] seats to play in a trick that seat
    [L] leads. *)
Definition has_played (L n p : nat) : bool := ((p + 4 - L) mod 4 <? n)%nat.

(** The lead suit as the simulated plays record it: the enum member of
    the first card that is no Wizard and no Jester, the integer
    [NUM_SUITS] while there is none. *)
Definition lead_of (trick : list Card) : LeadSuit :=
  match find is_regular trick with
  | Some c => LeadMember (suit c)
  | None => LeadIndex NUM_SUITS
  end.

(** The number of cards that each seat is dealt in the current round. *)
Definition dealt (e : Env) : nat :=
  Nat.min (Z.to_nat (s_round_number (state e))) 15.

(** What holds of an environment at every moment of a game: seats and
    vectors have their sizes, the piles partition the deck, the bids lie
    within the round, and the vectors of the observation show the trick,
    the trump card and the agent's hand. *)
Definition static_ok (e : Env) : Prop :=
  (round_starter e < 4)%nat
  /\ length (hands e) = 4%nat
  /\ 1 <= s_round_number (state e)
  /\ deck_partition e
  /\ length (s_player_bids (state e)) = 4%nat
  /\ Forall (fun b => 0 <= b <= s_round_number (state e))
            (s_player_bids (state e))
  /\ length (s_player_tricks (state e)) = 4%nat
  /\ s_cards_played_in_trick (state e) = hand_vector (cards_played_in_trick e)
  /\ s_trump_card (state e) = hand_vector (option_list (trump_card e))
  /\ s_hand (state e) = hand_vector (hand_of e 0).

(** The playing phase, in a trick that seat [L] leads, when [n] seats
    have played and every seat held [k] cards at the start of the
    trick. *)
Definition in_trick (L k n : nat) (e : Env) : Prop :=
  static_ok e
  /\ s_phase (state e) = 1
  /\ trick_leader e = L
  /\ (L < 4)%nat
  /\ length (cards_played_in_trick e) = n
  /\ (forall p, (p < 4)%nat ->
        (length (hand_of e p) + (if has_played L n p then 1 else 0) = k)%nat)
  /\ zsum (s_player_tricks (state e)) + Z.of_nat k = Z.of_nat (dealt e)
  /\ s_position_in_trick (state e) = Z.of_nat (agent_pos L)
  /\ ((n <= agent_pos L)%nat ->
      s_lead_suit (state e) = lead_of (cards_played_in_trick e)).

(** The playing phase when the agent is to play. *)
Definition at_turn (e : Env) : Prop :=
  exists k : nat,
    (1 <= k)%nat
    /\ in_trick (trick_leader e) k (agent_pos (trick_leader e)) e
    /\ s_valid_actions (state e) = s_hand (state e).

(** The bidding phase, apart from the mask. *)
Definition bidding_core (e : Env) : Prop :=
  static_ok e
  /\ s_phase (state e) = 0
  /\ (trick_leader e < 4)%nat
  /\ cards_played_in_trick e = []
  /\ (forall p, (p < 4)%nat -> length (hand_of e p) = dealt e)
  /\ zsum (s_player_tricks (state e)) = 0
  /\ s_lead_suit (state e) = LeadIndex NUM_SUITS.

(** The bidding phase when the agent is to bid. *)
Definition bidding (e : Env) : Prop :=
  bidding_core e
  /\ (s_round_number (state e) < DECK_SIZE ->
      s_valid_actions (state e) = bid_mask (_get_valid_bids e)).

(** The invariant of the game between two calls. *)
Definition game_inv (e : Env) : Prop := bidding e \/ at_turn e.

(** The part of the environment that a simulated play leaves alone. *)
Definition play_frame (e : Env) : list Z * list Z * Z * nat * list Z * list Z :=
  (s_valid_actions (state e), s_hand (state e), s_round_number (state e),
   round_starter e, s_player_bids (state e), s_player_scores (state e)).

(** * Properties *)


(** ** Card encoding *)

Lemma vector_index_range (c : Card) : 0 <= vector_index c < DECK_SIZE.
Proof. destruct c as [[] []]; vm_compute; split; congruence. Qed.

Lemma from_vector_idx_vector_index (c : Card) :
  from_vector_idx (vector_index c) = Ok c.
Proof. destruct c as [[] []]; reflexivity. Qed.

Lemma below_60_cases (i : Z) :
  0 <= i < 60 -> exists n : nat, (n < 60)%nat /\ i = Z.of_nat n.
Proof. intros H. exists (Z.to_nat i). lia. Qed.

(** C7. Every index [i] of the 60 slots decodes to a card, and encoding that
    card gives the one-hot vector of [i]: the slot written is [i] itself.
    Slots 0-51 hold the numeric cards at [suit * 13 + rank - 1], slots
    52-55 the Wizards, slots 56-59 the Jesters; conversely every card
    decodes back from its slot, so the encoding is a bijection between the
    60 cards and the 60 slots. *)
Theorem encoding_round_trip :
  (forall i : Z, 0 <= i < DECK_SIZE ->
     exists c : Card,
       from_vector_idx i = Ok c
       /\ vector_index c = i
       /\ to_vector c DECK_SIZE = one_hot (Z.to_nat DECK_SIZE) i
       /\ is_regular c = (i <? 52)
       /\ is_wizard c = (52 <=? i) && (i <? 56)
       /\ is_jester c = (56 <=? i)
       /\ (is_regular c = true ->
           i = suit_value (suit c) * 13 + (value_of (value c) - 1))
       /\ (is_wizard c = true -> i = 52 + suit_value (suit c))
       /\ (is_jester c = true -> i = 56 + suit_value (suit c)))
  /\ (forall c : Card,
        0 <= vector_index c < DECK_SIZE
        /\ from_vector_idx (vector_index c) = Ok c).
Proof.
  split.
  - intros i Hi. destruct (below_60_cases i Hi) as [n [Hn ->]].
    do 60 (destruct n as [|n];
           [ eexists; split; [reflexivity|];
             repeat split; try reflexivity; vm_compute; congruence | ]).
    lia.
  - intros c. split; [apply vector_index_range | apply from_vector_idx_vector_index].
Qed.

Lemma encoding_round_trip_witness :
  0 <= 17 < DECK_SIZE
  /\ exists c : Card,
       from_vector_idx 17 = Ok c
       /\ vector_index c = 17
       /\ to_vector c DECK_SIZE = one_hot (Z.to_nat DECK_SIZE) 17
       /\ is_regular c = (17 <? 52)
       /\ is_wizard c = (52 <=? 17) && (17 <? 56)
       /\ is_jester c = (56 <=? 17)
       /\ (is_regular c = true ->
           17 = suit_value (suit c) * 13 + (value_of (value c) - 1))
       /\ (is_wizard c = true -> 17 = 52 + suit_value (suit c))
       /\ (is_jester c = true -> 17 = 56 + suit_value (suit c)).
Proof.
  split; [vm_compute; split; congruence |].
  apply (proj1 encoding_round_trip 17). vm_compute; split; congruence.
Defined.

(** ** Trick evaluator *)

Section TrickEvaluator.

Variable leader : nat.
Variable trump : option Card.


Lemma tagged_cons (i : nat) (c : Card) (trick : list Card) :
  tagged leader i (c :: trick) = (c, seat_at leader i) :: tagged leader (S i) trick.
Proof.
  unfold tagged. cbn [imap]. rewrite Nat.add_0_r. f_equal.
  apply imap_ext. intros k x _. cbn. now rewrite Nat.add_succ_r.
Qed.

Lemma cards_with_players_tagged (trick : list Card) :
  cards_with_players leader trick = tagged leader 0 trick.
Proof.
  unfold cards_with_players, tagged. apply imap_ext.
  intros k x _. unfold seat_at. cbn. reflexivity.
Qed.


Lemma find_last {A : Type} (p : A -> bool) (x : A) (l : list A) :
  find p (rev (x :: l)) =
  match find p (rev l) with
  | Some y => Some y
  | None => if p x then Some x else None
  end.
Proof.
  cbn [rev]. induction (rev l) as [|y r IH]; cbn.
  - reflexivity.
  - destruct (p y); [reflexivity | apply IH].
Qed.

Lemma last_wizard_tagged (trick : list Card) (i : nat) :
  option_map snd (find (fun cp => is_wizard (fst cp)) (rev (tagged leader i trick)))
  = option_map (seat_at leader) (last_position is_wizard trick i).
Proof.
  revert i. induction trick as [|c rest IH]; intros i.
  - reflexivity.
  - rewrite tagged_cons, find_last. cbn [last_position].
    specialize (IH (S i)).
    destruct (find _ (rev (tagged leader (S i) rest))) as [y|];
      destruct (last_position is_wizard rest (S i)) as [j|];
      cbn [option_map snd] in IH |- *; try congruence.
    cbn [fst]. destruct (is_wizard c); reflexivity.
Qed.

Lemma all_jesters_tagged (trick : list Card) (i : nat) :
  forallb (fun cp => is_jester (fst cp)) (tagged leader i trick)
  = match non_jesters trick i with [] => true | _ => false end.
Proof.
  revert i. induction trick as [|c rest IH]; intros i.
  - reflexivity.
  - rewrite tagged_cons. cbn. destruct (is_jester c); cbn; [apply IH | reflexivity].
Qed.

Lemma compare_step_self (c : Card * nat) : compare_step trump c c = c.
Proof.
  destruct c as [c p]. unfold compare_step.
  destruct (is_jester c); [reflexivity|].
  assert ((value_of (value c) >? value_of (value c)) = false) as ->
    by (rewrite Z.gtb_ltb; apply Z.ltb_irrefl).
  rewrite andb_false_r.
  destruct trump as [t|]; [|reflexivity].
  destruct (suit_eqb (suit c) (suit t)); reflexivity.
Qed.

Lemma compare_step_replaces (w c : Card * nat) :
  is_jester (fst c) = false ->
  compare_step trump w c
  = if replaces (option_map suit trump) (fst c) (fst w) then c else w.
Proof.
  destruct w as [w pw], c as [c pc]. cbn [fst]. intros Hj.
  unfold compare_step, replaces. rewrite Hj, Z.gtb_ltb.
  set (higher := suit_eqb (suit c) (suit w)
                 && (value_of (value w) <? value_of (value c))).
  destruct trump as [t|]; cbn [option_map].
  - destruct (suit_eqb (suit c) (suit t) && negb (suit_eqb (suit w) (suit t)));
      cbn [orb]; [reflexivity|].
    destruct higher; reflexivity.
  - cbn [orb]. destruct higher; reflexivity.
Qed.

Lemma non_jesters_are (trick : list Card) (i : nat) (c : Card * nat) :
  In c (non_jesters trick i) -> is_jester (fst c) = false.
Proof.
  revert i. induction trick as [|x rest IH]; intros i; cbn.
  - tauto.
  - destruct (is_jester x) eqn:Hx.
    + apply IH.
    + intros [<- | H]; [exact Hx | apply (IH _ H)].
Qed.

(** The comparison loop skips Jesters: over the tagged trick it does what
    [best_of] does over the cards that are no Jesters. *)
Lemma fold_compare_tagged (trick : list Card) (i : nat) (w : Card * nat) :
  fold_left (compare_step trump) (tagged leader i trick) (with_seat leader w)
  = with_seat leader (best_of (option_map suit trump) w (non_jesters trick i)).
Proof.
  revert i w. induction trick as [|c rest IH]; intros i w.
  - reflexivity.
  - rewrite tagged_cons. cbn [fold_left non_jesters].
    destruct (is_jester c) eqn:Hc.
    + replace (compare_step trump (with_seat leader w) (c, seat_at leader i))
        with (with_seat leader w).
      * apply IH.
      * unfold compare_step, with_seat. destruct w. cbn [fst snd]. now rewrite Hc.
    + cbn [best_of]. rewrite <- IH. f_equal.
      change (c, seat_at leader i) with (with_seat leader (c, i)).
      rewrite compare_step_replaces by exact Hc.
      cbn [fst with_seat].
      destruct (replaces _ c (fst w)); reflexivity.
Qed.

Lemma first_non_jester_tagged (trick : list Card) (i : nat) :
  find (fun cp => negb (is_jester (fst cp))) (tagged leader i trick)
  = option_map (with_seat leader) (head (non_jesters trick i)).
Proof.
  revert i. induction trick as [|c rest IH]; intros i.
  - reflexivity.
  - rewrite tagged_cons. cbn. destruct (is_jester c); cbn; [apply IH | reflexivity].
Qed.

(** The loop also visits the cards up to and including the initial
    winner; they are Jesters and the winner itself, and change nothing. *)
Lemma fold_compare_from_first (trick : list Card) (i : nat)
    (first : Card * nat) (later : list (Card * nat)) :
  non_jesters trick i = first :: later ->
  fold_left (compare_step trump) (tagged leader i trick) (with_seat leader first)
  = with_seat leader (best_of (option_map suit trump) first later).
Proof.
  intros H. rewrite fold_compare_tagged, H. cbn [best_of].
  assert (Hj : is_jester (fst first) = false)
    by (apply (non_jesters_are trick i); rewrite H; now left).
  pose proof (compare_step_replaces first first Hj) as E.
  rewrite compare_step_self in E.
  destruct (replaces _ (fst first) (fst first)); reflexivity.
Qed.

Lemma evaluate_trick_spec (trick : list Card) :
  evaluate_trick leader trump trick
  = Ok (trick_winner_spec leader (option_map suit trump) trick).
Proof.
  unfold evaluate_trick, trick_winner_spec.
  rewrite cards_with_players_tagged.
  pose proof (last_wizard_tagged trick 0) as Hw.
  destruct (find _ (rev (tagged leader 0 trick))) as [[wc wp]|];
    destruct (last_position is_wizard trick 0) as [j|];
    cbn [option_map snd] in Hw; try congruence.
  rewrite all_jesters_tagged, first_non_jester_tagged.
  destruct (non_jesters trick 0) as [|first later] eqn:Hnj.
  - reflexivity.
  - cbn [head option_map].
    rewrite (fold_compare_from_first trick 0 first later Hnj). reflexivity.
Qed.

End TrickEvaluator.

(** C1. For every non-empty trick, [_evaluate_trick] returns the winner
    of the ordering Wizard > trump > highest card of the suit, Jesters
    lowest: the seat of the last Wizard if one was played; else the trick
    leader if every card is a Jester; else the seat of the card that is
    left when the first non-Jester card is taken as winner and each later
    non-Jester card replaces it iff it is trump while the winner is not,
    or has the winner's suit and a strictly higher rank. The environment
    is left as it was. *)
Theorem evaluate_trick_ordering (e : Env) :
  cards_played_in_trick e <> [] ->
  _evaluate_trick e
  = (Ok (trick_winner_spec (trick_leader e) (option_map suit (trump_card e))
           (cards_played_in_trick e)), e).
Proof.
  intros _. unfold _evaluate_trick. now rewrite evaluate_trick_spec.
Qed.

(** ** Shuffling and dealing move cards, they neither add nor drop one *)

Lemma swap_perm {A : Type} (x : list A) (i j : nat) : swap x i j ≡ₚ x.
Proof.
  unfold swap. destruct (x !! i) as [a|] eqn:Hi; [|reflexivity].
  destruct (x !! j) as [b|] eqn:Hj; [|reflexivity].
  now apply Permutation_insert_swap.
Qed.

Lemma shuffle_from_perm {A : Type} (i : nat) (x : list A) (g : rng) :
  fst (shuffle_from i x g) ≡ₚ x.
Proof.
  revert x g. induction i as [|i IH]; intros x g; cbn [shuffle_from].
  - reflexivity.
  - destruct (randbelow (S (S i)) g) as [j g'] eqn:Hr.
    rewrite IH. apply swap_perm.
Qed.

Lemma shuffle_perm {A : Type} (x : list A) (g : rng) : fst (shuffle x g) ≡ₚ x.
Proof. apply shuffle_from_perm. Qed.

Lemma pop_Some {A : Type} (l d : list A) (c : A) :
  pop l = Some (c, d) -> l = d ++ [c].
Proof.
  unfold pop. destruct (rev l) as [|x r] eqn:Hr; [discriminate|].
  intros [= <- <-]. rewrite <- (rev_involutive l), Hr. reflexivity.
Qed.

Lemma pop_perm {A : Type} (l d : list A) (c : A) :
  pop l = Some (c, d) -> l ≡ₚ c :: d.
Proof.
  intros H. rewrite (pop_Some _ _ _ H). symmetry. apply Permutation_cons_append.
Qed.

Lemma concat_alter_append {A : Type} (c : A) (p : nat) (hs : list (list A)) :
  (p < length hs)%nat ->
  concat (alter (fun h => h ++ [c]) p hs) ≡ₚ c :: concat hs.
Proof.
  revert p. induction hs as [|h hs IH]; intros p Hp; cbn in Hp; [lia|].
  destruct p as [|p]; cbn.
  - rewrite <- app_assoc. cbn. symmetry. apply Permutation_middle.
  - rewrite IH by lia. symmetry. apply Permutation_middle.
Qed.

Lemma concat_insert_remove {A : Type} (c : A) (p : nat) (h h' : list A)
    (hs : list (list A)) :
  hs !! p = Some h -> h ≡ₚ c :: h' ->
  c :: concat (<[ p := h' ]> hs) ≡ₚ concat hs.
Proof.
  revert p. induction hs as [|x hs IH]; intros p Hp Hh; [discriminate|].
  destruct p as [|p]; cbn in *.
  - injection Hp as ->. rewrite Hh. reflexivity.
  - rewrite <- (IH p Hp Hh). apply Permutation_middle.
Qed.

Lemma deal_one_perm (acc : list Card * list (list Card)) (p : nat) :
  (p < length (snd acc))%nat ->
  fst (deal_one acc p) ++ concat (snd (deal_one acc p))
    ≡ₚ fst acc ++ concat (snd acc)
  /\ length (snd (deal_one acc p)) = length (snd acc).
Proof.
  intros Hp. unfold deal_one.
  destruct (pop (fst acc)) as [[c d]|] eqn:Hpop; [|split; reflexivity].
  cbn [fst snd]. split; [|apply length_alter].
  rewrite concat_alter_append by exact Hp.
  rewrite (pop_perm _ _ _ Hpop). cbn. symmetry. apply Permutation_middle.
Qed.

Lemma deal_seats_perm (ps : list nat) (acc : list Card * list (list Card)) :
  Forall (fun p => (p < length (snd acc))%nat) ps ->
  fst (fold_left deal_one ps acc) ++ concat (snd (fold_left deal_one ps acc))
    ≡ₚ fst acc ++ concat (snd acc)
  /\ length (snd (fold_left deal_one ps acc)) = length (snd acc).
Proof.
  revert acc. induction ps as [|p ps IH]; intros acc Hps; cbn [fold_left].
  - split; reflexivity.
  - inversion Hps as [|? ? Hp Hrest]; subst.
    destruct (deal_one_perm acc p Hp) as [H1 H2].
    destruct (IH (deal_one acc p)) as [H3 H4].
    + rewrite H2. exact Hrest.
    + split; [now rewrite H3 | now rewrite H4].
Qed.

Lemma deal_rounds_perm (rounds : nat) (acc : list Card * list (list Card)) :
  length (snd acc) = NUM_PLAYERS ->
  fst (deal_rounds rounds acc) ++ concat (snd (deal_rounds rounds acc))
    ≡ₚ fst acc ++ concat (snd acc)
  /\ length (snd (deal_rounds rounds acc)) = NUM_PLAYERS.
Proof.
  unfold deal_rounds. generalize (seq 0 rounds) as rs.
  intros rs. revert acc. induction rs as [|r rs IH]; intros acc Hlen; cbn [fold_left].
  - split; [reflexivity | exact Hlen].
  - destruct (deal_seats_perm (seq 0 NUM_PLAYERS) acc) as [H1 H2].
    + rewrite Hlen. apply List.Forall_forall. intros p Hp.
      apply in_seq in Hp. lia.
    + destruct (IH (fold_left deal_one (seq 0 NUM_PLAYERS) acc)) as [H3 H4];
        [congruence|].
      split; [now rewrite H3 | exact H4].
Qed.

(** ** The round vector as a pile of cards *)

Lemma card_eqb_eq (a b : Card) : card_eqb a b = true -> a = b.
Proof. destruct a as [[] []], b as [[] []]; cbn; congruence. Qed.

Lemma card_eqb_refl (a : Card) : card_eqb a a = true.
Proof. destruct a as [[] []]; reflexivity. Qed.

Lemma vector_index_inj (a b : Card) : vector_index a = vector_index b -> a = b.
Proof.
  intros H. pose proof (from_vector_idx_vector_index a) as Ha.
  rewrite H, from_vector_idx_vector_index in Ha. congruence.
Qed.

Lemma create_deck_NoDup : NoDup _create_deck.
Proof.
  apply (NoDup_fmap_1 vector_index).
  apply (bool_decide_unpack _). vm_compute. exact I.
Qed.

Lemma create_deck_complete (c : Card) : In c _create_deck.
Proof. destruct c as [[] []]; vm_compute; tauto. Qed.

Lemma create_deck_length : length _create_deck = 60%nat.
Proof. reflexivity. Qed.

Lemma flat_map_agree {A B : Type} (f g : A -> list B) (l : list A) :
  (forall x, In x l -> f x = g x) -> flat_map f l = flat_map g l.
Proof.
  induction l as [|x l IH]; intros H; cbn; [reflexivity|].
  rewrite (H x) by now left. rewrite IH; [reflexivity|].
  intros y Hy. apply H. now right.
Qed.

Lemma flat_map_one_more {A B : Type} (f g : A -> list B) (a : A) (b : B)
    (l : list A) :
  List.NoDup l -> In a l ->
  (forall x, In x l -> x <> a -> f x = g x) ->
  f a ≡ₚ b :: g a ->
  flat_map f l ≡ₚ b :: flat_map g l.
Proof.
  induction l as [|x l IH]; intros Hnd Hin Hother Ha; [destruct Hin|].
  inversion Hnd as [|? ? Hx Hnd']; subst. cbn [flat_map].
  destruct Hin as [-> | Hin].
  - rewrite Ha. cbn. apply perm_skip. apply Permutation_app_head.
    assert (E : flat_map f l = flat_map g l).
    { apply flat_map_agree. intros y Hy. apply Hother; [now right|].
      intros ->. contradiction. }
    now rewrite E.
  - rewrite (Hother x) by (try (now left); intros ->; contradiction).
    rewrite IH; auto.
    + symmetry. apply Permutation_middle.
    + intros y Hy. apply Hother. now right.
Qed.

Lemma slot_below_60 (c : Card) : (Z.to_nat (vector_index c) < 60)%nat.
Proof. pose proof (vector_index_range c) as H. unfold DECK_SIZE in H. lia. Qed.

Lemma slot_inj (a b : Card) :
  Z.to_nat (vector_index a) = Z.to_nat (vector_index b) -> a = b.
Proof.
  intros H. apply vector_index_inj.
  pose proof (vector_index_range a). pose proof (vector_index_range b). lia.
Qed.

Lemma to_vector_length (c : Card) : length (to_vector c DECK_SIZE) = 60%nat.
Proof. unfold to_vector, zeros. now rewrite length_insert, length_replicate. Qed.

Lemma item_to_vector (c : Card) (k : nat) :
  (k < 60)%nat ->
  item (to_vector c DECK_SIZE) k
  = if (k =? Z.to_nat (vector_index c))%nat then 1 else 0.
Proof.
  intros Hk. unfold item, to_vector, zeros.
  destruct (Nat.eqb_spec k (Z.to_nat (vector_index c))) as [->|Hne].
  - rewrite list_lookup_insert_eq; [reflexivity|].
    rewrite length_replicate. apply slot_below_60.
  - rewrite list_lookup_insert_ne by congruence.
    rewrite lookup_replicate_2; [reflexivity | exact Hk].
Qed.

Lemma item_vec_add (u v : list Z) (k : nat) :
  (k < length u)%nat -> (k < length v)%nat ->
  item (vec_add u v) k = item u k + item v k.
Proof.
  intros Hu Hv. unfold item, vec_add. rewrite lookup_zip_with.
  destruct (lookup_lt_is_Some_2 u k Hu) as [x ->].
  destruct (lookup_lt_is_Some_2 v k Hv) as [y ->]. reflexivity.
Qed.

Lemma vec_add_to_vector_length (v : list Z) (c : Card) :
  length v = 60%nat -> length (vec_add v (to_vector c DECK_SIZE)) = 60%nat.
Proof.
  intros H. unfold vec_add. rewrite length_zip_with, to_vector_length. lia.
Qed.

Lemma to_vector_nonneg (c : Card) :
  Forall (fun x => 0 <= x) (to_vector c DECK_SIZE).
Proof.
  unfold to_vector. apply Forall_insert; [|lia].
  apply Forall_replicate. lia.
Qed.

Lemma vec_add_to_vector_nonneg (v : list Z) (c : Card) :
  Forall (fun x => 0 <= x) v ->
  Forall (fun x => 0 <= x) (vec_add v (to_vector c DECK_SIZE)).
Proof.
  intros H. unfold vec_add.
  apply (Forall_zip_with_fst _ (fun x => 0 <= x)); [exact H|].
  eapply Forall_impl; [apply to_vector_nonneg|]. cbn. intros; lia.
Qed.

Lemma item_nonneg (v : list Z) (k : nat) :
  Forall (fun x => 0 <= x) v -> 0 <= item v k.
Proof.
  intros H. unfold item. destruct (v !! k) as [x|] eqn:Hk; cbn; [|lia].
  rewrite Forall_forall in H. apply H. eapply list_elem_of_lookup_2. exact Hk.
Qed.

(** Adding the one-hot vector of a card to the round vector puts that
    card, and no other, on the pile. *)
Lemma cards_of_vector_played (v : list Z) (c : Card) :
  length v = 60%nat -> Forall (fun x => 0 <= x) v ->
  cards_of_vector (vec_add v (to_vector c DECK_SIZE)) ≡ₚ c :: cards_of_vector v.
Proof.
  intros Hlen Hpos. unfold cards_of_vector.
  apply (flat_map_one_more _ _ c).
  - apply NoDup_ListNoDup, create_deck_NoDup.
  - apply create_deck_complete.
  - intros x _ Hx. f_equal. f_equal.
    rewrite item_vec_add, item_to_vector;
      rewrite ?to_vector_length, ?Hlen; try apply slot_below_60.
    destruct (Nat.eqb_spec (Z.to_nat (vector_index x)) (Z.to_nat (vector_index c)))
      as [E|_]; [|lia].
    apply slot_inj in E. contradiction.
  - rewrite item_vec_add, item_to_vector;
      rewrite ?to_vector_length, ?Hlen; try apply slot_below_60.
    rewrite Nat.eqb_refl.
    pose proof (item_nonneg v (Z.to_nat (vector_index c)) Hpos).
    rewrite Z2Nat.inj_add by lia. rewrite Nat.add_1_r. reflexivity.
Qed.

Lemma cards_of_vector_clear (v : list Z) :
  Forall (fun x => x = 0) v -> cards_of_vector v = [].
Proof.
  intros H. unfold cards_of_vector.
  induction _create_deck as [|c l IH]; cbn; [reflexivity|].
  rewrite IH, app_nil_r.
  assert (E : item v (Z.to_nat (vector_index c)) = 0).
  { unfold item. destruct (v !! _) as [x|] eqn:Hk; [|reflexivity].
    rewrite Forall_forall in H. apply H. eapply list_elem_of_lookup_2. exact Hk. }
  now rewrite E.
Qed.

Lemma fill0_clear (v : list Z) : Forall (fun x => x = 0) (fill0 v).
Proof. unfold fill0. apply Forall_forall. intros x Hx.
  apply list_elem_of_In, in_map_iff in Hx. destruct Hx as [? [? _]]; congruence. Qed.

Lemma fill0_length (v : list Z) : length (fill0 v) = length v.
Proof. apply length_map. Qed.

Lemma zeros_clear (n : Z) : Forall (fun x => x = 0) (zeros n).
Proof. apply Forall_replicate. reflexivity. Qed.

Lemma clear_nonneg (v : list Z) :
  Forall (fun x => x = 0) v -> Forall (fun x => 0 <= x) v.
Proof. intros H. eapply Forall_impl; [exact H|]. cbn. intros; lia. Qed.

(** ** The partition is kept by every operation *)


Lemma deck_partition_piles (e e' : Env) :
  piles e' = piles e -> deck_partition e -> deck_partition e'.
Proof.
  unfold piles, deck_partition, all_cards. intros [= -> -> -> ->]. tauto.
Qed.

Section Preserves.

Context {P : Env -> Prop}.

Lemma preserves_ret {A : Type} (a : A) : preserves P (ret a).
Proof. intros e H. exact H. Qed.

Lemma preserves_raise {A : Type} (x : exn) : preserves P (@raise A x).
Proof. intros e H. exact H. Qed.

Lemma preserves_bind {A B : Type} (m : M A) (k : A -> M B) :
  preserves P m -> (forall a, preserves P (k a)) -> preserves P (bind m k).
Proof.
  intros Hm Hk e H. unfold bind. specialize (Hm e H).
  destruct (m e) as [[a|x] e']; cbn in *; [now apply Hk | exact Hm].
Qed.

Lemma preserves_get {B : Type} (k : Env -> M B) :
  (forall e0, P e0 -> preserves P (k e0)) -> preserves P (bind get k).
Proof. intros Hk e H. unfold bind, get. now apply Hk. Qed.

Lemma preserves_modify (f : Env -> Env) :
  (forall e, P e -> P (f e)) -> preserves P (modify f).
Proof. intros Hf e H. now apply Hf. Qed.

Lemma preserves_for_each {A : Type} (xs : list A) (body : A -> M unit) :
  (forall x, preserves P (body x)) -> preserves P (for_each xs body).
Proof.
  intros Hb. induction xs as [|x xs IH]; cbn [for_each].
  - apply preserves_ret.
  - apply preserves_bind; [apply Hb | intros _; exact IH].
Qed.

Lemma preserves_simulate_until (fuel : nat) (target : Env -> nat) (p : nat) :
  (forall q, preserves P (_simulate_play q)) ->
  preserves P (simulate_until fuel target p).
Proof.
  intros Hs. revert p. induction fuel as [|fuel IH]; intros p; cbn [simulate_until].
  - apply preserves_get. intros e0 _.
    destruct (p =? target e0)%nat; [apply preserves_ret | apply preserves_raise].
  - apply preserves_get. intros e0 _.
    destruct (p =? target e0)%nat; [apply preserves_ret|].
    apply preserves_bind; [apply Hs | intros _; apply IH].
Qed.

End Preserves.


Lemma keeps_piles_partition {A : Type} (m : M A) :
  keeps_piles m -> preserves deck_partition m.
Proof.
  intros H e He. apply (deck_partition_piles e); [|exact He].
  now apply (H (piles e) e).
Qed.

Lemma choice_keeps_piles {A : Type} (a : list A) : keeps_piles (choice a).
Proof.
  intros x e H. unfold choice.
  destruct (randbelow (length a) (np_random e)) as [i g].
  destruct (a !! i); exact H.
Qed.

Lemma set_bid_keeps_piles (i : nat) (bid : Z) : keeps_piles (set_bid i bid).
Proof. intros x e H. exact H. Qed.

Lemma simulate_bid_keeps_piles (i : nat) : keeps_piles (simulate_bid i).
Proof.
  intros x. unfold simulate_bid. apply preserves_get. intros e0 _.
  apply preserves_bind; [apply choice_keeps_piles|].
  intros bid. apply set_bid_keeps_piles.
Qed.

Lemma process_bid_keeps_piles (bid : Z) : keeps_piles (_process_bid bid).
Proof.
  intros x e H. unfold _process_bid.
  destruct (negb _); exact H.
Qed.

Lemma update_valid_actions_keeps_piles : keeps_piles _update_valid_actions.
Proof.
  intros x e H. unfold _update_valid_actions.
  destruct (s_phase (state e) =? 0); [destruct (forallb _ _)|]; exact H.
Qed.

Lemma finish_trick_keeps_piles : keeps_piles _finish_trick.
Proof.
  intros x. unfold _finish_trick.
  apply preserves_bind.
  { intros e H. exact H. }
  intros winner. apply preserves_get. intros e0 _.
  apply preserves_bind; [apply preserves_modify; intros e H; exact H|].
  intros _. apply preserves_bind; [apply update_valid_actions_keeps_piles|].
  intros _. apply preserves_ret.
Qed.

Lemma remove_card_perm (card : Card) (l l' : list Card) :
  remove_card card l = Some l' -> l ≡ₚ card :: l'.
Proof.
  revert l'. induction l as [|c l IH]; intros l'; cbn; [discriminate|].
  destruct (card_eqb c card) eqn:Hc.
  - intros [= ->]. apply card_eqb_eq in Hc. now subst.
  - destruct (remove_card card l) as [r|]; [|discriminate].
    intros [= <-]. rewrite (IH r eq_refl). apply perm_swap.
Qed.

Lemma hand_of_lookup (e : Env) (p : nat) :
  hand_of e p <> [] -> hands e !! p = Some (hand_of e p).
Proof. unfold hand_of. destruct (hands e !! p); cbn; congruence. Qed.

(** A card that leaves a hand for the round pile keeps the partition. *)
Lemma partition_move (e e' : Env) (card : Card) :
  deck_partition e ->
  deck_rest e' = deck_rest e ->
  trump_card e' = trump_card e ->
  card :: concat (hands e') ≡ₚ concat (hands e) ->
  s_cards_played_in_round (state e')
  = vec_add (s_cards_played_in_round (state e)) (to_vector card DECK_SIZE) ->
  deck_partition e'.
Proof.
  intros (Hlen & Hpos & Hperm) Hd Ht Hh Hv.
  unfold deck_partition, all_cards. rewrite Hd, Ht, Hv.
  split; [now apply vec_add_to_vector_length|].
  split; [now apply vec_add_to_vector_nonneg|].
  rewrite <- Hperm. unfold all_cards. apply Permutation_app_head.
  rewrite cards_of_vector_played by assumption.
  rewrite <- Hh. cbn.
  rewrite <- !Permutation_middle. reflexivity.
Qed.

Lemma simulate_play_partition (p : nat) :
  preserves deck_partition (_simulate_play p).
Proof.
  intros e He. unfold _simulate_play, bind, get.
  destruct (List.filter _ (hand_of e p)) as [|v0 vs] eqn:Hvalid; [exact He|].
  unfold choice.
  destruct (randbelow _ (np_random e)) as [i g].
  destruct ((v0 :: vs) !! i) as [card|]; [|exact He].
  change (hand_of (set_np_random g e) p) with (hand_of e p).
  destruct (remove_card card (hand_of e p)) as [hand'|] eqn:Hrm.
  - cbn [snd]. apply (partition_move e _ card He); try reflexivity.
    cbn. apply remove_card_perm in Hrm.
    apply (concat_insert_remove card p (hand_of e p)); [|exact Hrm].
    apply hand_of_lookup. intros E. rewrite E in Hrm.
    apply Permutation_nil_cons in Hrm. exact Hrm.
  - cbn [snd]. apply (deck_partition_piles e); [reflexivity | exact He].
Qed.

Lemma process_play_partition (action : Z) :
  preserves deck_partition (_process_play action).
Proof.
  intros e He. unfold _process_play.
  destruct (negb (s_phase (state e) =? 1)); [exact He|].
  destruct (_vector_idx_to_hand_idx e action) as [[idx|]|x]; try exact He.
  destruct (hand_of e 0 !! idx) as [card|] eqn:Hidx; [|exact He].
  cbn [snd]. apply (partition_move e _ card He); try reflexivity.
  - cbn. apply (concat_insert_remove card 0 (hand_of e 0)).
    + apply hand_of_lookup. intros E. rewrite E in Hidx. discriminate.
    + now apply delete_Permutation.
  - cbn. destruct (length (cards_played_in_trick e ++ [card]) =? 1)%nat; reflexivity.
Qed.

(** The dealer always returns; what it leaves is a partition of a fresh
    deck into rest, hands and trump card. The round vector and the rest
    of the state, the generator of the environment and the seats are not
    touched. *)
Lemma deal_cards_spec (e : Env) :
  exists e',
    _deal_cards e = (Ok tt, e')
    /\ deck_rest e' ++ concat (hands e') ++ option_list (trump_card e')
         ≡ₚ _create_deck
    /\ length (hands e') = NUM_PLAYERS
    /\ s_cards_played_in_round (state e') = s_cards_played_in_round (state e)
    /\ s_round_number (state e') = s_round_number (state e)
    /\ s_phase (state e') = s_phase (state e)
    /\ s_player_bids (state e') = s_player_bids (state e)
    /\ s_lead_suit (state e') = s_lead_suit (state e)
    /\ round_starter e' = round_starter e
    /\ trick_leader e' = trick_leader e
    /\ cards_played_in_trick e' = cards_played_in_trick e
    /\ np_random e' = np_random e.
Proof.
  unfold _deal_cards.
  pose proof (shuffle_perm _create_deck (py_random e)) as Hs.
  destruct (shuffle _create_deck (py_random e)) as [deck g].
  pose proof (deal_rounds_perm (Z.to_nat (s_round_number (state e)))
                (deck, replicate NUM_PLAYERS [])) as Hd.
  destruct (deal_rounds _ _) as [deck1 hs].
  destruct Hd as [Hd Hl]; [apply length_replicate|].
  cbn [fst snd] in Hs, Hd, Hl.
  assert (Hnil : concat (replicate NUM_PLAYERS (@nil Card)) = []) by reflexivity.
  rewrite Hnil, app_nil_r in Hd.
  destruct (pop deck1) as [[c d]|] eqn:Hp.
  - eexists. split; [reflexivity|]. cbn.
    repeat split; try reflexivity; try exact Hl.
    rewrite <- Hs, <- Hd, (pop_perm _ _ _ Hp).
    change (option_list (Some c)) with [c].
    rewrite (Permutation_app_comm (concat hs) [c]). cbn [app].
    rewrite <- Permutation_middle. reflexivity.
  - eexists. split; [reflexivity|]. cbn.
    repeat split; try reflexivity; try exact Hl.
    now rewrite app_nil_r, <- Hs, <- Hd.
Qed.

Lemma deal_cards_partition (e : Env) :
  length (s_cards_played_in_round (state e)) = 60%nat ->
  Forall (fun x => x = 0) (s_cards_played_in_round (state e)) ->
  deck_partition (snd (_deal_cards e)).
Proof.
  intros Hlen Hz.
  destruct (deal_cards_spec e) as (e' & -> & Hperm & _ & Hv & _).
  cbn [snd]. unfold deck_partition, all_cards. rewrite Hv.
  split; [exact Hlen|]. split; [now apply clear_nonneg|].
  rewrite (cards_of_vector_clear _ Hz), app_nil_r. exact Hperm.
Qed.

Lemma score_seats_round_vector (ps : list nat) (s : State) :
  s_cards_played_in_round (fold_left score_seat ps s) = s_cards_played_in_round s.
Proof.
  revert s. induction ps as [|p ps IH]; intros s; cbn [fold_left]; [reflexivity|].
  now rewrite IH.
Qed.

Lemma finish_round_partition : preserves deck_partition _finish_round.
Proof.
  intros e (Hlen & _ & _). unfold _finish_round, bind, get, modify.
  match goal with |- context [_deal_cards ?x] => set (e1 := x) end.
  assert (H1 : deck_partition (snd (_deal_cards e1))).
  { assert (Hv : s_cards_played_in_round (state e1)
                 = fill0 (s_cards_played_in_round
                            (fold_left score_seat (seq 0 NUM_PLAYERS) (state e))))
      by reflexivity.
    apply deal_cards_partition; rewrite Hv.
    - now rewrite fill0_length, score_seats_round_vector.
    - apply fill0_clear. }
  destruct (deal_cards_spec e1) as (e2 & E & _). rewrite E in H1 |- *.
  cbn [snd] in H1.
  pose proof (keeps_piles_partition _ update_valid_actions_keeps_piles e2 H1) as H2.
  destruct (_update_valid_actions e2) as [[[]|x] e3]; exact H2.
Qed.

Lemma reset_partition (seed : option rng) (e : Env) :
  deck_partition (snd (reset seed e)).
Proof.
  unfold reset, bind, modify.
  match goal with |- context [_deal_cards ?x] => set (e1 := x) end.
  assert (H1 : deck_partition (snd (_deal_cards e1))).
  { apply deal_cards_partition; subst e1; cbn; [reflexivity | apply zeros_clear]. }
  destruct (deal_cards_spec e1) as (e2 & E & _). rewrite E in H1 |- *.
  cbn [snd] in H1.
  pose proof (keeps_piles_partition _ update_valid_actions_keeps_piles e2 H1) as H2.
  destruct (_update_valid_actions e2) as [[[]|x] e3]; exact H2.
Qed.

Lemma play_until_agent_turn_partition :
  preserves deck_partition _play_until_agent_turn.
Proof.
  unfold _play_until_agent_turn. apply preserves_get. intros e0 _.
  destruct (s_phase (state e0) =? 0).
  - apply preserves_bind.
    + destruct (negb _); [|apply preserves_ret].
      apply preserves_for_each. intros i. apply preserves_get. intros e1 _.
      apply preserves_bind;
        [apply keeps_piles_partition, choice_keeps_piles|].
      intros bid. apply keeps_piles_partition, set_bid_keeps_piles.
    + intros _. apply keeps_piles_partition, update_valid_actions_keeps_piles.
  - apply preserves_simulate_until. apply simulate_play_partition.
Qed.

Lemma step_partition (action : Z) : preserves deck_partition (step action).
Proof.
  unfold step. apply preserves_get. intros e0 _.
  destruct (s_phase (state e0) =? 0).
  - apply preserves_bind;
      [apply keeps_piles_partition, process_bid_keeps_piles|]. intros _.
    apply preserves_bind.
    { apply preserves_for_each. intros i.
      apply keeps_piles_partition, simulate_bid_keeps_piles. }
    intros _. apply preserves_bind.
    { apply preserves_modify. intros e H.
      apply (deck_partition_piles e); [reflexivity | exact H]. }
    intros _. apply preserves_bind;
      [apply keeps_piles_partition, update_valid_actions_keeps_piles|].
    intros _. apply preserves_bind; [apply play_until_agent_turn_partition|].
    intros _. apply preserves_ret.
  - apply preserves_bind; [apply process_play_partition|]. intros _.
    apply preserves_bind;
      [apply preserves_simulate_until, simulate_play_partition|]. intros _.
    apply preserves_bind;
      [apply keeps_piles_partition, finish_trick_keeps_piles|]. intros reward.
    apply preserves_get. intros e1 _.
    destruct (forallb _ (hands e1)).
    + apply preserves_bind; [apply finish_round_partition|]. intros r.
      apply preserves_get. intros e2 _.
      destruct (s_round_number (state e2) >? MAX_ROUND); [apply preserves_ret|].
      apply preserves_bind; [apply play_until_agent_turn_partition|].
      intros _. apply preserves_ret.
    + apply preserves_bind; [apply play_until_agent_turn_partition|].
      intros _. apply preserves_ret.
Qed.

Lemma reachable_partition (e : Env) : reachable e -> deck_partition e.
Proof.
  induction 1 as [np0 py0 | e seed _ _ | e action _ IH].
  - apply reset_partition.
  - apply reset_partition.
  - now apply step_partition.
Qed.

(** C5. In every reachable state the undealt rest of the deck, the
    hands, the trump card if one was drawn and the cards played in the
    current round are together a rearrangement of the 60 cards of the
    deck, so no card is missing and none occurs twice; and every
    operation keeps this: the dealer establishes it on a cleared round
    vector, the bid and play resolvers, a simulated play, the resolution
    of a trick, the close of a round, [reset] and [step] preserve it. *)
Theorem deck_partition_invariant :
  (forall e : Env, reachable e ->
     all_cards e ≡ₚ _create_deck
     /\ NoDup (all_cards e)
     /\ length (all_cards e) = 60%nat
     /\ forall c : Card, c ∈ all_cards e)
  /\ (forall e : Env,
        length (s_cards_played_in_round (state e)) = 60%nat ->
        Forall (fun x => x = 0) (s_cards_played_in_round (state e)) ->
        deck_partition (snd (_deal_cards e)))
  /\ (forall bid : Z, preserves deck_partition (_process_bid bid))
  /\ (forall action : Z, preserves deck_partition (_process_play action))
  /\ (forall player_idx : nat, preserves deck_partition (_simulate_play player_idx))
  /\ preserves deck_partition _finish_trick
  /\ preserves deck_partition _finish_round
  /\ preserves deck_partition _play_until_agent_turn
  /\ (forall (seed : option rng) (e : Env), deck_partition (snd (reset seed e)))
  /\ (forall action : Z, preserves deck_partition (step action)).
Proof.
  split.
  { intros e He. destruct (reachable_partition e He) as (_ & _ & Hp).
    split; [exact Hp|]. split; [|split].
    - rewrite Hp. apply create_deck_NoDup.
    - rewrite Hp. reflexivity.
    - intros c. rewrite Hp. apply list_elem_of_In, create_deck_complete. }
  split; [exact deal_cards_partition|].
  split; [intros bid; apply keeps_piles_partition, process_bid_keeps_piles|].
  split; [exact process_play_partition|].
  split; [exact simulate_play_partition|].
  split; [apply keeps_piles_partition, finish_trick_keeps_piles|].
  split; [exact finish_round_partition|].
  split; [exact play_until_agent_turn_partition|].
  split; [exact reset_partition | exact step_partition].
Qed.

(** ** Calls that return *)

Lemma returns_ret {A : Type} (P : Env -> Prop) (a : A) :
  returns P (ret a) (fun b e' => b = a /\ P e').
Proof. intros e H. exists a, e. auto. Qed.

Lemma returns_bind {A B : Type} (P : Env -> Prop) (Q : A -> Env -> Prop)
    (R : B -> Env -> Prop) (m : M A) (k : A -> M B) :
  returns P m Q -> (forall a, returns (Q a) (k a) R) -> returns P (bind m k) R.
Proof.
  intros Hm Hk e H. destruct (Hm e H) as (a & e1 & E1 & H1).
  destruct (Hk a e1 H1) as (b & e2 & E2 & H2).
  exists b, e2. unfold bind. rewrite E1. auto.
Qed.



Lemma returns_for_each {A : Type} (P : Env -> Prop) (xs : list A)
    (body : A -> M unit) :
  (forall x, returns P (body x) (fun _ => P)) ->
  returns P (for_each xs body) (fun _ => P).
Proof.
  intros Hb. induction xs as [|y ys IH]; cbn [for_each].
  - intros e H. exists tt, e. auto.
  - apply (returns_bind _ (fun _ => P)); [apply Hb | intros _; exact IH].
Qed.


Lemma randbelow_lt (n : nat) (g : rng) : (0 < n)%nat -> (fst (randbelow n g) < n)%nat.
Proof.
  intros Hn. destruct g as [|r g]; cbn; [exact Hn|].
  apply Nat.mod_upper_bound. lia.
Qed.

Lemma choice_returns {A : Type} (a : list A) (e : Env) :
  a <> [] ->
  exists x g, choice a e = (Ok x, set_np_random g e) /\ In x a.
Proof.
  intros Ha. unfold choice.
  pose proof (randbelow_lt (length a) (np_random e)) as Hlt.
  destruct (randbelow (length a) (np_random e)) as [i g]. cbn in Hlt.
  destruct (lookup_lt_is_Some_2 a i) as [x Hx].
  { apply Hlt. destruct a; [contradiction | cbn; lia]. }
  rewrite Hx. exists x, g. split; [reflexivity|].
  apply list_elem_of_In. eapply list_elem_of_lookup_2. exact Hx.
Qed.

Lemma zrange_length (n : Z) : length (zrange n) = Z.to_nat n.
Proof. unfold zrange. now rewrite length_map, length_seq. Qed.

Lemma zrange_In (n b : Z) : In b (zrange n) <-> 0 <= b < n.
Proof.
  unfold zrange. rewrite in_map_iff. split.
  - intros (k & <- & Hk). apply in_seq in Hk. lia.
  - intros H. exists (Z.to_nat b). split; [lia|]. apply in_seq. lia.
Qed.

Lemma remove_bid_length (x : Z) (l : list Z) :
  (length l <= S (length (remove_bid x l)))%nat.
Proof.
  induction l as [|y l IH]; cbn; [lia|].
  destruct (y =? x); cbn; lia.
Qed.

Lemma simulate_bid_returns (n : Z) (ph : Z) (starter i : nat) :
  1 <= n ->
  returns (round_frame n ph starter) (simulate_bid i)
          (fun _ => round_frame n ph starter).
Proof.
  intros Hn e (Hr & Hp & Hs). unfold simulate_bid, bind, get.
  match goal with |- context [choice ?a] => set (bids := a) end.
  assert (Hne : bids <> []).
  { assert (Hl : (2 <= length (zrange (s_round_number (state e) + 1)))%nat)
      by (rewrite zrange_length; lia).
    subst bids. intros E.
    repeat match type of E with
           | (if ?c then _ else _) = _ => destruct c
           end;
      try (rewrite E in Hl; cbn in Hl; lia).
    pose proof (remove_bid_length
                  (s_round_number (state e) - zsum (s_player_bids (state e)))
                  (zrange (s_round_number (state e) + 1))) as Hrm.
    rewrite E in Hrm. cbn in Hrm. lia. }
  destruct (choice_returns bids e Hne) as (bid & g & -> & _).
  eexists tt, _. split; [reflexivity|]. repeat split; assumption.
Qed.

Lemma remove_card_In (card : Card) (l : list Card) :
  In card l -> exists l', remove_card card l = Some l'.
Proof.
  induction l as [|c l IH]; cbn; [tauto|].
  intros [-> | H].
  - rewrite card_eqb_refl. eauto.
  - destruct (card_eqb c card); [eauto|].
    destruct (IH H) as [l' ->]. cbn. eauto.
Qed.



(** ** The agent's bid *)

Lemma existsb_eqb_In (b : Z) (l : list Z) :
  existsb (Z.eqb b) l = true <-> In b l.
Proof.
  rewrite existsb_exists. split.
  - intros (x & Hx & E). apply Z.eqb_eq in E. now subst.
  - intros H. exists b. split; [exact H | apply Z.eqb_refl].
Qed.

Lemma process_bid_accepts (e : Env) (bid : Z) :
  In bid (_get_valid_bids e) ->
  _process_bid bid e
  = (Ok tt,
     set_state (fun s => put_player_bids (<[ 0%nat := bid ]> (s_player_bids s)) s) e).
Proof.
  intros H. unfold _process_bid.
  apply existsb_eqb_In in H. now rewrite H.
Qed.

Lemma process_bid_rejects (e : Env) (bid : Z) :
  ~ In bid (_get_valid_bids e) -> _process_bid bid e = (Raise ValueError, e).
Proof.
  intros H. unfold _process_bid.
  destruct (existsb (Z.eqb bid) (_get_valid_bids e)) eqn:E; [|reflexivity].
  apply existsb_eqb_In in E. contradiction.
Qed.




Lemma bidding_step_rejects (e : Env) (bid : Z) :
  s_phase (state e) = 0 -> ~ In bid (_get_valid_bids e) ->
  step bid e = (Raise ValueError, e).
Proof.
  intros Hp Hbid. unfold step. unfold bind at 1. unfold get. rewrite Hp.
  cbn [Z.eqb]. unfold bind at 1. now rewrite (process_bid_rejects e bid Hbid).
Qed.

(** ** The state in which [step] reports the end of the game *)







(** ** The agent's play *)

Lemma index_where_Some {A : Type} (p : A -> bool) (l : list A) (i : nat) :
  index_where p l = Some i -> exists c, l !! i = Some c /\ p c = true.
Proof.
  revert i. induction l as [|x l IH]; intros i; cbn; [discriminate|].
  destruct (p x) eqn:Hx.
  - intros [= <-]. eauto.
  - destruct (index_where p l) as [j|]; [|discriminate].
    intros [= <-]. apply (IH j eq_refl).
Qed.

Lemma index_where_None {A : Type} (p : A -> bool) (l : list A) :
  index_where p l = None -> forall c, In c l -> p c = false.
Proof.
  induction l as [|x l IH]; cbn; [tauto|].
  destruct (p x) eqn:Hx; [discriminate|].
  destruct (index_where p l); [discriminate|].
  intros _ c [<- | Hc]; [exact Hx | now apply IH].
Qed.

Lemma CardValue_of_raise (n : Z) (x : exn) :
  CardValue_of n = Raise x -> x = ValueError.
Proof.
  unfold CardValue_of. destruct n as [|p|p]; try congruence.
  do 4 (try destruct p as [p|p|]; try congruence).
Qed.

Lemma CardSuit_of_raise (n : Z) (x : exn) :
  CardSuit_of n = Raise x -> x = ValueError.
Proof.
  unfold CardSuit_of. destruct n as [|p|p]; try congruence.
  do 2 (try destruct p as [p|p|]; try congruence).
Qed.

Lemma from_vector_idx_raise (i : Z) (x : exn) :
  from_vector_idx i = Raise x -> x = ValueError.
Proof.
  unfold from_vector_idx.
  destruct (i <? 52).
  - destruct (CardValue_of _) eqn:Hv.
    + destruct (CardSuit_of _) eqn:Hs; [discriminate|].
      intros [= <-]. exact (CardSuit_of_raise _ _ Hs).
    + intros [= <-]. exact (CardValue_of_raise _ _ Hv).
  - destruct (i <? 56); destruct (CardSuit_of _) eqn:Hs; try discriminate;
      intros [= <-]; exact (CardSuit_of_raise _ _ Hs).
Qed.

Lemma process_play_cases (e : Env) (action : Z) :
  s_phase (state e) = 1 ->
  (holds_card e action /\ exists e', _process_play action e = (Ok tt, e'))
  \/ (~ holds_card e action /\ _process_play action e = (Raise ValueError, e)).
Proof.
  intros Hp. unfold _process_play, _vector_idx_to_hand_idx, holds_card.
  rewrite Hp. cbn [Z.eqb Pos.eqb negb].
  destruct (from_vector_idx action) as [target|x] eqn:Hdec.
  - destruct (index_where _ (hand_of e 0)) as [idx|] eqn:Hidx.
    + apply index_where_Some in Hidx. destruct Hidx as (c & Hc & Heq).
      rewrite Hc. left. split; [|eauto].
      exists target. split; [reflexivity|].
      apply card_eqb_eq in Heq. subst c.
      apply list_elem_of_In. eapply list_elem_of_lookup_2. exact Hc.
    + right. split; [|reflexivity].
      intros (c & [= <-] & Hin).
      pose proof (index_where_None _ _ Hidx target Hin) as Hf. cbn in Hf.
      change (card_eqb target target = false) in Hf.
      rewrite card_eqb_refl in Hf.
      discriminate.
  - right. split.
    + intros (c & Hc & _). discriminate.
    + now rewrite (from_vector_idx_raise _ _ Hdec).
Qed.

(** ** Runs of the agent are reachable *)

Lemma play_reachable (n : nat) (e : Env) :
  reachable e -> reachable (snd (play n e)).
Proof.
  intros He. induction n as [|n IH]; cbn [play]; [exact He|].
  destruct (play n e) as [[r|x] e'] eqn:E; cbn [snd] in IH |- *.
  - now apply reachable_step.
  - exact IH.
Qed.

Lemma env_after_reachable (n : nat) : reachable (env_after n).
Proof. apply play_reachable, reachable_init. Qed.

(** ** The trick examples of the specification *)

Example two_wizards_last_wins :
  evaluate_trick 2 None [mkCard WIZARD HEARTS; mkCard WIZARD SPADES] = Ok 3%nat.
Proof. reflexivity. Qed.

Example four_jesters_leader_wins :
  evaluate_trick 2 (Some (mkCard FIVE CLUBS))
    [mkCard JESTER HEARTS; mkCard JESTER DIAMONDS; mkCard JESTER CLUBS;
     mkCard JESTER SPADES] = Ok 2%nat.
Proof. reflexivity. Qed.

Example trump_beats_higher_lead :
  fst (_evaluate_trick example_trick_env) = Ok 3%nat.
Proof. reflexivity. Qed.

Lemma evaluate_trick_ordering_witness :
  cards_played_in_trick example_trick_env <> []
  /\ _evaluate_trick example_trick_env
     = (Ok (trick_winner_spec (trick_leader example_trick_env)
              (option_map suit (trump_card example_trick_env))
              (cards_played_in_trick example_trick_env)), example_trick_env).
Proof.
  split; [discriminate|].
  apply (evaluate_trick_ordering example_trick_env). discriminate.
Defined.

Lemma deck_partition_invariant_witness :
  reachable (snd (step 0 env0))
  /\ all_cards (snd (step 0 env0)) ≡ₚ _create_deck
  /\ NoDup (all_cards (snd (step 0 env0)))
  /\ length (all_cards (snd (step 0 env0))) = 60%nat
  /\ forall c : Card, c ∈ all_cards (snd (step 0 env0)).
Proof.
  split; [apply reachable_step, reachable_init|].
  apply (proj1 deck_partition_invariant (snd (step 0 env0))).
  apply reachable_step, reachable_init.
Defined.

(** ** Bids *)

(** What [_get_valid_bids] computes: the integers [0..round_number], less
    the value that would make the bids add up to the round number, and
    that only when exactly three entries of the bid vector are not zero. *)
Lemma get_valid_bids_spec (e : Env) (b : Z) :
  In b (_get_valid_bids e) ->
  0 <= b <= s_round_number (state e).
Proof.
  unfold _get_valid_bids.
  assert (H : forall x l, In b (remove_bid x l) -> In b l).
  { intros x l. induction l as [|y l IH]; cbn; [tauto|].
    destruct (y =? x); cbn; tauto. }
  intros Hin.
  assert (Hr : In b (zrange (s_round_number (state e) + 1))).
  { repeat match type of Hin with
           | In _ (if ?c then _ else _) => destruct c
           end; auto. eapply H; eauto. }
  apply zrange_In in Hr. lia.
Qed.

Lemma get_valid_bids_no_hook (e : Env) :
  count_nonzero (s_player_bids (state e)) <> 3%nat ->
  _get_valid_bids e = zrange (s_round_number (state e) + 1).
Proof.
  intros H. unfold _get_valid_bids.
  destruct (Nat.eqb_spec (count_nonzero (s_player_bids (state e)))
              (NUM_PLAYERS - 1)) as [E|_]; [contradiction | reflexivity].
Qed.

Lemma remove_bid_In_length (x : Z) (l : list Z) :
  In x l -> S (length (remove_bid x l)) = length l.
Proof.
  induction l as [|y l IH]; cbn; [tauto|].
  destruct (Z.eqb_spec y x) as [->|Hne]; [reflexivity|].
  intros [E | H]; [contradiction | cbn; now rewrite IH].
Qed.

(** With exactly three entries of the bid vector not zero and the
    forbidden value within [0..round_number], one value is removed. *)
Lemma get_valid_bids_hook (e : Env) :
  count_nonzero (s_player_bids (state e)) = 3%nat ->
  0 <= s_round_number (state e) - zsum (s_player_bids (state e))
    <= s_round_number (state e) ->
  _get_valid_bids e
  = remove_bid (s_round_number (state e) - zsum (s_player_bids (state e)))
      (zrange (s_round_number (state e) + 1))
  /\ Z.of_nat (length (_get_valid_bids e)) = s_round_number (state e).
Proof.
  intros Hc Hf. unfold _get_valid_bids. rewrite Hc. cbn [Nat.eqb NUM_PLAYERS Nat.sub].
  destruct (Z.leb_spec 0 (s_round_number (state e) - zsum (s_player_bids (state e))));
    [|lia].
  destruct (Z.leb_spec (s_round_number (state e) - zsum (s_player_bids (state e)))
              (s_round_number (state e))); [|lia].
  cbn [andb]. split; [reflexivity|].
  pose proof (remove_bid_In_length
                (s_round_number (state e) - zsum (s_player_bids (state e)))
                (zrange (s_round_number (state e) + 1))) as Hl.
  rewrite zrange_length in Hl. rewrite zrange_In in Hl. lia.
Qed.

(** C2 (evaluation of the code). Round 2 of a game: seats 1, 2 and 3 have
    bid 0, 1 and 1 and the agent, seat 0, is the last to bid. The bids of
    the others add up to the round number, so the hook rule excludes the
    bid 0; [_get_valid_bids] counts the bid 0 of seat 1 as no bid, finds
    two bids instead of three and returns all of [0; 1; 2]. [step] then
    accepts the bid 0, and the bids of the round add up to the number of
    tricks. *)
Theorem zero_bid_hides_last_bidder :
  reachable (env_after 2)
  /\ s_phase (state (env_after 2)) = 0
  /\ s_round_number (state (env_after 2)) = 2
  /\ round_starter (env_after 2) = 1%nat
  /\ s_player_bids (state (env_after 2)) = [0; 0; 1; 1]
  /\ s_round_number (state (env_after 2))
     - zsum (s_player_bids (state (env_after 2))) = 0
  /\ _get_valid_bids (env_after 2) = [0; 1; 2]
  /\ fst (step 0 (env_after 2)) = Ok (0%Q, false)
  /\ zsum (s_player_bids (state (snd (step 0 (env_after 2))))) = 2.
Proof.
  split; [apply env_after_reachable|].
  repeat split; vm_compute; reflexivity.
Qed.

(** C6 (evaluation of the code). Round 3 of a game, started by seat 2:
    seats 2 and 3 have bid 1 and 1, the agent bids 0, and seat 1 bids
    last. The hook rule forbids it the bid [3 - (0 + 1 + 1) = 1]; the
    loop of [step] applies the rule to seat 3 only, seat 1 draws from
    all of [0..3] and bids 1, and the bids add up to the round number. *)
Theorem last_opponent_bid_ignores_hook :
  reachable (env_after 5)
  /\ s_phase (state (env_after 5)) = 0
  /\ s_round_number (state (env_after 5)) = 3
  /\ round_starter (env_after 5) = 2%nat
  /\ s_player_bids (state (env_after 5)) = [0; 0; 1; 1]
  /\ fst (step 0 (env_after 5)) = Ok (0%Q, false)
  /\ s_player_bids (state (snd (step 0 (env_after 5)))) = [0; 1; 1; 1]
  /\ zsum (s_player_bids (state (snd (step 0 (env_after 5)))))
     = s_round_number (state (snd (step 0 (env_after 5)))).
Proof.
  split; [apply env_after_reachable|].
  repeat split; vm_compute; reflexivity.
Qed.

(** ** Seeds *)

(** C3 (evaluation of the code). Two games made one after the other with
    the same seed and no action at all: the observations that their
    [reset(seed=...)] return differ, already in the hand dealt to the
    agent. [reset] hands the seed to the generator of the environment,
    and [_deal_cards] shuffles with the module-level generator. *)
Theorem same_seed_different_deal :
  fst (two_games np_tape py_tape [5%nat] [])
  <> snd (two_games np_tape py_tape [5%nat] [])
  /\ map (fun s => cards_of_vector (s_hand s))
         (fst (two_games np_tape py_tape [5%nat] []))
     = [[mkCard TEN SPADES]]
  /\ map (fun s => cards_of_vector (s_hand s))
         (snd (two_games np_tape py_tape [5%nat] []))
     = [[mkCard THREE CLUBS]].
Proof.
  assert (H1 : map (fun s => cards_of_vector (s_hand s))
                 (fst (two_games np_tape py_tape [5%nat] []))
               = [[mkCard TEN SPADES]]) by (vm_compute; reflexivity).
  assert (H2 : map (fun s => cards_of_vector (s_hand s))
                 (snd (two_games np_tape py_tape [5%nat] []))
               = [[mkCard THREE CLUBS]]) by (vm_compute; reflexivity).
  split; [|split; assumption].
  intros E. rewrite E in H1. rewrite H1 in H2. clear E H1.
  discriminate H2.
Qed.

(** What the dealer deals depends on the round number and on the
    module-level generator, and on nothing else. *)
Lemma deal_cards_depends (e e' : Env) :
  py_random e = py_random e' ->
  s_round_number (state e) = s_round_number (state e') ->
  hands (snd (_deal_cards e)) = hands (snd (_deal_cards e'))
  /\ trump_card (snd (_deal_cards e)) = trump_card (snd (_deal_cards e'))
  /\ s_hand (state (snd (_deal_cards e))) = s_hand (state (snd (_deal_cards e'))).
Proof.
  intros H1 H2. unfold _deal_cards. rewrite H1, H2.
  destruct (shuffle _create_deck (py_random e')) as [deck g].
  destruct (deal_rounds _ _) as [deck1 hs].
  destruct (pop deck1) as [[c d]|]; cbn; auto.
Qed.

Lemma update_valid_actions_deal (e : Env) :
  hands (snd (_update_valid_actions e)) = hands e
  /\ trump_card (snd (_update_valid_actions e)) = trump_card e
  /\ s_hand (state (snd (_update_valid_actions e))) = s_hand (state e)
  /\ np_random (snd (_update_valid_actions e)) = np_random e.
Proof.
  unfold _update_valid_actions.
  destruct (s_phase (state e) =? 0); [destruct (forallb _ _)|];
    repeat split; reflexivity.
Qed.

(** The seed reaches the generator of the environment and nothing else:
    with or without a seed, [reset] deals the same cards. *)
Lemma reset_seed_scope (seed : rng) (e : Env) :
  np_random (snd (reset (Some seed) e)) = seed
  /\ hands (snd (reset (Some seed) e)) = hands (snd (reset None e))
  /\ trump_card (snd (reset (Some seed) e)) = trump_card (snd (reset None e))
  /\ s_hand (state (snd (reset (Some seed) e)))
     = s_hand (state (snd (reset None e))).
Proof.
  pose (prep := fun x : Env =>
    set_trick_leader (round_starter x)
      (set_hands (replicate NUM_PLAYERS [])
         (set_cards_played_in_trick []
            (set_state (fun _ => initial_state) x)))).
  assert (R : forall sd, reset sd e
              = bind _deal_cards (fun _ => _update_valid_actions)
                  (prep (match sd with Some g => set_np_random g e | None => e end)))
    by (intros [g|]; reflexivity).
  rewrite !R. unfold bind.
  destruct (deal_cards_depends (prep (set_np_random seed e)) (prep e))
    as (D1 & D2 & D3); try reflexivity.
  destruct (deal_cards_spec (prep (set_np_random seed e)))
    as (e2 & E & _ & _ & _ & _ & _ & _ & _ & _ & _ & _ & Hnp).
  destruct (deal_cards_spec (prep e)) as (e2' & E' & _).
  rewrite E in D1, D2, D3 |- *. rewrite E' in D1, D2, D3 |- *.
  cbn [snd] in D1, D2, D3.
  destruct (update_valid_actions_deal e2) as (U1 & U2 & U3 & U4).
  destruct (update_valid_actions_deal e2') as (U1' & U2' & U3' & _).
  destruct (_update_valid_actions e2) as [[[]|x] e3];
    destruct (_update_valid_actions e2') as [[[]|x'] e3'];
    cbn [snd] in *; rewrite U1, U2, U3, U4, U1', U2', U3', Hnp, D1, D2, D3;
    repeat split; reflexivity.
Qed.

(** ** Plays *)


(** A card that the agent adds to a trick already begun leaves the lead
    suit of the observation as it was. *)
Lemma process_play_keeps_lead_suit (e e' : Env) (action : Z) :
  cards_played_in_trick e <> [] ->
  _process_play action e = (Ok tt, e') ->
  s_lead_suit (state e') = s_lead_suit (state e).
Proof.
  intros Ht. unfold _process_play.
  destruct (negb _); [discriminate|].
  destruct (_vector_idx_to_hand_idx e action) as [[idx|]|x]; try discriminate.
  destruct (hand_of e 0 !! idx) as [card|]; [|discriminate].
  intros [= <-]. cbn.
  destruct (length (cards_played_in_trick e ++ [card]) =? 1)%nat eqn:El;
    [|reflexivity].
  apply Nat.eqb_eq in El. rewrite length_app in El. cbn in El.
  destruct (cards_played_in_trick e); [contradiction | cbn in El; lia].
Qed.

(** C10 (evaluation of the code). The observation that [step] returns for
    the agent's bid in round 2: seats 1, 2 and 3 have played the 2 and 4
    of Diamonds and the 4 of Hearts; the first card that is no Wizard and
    no Jester is a Diamond, suit index 1. The field [lead_suit] holds the
    enum member [CardSuit.DIAMONDS] that [_simulate_play] stored, which
    is neither the index 1 nor any other integer. *)
Theorem lead_suit_is_enum_member :
  reachable (env_after 3)
  /\ cards_played_in_trick (env_after 3)
     = [mkCard TWO DIAMONDS; mkCard FOUR DIAMONDS; mkCard FOUR HEARTS]
  /\ s_lead_suit (state (env_after 3)) = LeadMember DIAMONDS
  /\ forall n : Z, s_lead_suit (state (env_after 3)) <> LeadIndex n.
Proof.
  split; [apply env_after_reachable|].
  assert (H : s_lead_suit (state (env_after 3)) = LeadMember DIAMONDS)
    by (vm_compute; reflexivity).
  split; [vm_compute; reflexivity|]. split; [exact H|].
  intros n. rewrite H. discriminate.
Qed.

(** ** Rounds and games *)

(** The close of a round moves the round starter one seat on. *)
Lemma finish_round_rotates (e e' : Env) (r : result Q) :
  _finish_round e = (r, e') ->
  round_starter e' = ((round_starter e + 1) mod NUM_PLAYERS)%nat.
Proof.
  unfold _finish_round, bind, get, modify.
  match goal with |- context [_deal_cards ?x] => set (e1 := x) end.
  destruct (deal_cards_spec e1) as (e2 & E & _ & _ & _ & _ & _ & _ & _ & Hs & _).
  rewrite E.
  assert (Hu : round_starter (snd (_update_valid_actions e2)) = round_starter e2).
  { unfold _update_valid_actions.
    destruct (s_phase (state e2) =? 0); [destruct (forallb _ _)|]; reflexivity. }
  destruct (_update_valid_actions e2) as [[[]|x] e3]; cbn [snd] in Hu;
    intros [= _ <-]; rewrite Hu, Hs; reflexivity.
Qed.

Lemma reset_round_starter (seed : option rng) (e : Env) :
  round_starter (snd (reset seed e)) = round_starter e.
Proof.
  unfold reset, bind, modify.
  match goal with |- context [_deal_cards ?x] => set (e1 := x) end.
  destruct (deal_cards_spec e1) as (e2 & E & _ & _ & _ & _ & _ & _ & _ & Hs & _).
  rewrite E.
  assert (Hu : round_starter (snd (_update_valid_actions e2)) = round_starter e2).
  { unfold _update_valid_actions.
    destruct (s_phase (state e2) =? 0); [destruct (forallb _ _)|]; reflexivity. }
  destruct (_update_valid_actions e2) as [[[]|x] e3]; cbn [snd] in Hu |- *;
    rewrite Hu, Hs; subst e1; destruct seed; reflexivity.
Qed.

(** C9 (evaluation of the code). The constructor starts its game with
    seat 0, and [reset] never assigns [round_starter]. After one round of
    a game the starter is seat 1; a [reset] then begins a new game, round
    1, that seat 1 starts, although [reset] stores position 0 for the
    agent and lets no opponent bid before it, as it does for a game that
    seat 0 starts. *)
Theorem reset_keeps_round_starter :
  (forall np0 py0 : rng, round_starter (snd (__init__ np0 py0)) = 0%nat)
  /\ (forall (seed : option rng) (e : Env),
        round_starter (snd (reset seed e)) = round_starter e)
  /\ reachable (env_after 2)
  /\ round_starter (env_after 2) = 1%nat
  /\ s_round_number (state (snd (reset None (env_after 2)))) = 1
  /\ round_starter (snd (reset None (env_after 2))) = 1%nat
  /\ s_position_in_trick (state (snd (reset None (env_after 2)))) = 0
  /\ s_player_bids (state (snd (reset None (env_after 2)))) = [0; 0; 0; 0].
Proof.
  split; [intros np0 py0; apply reset_round_starter|].
  split; [exact reset_round_starter|].
  split; [apply env_after_reachable|].
  repeat split; vm_compute; reflexivity.
Qed.



(** * Further properties of the engine *)

(** ** The deck *)

Lemma zrange_NoDup (n : Z) : List.NoDup (zrange n).
Proof.
  unfold zrange. apply NoDup_ListNoDup.
  apply (NoDup_fmap_2 Z.of_nat), NoDup_seq.
Qed.

(** X1. [_create_deck] builds 60 cards, no card twice and every card of
    the game once: 52 numeric cards, 4 Wizards and 4 Jesters; the slots
    of its cards are the 60 slots of the encoding, each taken once. *)
Theorem create_deck_covers_encoding :
  length _create_deck = 60%nat
  /\ NoDup _create_deck
  /\ (forall c : Card, In c _create_deck)
  /\ length (List.filter is_regular _create_deck) = 52%nat
  /\ length (List.filter is_wizard _create_deck) = 4%nat
  /\ length (List.filter is_jester _create_deck) = 4%nat
  /\ map vector_index _create_deck ≡ₚ zrange DECK_SIZE.
Proof.
  split; [reflexivity|]. split; [apply create_deck_NoDup|].
  split; [apply create_deck_complete|].
  split; [reflexivity|]. split; [reflexivity|]. split; [reflexivity|].
  symmetry. apply NoDup_Permutation_bis.
  - apply zrange_NoDup.
  - rewrite length_map, zrange_length. vm_compute. lia.
  - intros x Hx. apply zrange_In in Hx.
    assert (Hc : forallb (fun y => existsb (Z.eqb y) (map vector_index _create_deck))
                   (zrange DECK_SIZE) = true) by (vm_compute; reflexivity).
    rewrite forallb_forall in Hc.
    specialize (Hc x (proj2 (zrange_In _ _) Hx)).
    apply existsb_exists in Hc. destruct Hc as (y & Hy & E).
    apply Z.eqb_eq in E. now subst.
Qed.

(** ** Decoding out of range *)

Lemma CardSuit_of_outside (n : Z) :
  n < 0 \/ 3 < n -> CardSuit_of n = Raise ValueError.
Proof.
  intros H. destruct n as [|p|p]; [lia| |reflexivity].
  destruct p as [[p|p|]|[p|p|]|]; try reflexivity; lia.
Qed.

Lemma CardValue_of_rank (n : Z) :
  1 <= n <= 13 -> exists v, CardValue_of n = Ok v.
Proof.
  intros H. assert (E : exists k : nat, (k < 13)%nat /\ n = Z.of_nat k + 1).
  { exists (Z.to_nat (n - 1)). lia. }
  destruct E as (k & Hk & ->).
  do 13 (destruct k as [|k]; [eexists; reflexivity|]). lia.
Qed.

(** Decoding succeeds exactly on the 60 slots. *)
Lemma from_vector_idx_cases (i : Z) :
  (0 <= i < DECK_SIZE -> exists c, from_vector_idx i = Ok c /\ vector_index c = i)
  /\ (~ 0 <= i < DECK_SIZE -> from_vector_idx i = Raise ValueError).
Proof.
  split.
  - intros Hi. destruct (below_60_cases i Hi) as [n [Hn ->]].
    do 60 (destruct n as [|n]; [eexists; split; reflexivity|]). lia.
  - intros Hi. unfold DECK_SIZE in Hi. unfold from_vector_idx.
    destruct (Z.ltb_spec i 52) as [H52|H52].
    + assert (Hneg : i < 0) by lia.
      destruct (CardValue_of_rank (i mod 13 + 1)) as [v ->].
      { pose proof (Z.mod_pos_bound i 13). lia. }
      rewrite CardSuit_of_outside; [reflexivity|].
      left. apply Z.div_lt_upper_bound; lia.
    + destruct (Z.ltb_spec i 56) as [H56|H56]; [lia|].
      rewrite CardSuit_of_outside; [reflexivity | lia].
Qed.

(** X2. [Card.from_vector_idx] decodes exactly the indices 0..59; on any
    other integer, negative or 60 and above, it raises [ValueError] (from
    the construction of the suit). *)
Theorem from_vector_idx_domain (i : Z) :
  (0 <= i < DECK_SIZE -> exists c, from_vector_idx i = Ok c /\ vector_index c = i)
  /\ (~ 0 <= i < DECK_SIZE -> from_vector_idx i = Raise ValueError).
Proof. exact (from_vector_idx_cases i). Qed.

Lemma from_vector_idx_domain_witness :
  0 <= 59 < DECK_SIZE
  /\ (exists c, from_vector_idx 59 = Ok c /\ vector_index c = 59)
  /\ ~ 0 <= -1 < DECK_SIZE
  /\ from_vector_idx (-1) = Raise ValueError.
Proof.
  assert (H1 : 0 <= 59 < DECK_SIZE) by (unfold DECK_SIZE; lia).
  assert (H2 : ~ 0 <= -1 < DECK_SIZE) by lia.
  split; [exact H1|]. split; [exact (proj1 (from_vector_idx_domain 59) H1)|].
  split; [exact H2|]. exact (proj2 (from_vector_idx_domain (-1)) H2).
Defined.

(** ** The legal bids *)

Lemma remove_bid_In (x b : Z) (l : list Z) :
  List.NoDup l -> (In b (remove_bid x l) <-> In b l /\ b <> x).
Proof.
  induction l as [|y l IH]; intros Hnd; cbn [remove_bid].
  { split; [intros [] | intros [[] _]]. }
  inversion Hnd as [|? ? Hy Hnd']; subst.
  destruct (Z.eqb_spec y x) as [->|Hne].
  - split.
    + intros H. split; [now right|]. intros ->. contradiction.
    + intros [[E | H] Hne]; [congruence | exact H].
  - cbn [In]. rewrite (IH Hnd'). split.
    + intros [<- | [H1 H2]]; [split; [now left | congruence] | split; [now right | exact H2]].
    + intros [[<- | H1] H2]; [now left | right; split; assumption].
Qed.

(** Membership in the list of legal bids, and its length. *)
Lemma valid_bids_membership (e : Env) (b : Z) :
  let rn := s_round_number (state e) in
  let bids := s_player_bids (state e) in
  let hook := (count_nonzero bids =? 3)%nat
              && (0 <=? rn - zsum bids) && (rn - zsum bids <=? rn) in
  (In b (_get_valid_bids e) <->
     0 <= b <= rn /\ ~ (count_nonzero bids = 3%nat /\ b = rn - zsum bids))
  /\ length (_get_valid_bids e)
     = (Z.to_nat (rn + 1) - (if hook then 1 else 0))%nat.
Proof.
  intros rn bids hook. subst hook. unfold _get_valid_bids. fold rn bids.
  change (NUM_PLAYERS - 1)%nat with 3%nat.
  destruct (Nat.eqb_spec (count_nonzero bids) 3) as [Hc|Hc]; cbn [andb].
  - destruct (Z.leb_spec 0 (rn - zsum bids)) as [H1|H1]; cbn [andb].
    + destruct (Z.leb_spec (rn - zsum bids) rn) as [H2|H2].
      * split.
        -- rewrite remove_bid_In by apply zrange_NoDup.
           rewrite zrange_In. split; [intros [H Hne]|intros [H Hne]].
           ++ split; [lia|]. intros [_ E]. contradiction.
           ++ split; [lia|]. intros E. apply Hne. auto.
        -- pose proof (remove_bid_In_length (rn - zsum bids) (zrange (rn + 1))) as Hl.
           rewrite zrange_In, zrange_length in Hl. lia.
      * split; [|rewrite zrange_length; lia].
        rewrite zrange_In. split; [intros H|intros [H _]; lia].
        split; [lia|]. intros [_ E]. lia.
    + split; [|rewrite zrange_length; lia].
      rewrite zrange_In. split; [intros H|intros [H _]; lia].
      split; [lia|]. intros [_ E]. lia.
  - split; [|rewrite zrange_length; lia].
    rewrite zrange_In. split; [intros H|intros [H _]; lia].
    split; [lia|]. intros [E _]. contradiction.
Qed.

(** X4. The legal bids, as [_get_valid_bids] computes them: a bid is
    legal iff it lies in [0, round_number] and is not the value that
    brings the bids to the round number at a moment when exactly three
    entries of the bid vector are non-zero. The list has
    [round_number + 1] entries, one fewer when a value is removed. *)
Theorem get_valid_bids_membership (e : Env) (b : Z) :
  let rn := s_round_number (state e) in
  let bids := s_player_bids (state e) in
  let hook := (count_nonzero bids =? 3)%nat
              && (0 <=? rn - zsum bids) && (rn - zsum bids <=? rn) in
  (In b (_get_valid_bids e) <->
     0 <= b <= rn /\ ~ (count_nonzero bids = 3%nat /\ b = rn - zsum bids))
  /\ length (_get_valid_bids e)
     = (Z.to_nat (rn + 1) - (if hook then 1 else 0))%nat.
Proof. exact (valid_bids_membership e b). Qed.

Lemma zsum_insert_0 (b : Z) (bids : list Z) :
  bids <> [] -> zsum (<[ 0%nat := b ]> bids) = zsum bids - item bids 0 + b.
Proof. destruct bids as [|x l]; [congruence|]. intros _. cbn. lia. Qed.

(** X5. The hook rule as far as [_process_bid] enforces it: when the
    agent's own entry is still 0 and the three other entries of the bid
    vector are non-zero, a bid that [_process_bid] accepts never brings
    the sum of the bids to the round number. *)
Theorem accepted_bid_misses_total (e e' : Env) (bid : Z) :
  s_player_bids (state e) <> [] ->
  item (s_player_bids (state e)) 0 = 0 ->
  count_nonzero (s_player_bids (state e)) = 3%nat ->
  _process_bid bid e = (Ok tt, e') ->
  zsum (s_player_bids (state e')) <> s_round_number (state e').
Proof.
  intros Hne H0 Hc. unfold _process_bid.
  destruct (existsb (Z.eqb bid) (_get_valid_bids e)) eqn:Hin; [|discriminate].
  cbn [negb]. intros [= <-]. cbn.
  apply existsb_eqb_In in Hin.
  apply (proj1 (valid_bids_membership e bid)) in Hin.
  destruct Hin as [_ Hn].
  rewrite zsum_insert_0, H0 by exact Hne. intros E. apply Hn. split; [exact Hc | lia].
Qed.

(** ** Legal plays *)

Lemma existsb_card_In (c : Card) (l : list Card) :
  existsb (card_eqb c) l = true <-> In c l.
Proof.
  rewrite existsb_exists. split.
  - intros (x & Hx & E). apply card_eqb_eq in E. now subst.
  - intros H. exists c. split; [exact H | apply card_eqb_refl].
Qed.

Lemma suit_eqb_eq (a b : CardSuit) : suit_eqb a b = true <-> a = b.
Proof. destruct a, b; cbn; split; congruence. Qed.

(** A non-empty hand has a legal card. *)
Lemma legal_card_in_hand (e : Env) (player_idx : nat) :
  hand_of e player_idx <> [] ->
  exists c, In c (hand_of e player_idx)
            /\ _is_valid_play e c player_idx = true.
Proof.
  intros Hne. unfold _is_valid_play.
  destruct (hand_of e player_idx) as [|c0 hand] eqn:Hh; [congruence|].
  destruct (find is_regular (cards_played_in_trick e)) as [lead|] eqn:Hlead.
  - destruct (existsb (fun h => suit_eqb (suit h) (suit lead)) (c0 :: hand)) eqn:Hs.
    + apply existsb_exists in Hs. destruct Hs as (c & Hc & Es).
      exists c. split; [exact Hc|].
      rewrite (proj2 (existsb_card_In c (c0 :: hand)) Hc). cbn [negb].
      destruct (length (cards_played_in_trick e) =? 0)%nat; [reflexivity|].
      destruct (is_wizard c || is_jester c); [reflexivity | exact Es].
    + exists c0. split; [now left|].
      rewrite (proj2 (existsb_card_In c0 (c0 :: hand))) by now left. cbn [negb].
      destruct (length (cards_played_in_trick e) =? 0)%nat; [reflexivity|].
      destruct (is_wizard c0 || is_jester c0); reflexivity.
  - exists c0. split; [now left|].
    rewrite (proj2 (existsb_card_In c0 (c0 :: hand))) by now left. cbn [negb].
    destruct (length (cards_played_in_trick e) =? 0)%nat; [reflexivity|].
    destruct (is_wizard c0 || is_jester c0); reflexivity.
Qed.

(** X8. A seat that holds a card always has a card it may play: whatever
    the trick, some card of a non-empty hand passes [_is_valid_play]. *)
Theorem legal_card_exists (e : Env) (player_idx : nat) :
  hand_of e player_idx <> [] ->
  exists c, In c (hand_of e player_idx)
            /\ _is_valid_play e c player_idx = true.
Proof. exact (legal_card_in_hand e player_idx). Qed.

(** X9. The rules of [_is_valid_play]: a card that the seat does not
    hold is never legal; a held Wizard or Jester is always legal; with an
    empty trick every held card is legal; and a legal card that is no
    Wizard and no Jester has the suit of the first such card of the
    trick whenever the seat holds any card of that suit (Wizards and
    Jesters of that suit count as held cards of the suit). *)
Theorem valid_play_rules (e : Env) (card : Card) (player_idx : nat) :
  (~ In card (hand_of e player_idx) -> _is_valid_play e card player_idx = false)
  /\ (In card (hand_of e player_idx) -> is_regular card = false ->
      _is_valid_play e card player_idx = true)
  /\ (In card (hand_of e player_idx) -> cards_played_in_trick e = [] ->
      _is_valid_play e card player_idx = true)
  /\ (forall lead h,
        _is_valid_play e card player_idx = true ->
        is_regular card = true ->
        find is_regular (cards_played_in_trick e) = Some lead ->
        In h (hand_of e player_idx) -> suit h = suit lead ->
        suit card = suit lead).
Proof.
  unfold _is_valid_play. repeat split.
  - intros Hn. destruct (existsb (card_eqb card) _) eqn:E; [|reflexivity].
    apply existsb_card_In in E. contradiction.
  - intros Hin Hreg. rewrite (proj2 (existsb_card_In _ _) Hin). cbn [negb].
    destruct (length _ =? 0)%nat; [reflexivity|].
    unfold is_regular in Hreg.
    destruct (is_wizard card), (is_jester card); cbn in *; congruence.
  - intros Hin Ht. rewrite (proj2 (existsb_card_In _ _) Hin), Ht. reflexivity.
  - intros lead h Hv Hreg Hlead Hh Hs.
    destruct (existsb (card_eqb card) _); cbn [negb] in Hv; [|discriminate].
    destruct (cards_played_in_trick e) as [|t0 trick] eqn:Ht; [discriminate|].
    cbn [length Nat.eqb] in Hv.
    unfold is_regular in Hreg.
    destruct (is_wizard card), (is_jester card); cbn in Hreg; try discriminate.
    cbn [orb] in Hv. rewrite Hlead in Hv.
    assert (Hex : existsb (fun h0 => suit_eqb (suit h0) (suit lead))
                    (hand_of e player_idx) = true).
    { apply existsb_exists. exists h. split; [exact Hh|]. now apply suit_eqb_eq. }
    rewrite Hex in Hv. now apply suit_eqb_eq.
Qed.

(** ** The winner of a trick *)

Lemma last_position_Some (p : Card -> bool) (trick : list Card) (i j : nat) :
  last_position p trick i = Some j ->
  exists c, (i <= j)%nat /\ trick !! (j - i)%nat = Some c /\ p c = true.
Proof.
  revert i. induction trick as [|c rest IH]; intros i; cbn [last_position];
    [discriminate|].
  destruct (last_position p rest (S i)) as [k|] eqn:Hl.
  - intros [= <-]. destruct (IH (S i) Hl) as (x & Hle & Hx & Hp).
    exists x. split; [lia|]. split; [|exact Hp].
    replace (k - i)%nat with (S (k - S i)) by lia. exact Hx.
  - destruct (p c) eqn:Hc; [|discriminate]. intros [= <-].
    exists c. rewrite Nat.sub_diag. auto.
Qed.

Lemma last_position_None (p : Card -> bool) (trick : list Card) (i : nat) :
  last_position p trick i = None -> forall c, In c trick -> p c = false.
Proof.
  revert i. induction trick as [|x rest IH]; intros i; cbn [last_position];
    [intros _ c []|].
  destruct (last_position p rest (S i)) eqn:Hl; [discriminate|].
  destruct (p x) eqn:Hx; [discriminate|].
  intros _ c [<- | Hc]; [exact Hx | exact (IH (S i) Hl c Hc)].
Qed.

Lemma non_jesters_In (trick : list Card) (i : nat) (c : Card) (j : nat) :
  In (c, j) (non_jesters trick i) ->
  (i <= j)%nat /\ trick !! (j - i)%nat = Some c /\ is_jester c = false.
Proof.
  revert i. induction trick as [|x rest IH]; intros i; cbn [non_jesters];
    [intros []|].
  assert (Hrest : In (c, j) (non_jesters rest (S i)) ->
                  (i <= j)%nat /\ (x :: rest) !! (j - i)%nat = Some c
                  /\ is_jester c = false).
  { intros H. destruct (IH (S i) H) as (Hle & Hx & Hj).
    split; [lia|]. split; [|exact Hj].
    replace (j - i)%nat with (S (j - S i)) by lia. exact Hx. }
  destruct (is_jester x) eqn:Hx; [exact Hrest|].
  intros [[= <- <-] | H]; [|exact (Hrest H)].
  rewrite Nat.sub_diag. auto.
Qed.

Lemma non_jesters_nil (trick : list Card) (i : nat) :
  non_jesters trick i = [] -> forall c, In c trick -> is_jester c = true.
Proof.
  revert i. induction trick as [|x rest IH]; intros i; cbn [non_jesters];
    [intros _ c []|].
  destruct (is_jester x) eqn:Hx; [|discriminate].
  intros H c [<- | Hc]; [exact Hx | exact (IH (S i) H c Hc)].
Qed.

Lemma best_of_In (t : option CardSuit) (w : Card * nat) (later : list (Card * nat)) :
  best_of t w later = w \/ In (best_of t w later) later.
Proof.
  revert w. induction later as [|c rest IH]; intros w; cbn [best_of]; [now left|].
  destruct (IH (if replaces t (fst c) (fst w) then c else w)) as [E | H].
  - rewrite E. destruct (replaces t (fst c) (fst w)); [right; now left | now left].
  - right. now right.
Qed.

Lemma jester_not_wizard (c : Card) : is_jester c = true -> is_wizard c = false.
Proof. destruct c as [[] s]; cbn; congruence. Qed.

(** The winner of a trick is the seat of one of its cards. *)
Lemma trick_winner_in_trick (leader : nat) (trump : option Card)
    (trick : list Card) :
  (leader < NUM_PLAYERS)%nat -> trick <> [] ->
  exists (i : nat) (c : Card),
    trick !! i = Some c
    /\ evaluate_trick leader trump trick = Ok ((leader + i) mod NUM_PLAYERS)%nat
    /\ ((leader + i) mod NUM_PLAYERS < NUM_PLAYERS)%nat
    /\ ((exists w, In w trick /\ is_wizard w = true) -> is_wizard c = true)
    /\ ((exists x, In x trick /\ is_jester x = false) -> is_jester c = false).
Proof.
  intros Hl Hne. rewrite evaluate_trick_spec. unfold trick_winner_spec.
  assert (Hmod : forall i, ((leader + i) mod NUM_PLAYERS < NUM_PLAYERS)%nat)
    by (intros i; apply Nat.mod_upper_bound; discriminate).
  destruct (last_position is_wizard trick 0) as [j|] eqn:Hw.
  - destruct (last_position_Some _ _ _ _ Hw) as (c & _ & Hc & Hcw).
    rewrite Nat.sub_0_r in Hc. exists j, c.
    split; [exact Hc|]. split; [reflexivity|]. split; [apply Hmod|].
    split; [intros _; exact Hcw|].
    intros _. destruct (is_jester c) eqn:Hj; [|reflexivity].
    apply jester_not_wizard in Hj. congruence.
  - pose proof (last_position_None _ _ _ Hw) as Hnw.
    destruct (non_jesters trick 0) as [|first later] eqn:Hnj.
    + destruct trick as [|c0 rest]; [congruence|].
      exists 0%nat, c0. split; [reflexivity|].
      split; [rewrite Nat.add_0_r, Nat.mod_small by exact Hl; reflexivity|].
      split; [apply Hmod|]. split.
      * intros (w & Hin & Hww). rewrite (Hnw w Hin) in Hww. discriminate.
      * intros (x & Hin & Hx).
        rewrite (non_jesters_nil _ _ Hnj x Hin) in Hx. discriminate.
    + assert (Hin : In (best_of (option_map suit trump) first later)
                      (non_jesters trick 0)).
      { rewrite Hnj. destruct (best_of_In (option_map suit trump) first later)
          as [-> | H]; [now left | now right]. }
      destruct (best_of (option_map suit trump) first later) as [c j].
      destruct (non_jesters_In _ _ _ _ Hin) as (_ & Hc & Hj).
      rewrite Nat.sub_0_r in Hc. exists j, c.
      split; [exact Hc|]. split; [reflexivity|]. split; [apply Hmod|]. split.
      * intros (w & Hwin & Hww). rewrite (Hnw w Hwin) in Hww. discriminate.
      * intros _. exact Hj.
Qed.

(** X11. The winner that [_evaluate_trick] names has played in the trick:
    for a trick leader below [NUM_PLAYERS] and a non-empty trick, the
    call returns (it never raises), the winner is the seat of one of the
    cards of the trick and is below [NUM_PLAYERS]; that card is a Wizard
    whenever a Wizard was played, and is no Jester whenever a card other
    than a Jester was played. *)
Theorem trick_winner_played (leader : nat) (trump : option Card)
    (trick : list Card) :
  (leader < NUM_PLAYERS)%nat -> trick <> [] ->
  exists (i : nat) (c : Card),
    trick !! i = Some c
    /\ evaluate_trick leader trump trick = Ok ((leader + i) mod NUM_PLAYERS)%nat
    /\ ((leader + i) mod NUM_PLAYERS < NUM_PLAYERS)%nat
    /\ ((exists w, In w trick /\ is_wizard w = true) -> is_wizard c = true)
    /\ ((exists x, In x trick /\ is_jester x = false) -> is_jester c = false).
Proof. exact (trick_winner_in_trick leader trump trick). Qed.

Lemma trick_winner_played_witness :
  (1 < NUM_PLAYERS)%nat
  /\ [mkCard JESTER HEARTS; mkCard FIVE CLUBS; mkCard WIZARD SPADES] <> []
  /\ exists (i : nat) (c : Card),
       [mkCard JESTER HEARTS; mkCard FIVE CLUBS; mkCard WIZARD SPADES] !! i
       = Some c
       /\ evaluate_trick 1 None
            [mkCard JESTER HEARTS; mkCard FIVE CLUBS; mkCard WIZARD SPADES]
          = Ok ((1 + i) mod NUM_PLAYERS)%nat
       /\ ((1 + i) mod NUM_PLAYERS < NUM_PLAYERS)%nat
       /\ ((exists w, In w [mkCard JESTER HEARTS; mkCard FIVE CLUBS;
                            mkCard WIZARD SPADES] /\ is_wizard w = true)
           -> is_wizard c = true)
       /\ ((exists x, In x [mkCard JESTER HEARTS; mkCard FIVE CLUBS;
                            mkCard WIZARD SPADES] /\ is_jester x = false)
           -> is_jester c = false).
Proof.
  assert (H1 : (1 < NUM_PLAYERS)%nat) by (unfold NUM_PLAYERS; lia).
  assert (H2 : [mkCard JESTER HEARTS; mkCard FIVE CLUBS; mkCard WIZARD SPADES]
               <> []) by discriminate.
  split; [exact H1|]. split; [exact H2|].
  exact (trick_winner_played 1 None _ H1 H2).
Defined.

(** ** The sizes of a deal *)

Lemma pop_snoc {A : Type} (l : list A) (c : A) : pop (l ++ [c]) = Some (c, l).
Proof. unfold pop. rewrite rev_app_distr. cbn. now rewrite rev_involutive. Qed.

Lemma snoc_cases {A : Type} (d : list A) :
  d <> [] -> exists l c, d = l ++ [c].
Proof.
  intros H. destruct (exists_last H) as (l & c & ->). eauto.
Qed.

Lemma deal_round_full (deck : list Card) (hs : list (list Card)) :
  length hs = 4%nat -> (4 <= length deck)%nat ->
  length (fst (fold_left deal_one (seq 0 NUM_PLAYERS) (deck, hs)))
  = (length deck - 4)%nat
  /\ map length (snd (fold_left deal_one (seq 0 NUM_PLAYERS) (deck, hs)))
     = map S (map length hs).
Proof.
  intros Hhs Hd.
  destruct hs as [|h0 [|h1 [|h2 [|h3 [|]]]]]; try discriminate.
  destruct (snoc_cases deck) as (d0 & c0 & ->); [destruct deck; cbn in *; [lia|discriminate]|].
  rewrite length_app in Hd. cbn in Hd.
  destruct (snoc_cases d0) as (d1 & c1 & ->); [destruct d0; cbn in *; [lia|discriminate]|].
  rewrite length_app in Hd. cbn in Hd.
  destruct (snoc_cases d1) as (d2 & c2 & ->); [destruct d1; cbn in *; [lia|discriminate]|].
  rewrite length_app in Hd. cbn in Hd.
  destruct (snoc_cases d2) as (d3 & c3 & ->); [destruct d2; cbn in *; [lia|discriminate]|].
  cbn [seq NUM_PLAYERS fold_left]. unfold deal_one. cbn [fst snd].
  rewrite !pop_snoc. cbn [fst snd].
  rewrite pop_snoc. cbn [fst snd]. rewrite pop_snoc. cbn [fst snd].
  rewrite pop_snoc. cbn [fst snd].
  split.
  - rewrite !length_app. cbn. lia.
  - cbn. rewrite !length_app. cbn. repeat f_equal; lia.
Qed.

Lemma deal_round_empty (hs : list (list Card)) :
  fold_left deal_one (seq 0 NUM_PLAYERS) ([], hs) = ([], hs).
Proof. reflexivity. Qed.

Lemma deal_rounds_sizes (rounds m : nat) (deck : list Card)
    (hs : list (list Card)) :
  length hs = 4%nat -> length deck = (4 * m)%nat ->
  length (fst (deal_rounds rounds (deck, hs))) = (4 * (m - Nat.min rounds m))%nat
  /\ map length (snd (deal_rounds rounds (deck, hs)))
     = map (fun n => (n + Nat.min rounds m)%nat) (map length hs).
Proof.
  unfold deal_rounds.
  assert (G : forall (rs : list nat) m deck hs,
             length hs = 4%nat -> length deck = (4 * m)%nat ->
             let r := fold_left
                        (fun a _ => fold_left deal_one (seq 0 NUM_PLAYERS) a)
                        rs (deck, hs) in
             length (fst r) = (4 * (m - Nat.min (length rs) m))%nat
             /\ map length (snd r)
                = map (fun n => (n + Nat.min (length rs) m)%nat) (map length hs)).
  { clear. induction rs as [|r rs IH]; intros m deck hs Hhs Hd; cbn [fold_left length].
    - cbn [Nat.min fst snd]. split; [lia|].
      rewrite <- (map_id (map length hs)) at 1. apply map_ext. intros; lia.
    - destruct m as [|m].
      + destruct deck; [|cbn in Hd; lia]. rewrite deal_round_empty.
        destruct (IH 0%nat [] hs Hhs eq_refl) as [H1 H2].
        rewrite Nat.min_0_r in *. split; assumption.
      + destruct (deal_round_full deck hs Hhs) as [H1 H2]; [lia|].
        destruct (fold_left deal_one (seq 0 NUM_PLAYERS) (deck, hs)) as [deck' hs'].
        cbn [fst snd] in H1, H2.
        assert (Hhs' : length hs' = 4%nat).
        { rewrite <- (length_map length), H2, !length_map. exact Hhs. }
        destruct (IH m deck' hs' Hhs') as [H3 H4]; [lia|].
        split.
        * rewrite H3. cbn [Nat.min]. lia.
        * rewrite H4, H2, map_map. cbn [Nat.min]. apply map_ext. intros; lia. }
  intros Hhs Hd. specialize (G (seq 0 rounds) m deck hs Hhs Hd).
  rewrite length_seq in G. exact G.
Qed.

(** The sizes of the piles after a deal. *)
Lemma deal_sizes (e : Env) :
  let k := Nat.min (Z.to_nat (s_round_number (state e))) 15 in
  exists e',
    _deal_cards e = (Ok tt, e')
    /\ map length (hands e') = [k; k; k; k]
    /\ (trump_card e' = None <-> k = 15%nat)
    /\ length (deck_rest e')
       = (60 - 4 * k - (if (k <? 15)%nat then 1 else 0))%nat.
Proof.
  intros k. unfold _deal_cards.
  pose proof (shuffle_perm _create_deck (py_random e)) as Hs.
  destruct (shuffle _create_deck (py_random e)) as [deck g]. cbn [fst] in Hs.
  apply Permutation_length in Hs. rewrite create_deck_length in Hs.
  destruct (deal_rounds_sizes (Z.to_nat (s_round_number (state e))) 15 deck
              (replicate NUM_PLAYERS [])) as [H1 H2]; [reflexivity | exact Hs|].
  fold k in H1, H2.
  destruct (deal_rounds _ _) as [deck1 hs]. cbn [fst snd] in H1, H2.
  cbn in H2.
  assert (Hk : (k <= 15)%nat) by apply Nat.le_min_r.
  destruct (pop deck1) as [[c d]|] eqn:Hp.
  - eexists. split; [reflexivity|].
    cbn [hands trump_card deck_rest set_state set_trump_card set_hands
         set_deck_rest set_py_random].
    apply pop_Some in Hp. subst deck1. rewrite length_app in H1. cbn in H1.
    split; [exact H2|]. split.
    + split; [discriminate | intros E; exfalso; lia].
    + destruct (Nat.ltb_spec k 15); lia.
  - eexists. split; [reflexivity|].
    cbn [hands trump_card deck_rest set_state set_trump_card set_hands
         set_deck_rest set_py_random].
    assert (deck1 = []) as ->.
    { unfold pop in Hp. destruct (rev deck1) eqn:Hr; [|discriminate].
      rewrite <- (rev_involutive deck1), Hr. reflexivity. }
    cbn in H1. split; [exact H2|]. split.
    + split; [intros _; lia | reflexivity].
    + destruct (Nat.ltb_spec k 15); cbn [length]; lia.
Qed.

(** X3. A deal is even. In round [n] the dealer gives each of the four
    seats [min(n, 15)] cards and always returns; a trump card is drawn
    exactly when fewer than 15 cards went to each seat, and the cards
    left over number [60 - 4 * min(n, 15)], less the trump card. *)
Theorem deal_cards_sizes (e : Env) :
  let k := Nat.min (Z.to_nat (s_round_number (state e))) 15 in
  exists e',
    _deal_cards e = (Ok tt, e')
    /\ map length (hands e') = [k; k; k; k]
    /\ (trump_card e' = None <-> k = 15%nat)
    /\ length (deck_rest e')
       = (60 - 4 * k - (if (k <? 15)%nat then 1 else 0))%nat.
Proof. exact (deal_sizes e). Qed.

(** ** Vectors of cards *)

Lemma vec_add_length (u v : list Z) :
  length u = 60%nat -> length v = 60%nat -> length (vec_add u v) = 60%nat.
Proof. intros Hu Hv. unfold vec_add. rewrite length_zip_with. lia. Qed.

Lemma fold_vec_add_length (l : list Card) (v : list Z) :
  length v = 60%nat ->
  length (fold_left vec_add (map (fun c => to_vector c DECK_SIZE) l) v) = 60%nat.
Proof.
  revert v. induction l as [|c l IH]; intros v Hv; cbn [map fold_left]; [exact Hv|].
  apply IH. apply vec_add_length; [exact Hv | apply to_vector_length].
Qed.

Lemma hand_vector_length (h : list Card) : length (hand_vector h) = 60%nat.
Proof. apply fold_vec_add_length. reflexivity. Qed.

Lemma card_eqb_slot (c x : Card) :
  (slot c =? slot x)%nat = card_eqb c x.
Proof.
  destruct (Nat.eqb_spec (slot c) (slot x)) as [E|E].
  - apply slot_inj in E. subst. symmetry. apply card_eqb_refl.
  - destruct (card_eqb c x) eqn:H; [|reflexivity].
    apply card_eqb_eq in H. subst. contradiction.
Qed.

(** Slot by slot, the sum of one-hot vectors counts the cards. *)
Lemma item_fold_vec_add (l : list Card) (v : list Z) (c : Card) :
  length v = 60%nat ->
  item (fold_left vec_add (map (fun x => to_vector x DECK_SIZE) l) v) (slot c)
  = item v (slot c) + occurrences c l.
Proof.
  unfold occurrences.
  revert v. induction l as [|x l IH]; intros v Hv; cbn [map fold_left List.filter].
  - cbn. lia.
  - rewrite IH by (apply vec_add_length; [exact Hv | apply to_vector_length]).
    rewrite item_vec_add, item_to_vector;
      rewrite ?to_vector_length, ?Hv; try apply slot_below_60.
    fold (slot c) (slot x). rewrite card_eqb_slot.
    destruct (card_eqb c x); cbn [length]; lia.
Qed.

Lemma item_zeros (n : Z) (k : nat) : item (zeros n) k = 0.
Proof.
  unfold item, zeros. destruct (replicate _ _ !! k) as [x|] eqn:E; [|reflexivity].
  apply lookup_replicate in E. cbn. tauto.
Qed.

Lemma item_hand_vector (h : list Card) (c : Card) :
  item (hand_vector h) (slot c) = occurrences c h.
Proof.
  unfold hand_vector, vec_sum. rewrite item_fold_vec_add by reflexivity.
  rewrite item_zeros. lia.
Qed.

Lemma occurrences_NoDup (c : Card) (l : list Card) :
  NoDup l -> occurrences c l = if existsb (card_eqb c) l then 1 else 0.
Proof.
  unfold occurrences. induction l as [|x l IH]; intros Hnd; [reflexivity|].
  apply NoDup_cons in Hnd. destruct Hnd as [Hx Hnd].
  cbn [List.filter existsb]. destruct (card_eqb c x) eqn:E.
  - apply card_eqb_eq in E. subst x. cbn [orb length].
    specialize (IH Hnd).
    destruct (existsb (card_eqb c) l) eqn:Ex.
    + apply existsb_card_In in Ex. exfalso. apply Hx. now apply list_elem_of_In.
    + lia.
  - cbn [orb]. exact (IH Hnd).
Qed.

(** Every position of a vector of 60 slots is the slot of a card. *)
Lemma slot_surjective (k : nat) : (k < 60)%nat -> exists c, slot c = k.
Proof.
  intros Hk.
  destruct (proj1 (from_vector_idx_cases (Z.of_nat k))) as (c & _ & Hc);
    [unfold DECK_SIZE; lia|].
  exists c. unfold slot. rewrite Hc. lia.
Qed.

(** Two vectors of 60 slots that agree on the slot of every card are
    equal. *)
Lemma vector_ext (u v : list Z) :
  length u = 60%nat -> length v = 60%nat ->
  (forall c, item u (slot c) = item v (slot c)) -> u = v.
Proof.
  intros Hu Hv H. apply list_eq. intros k.
  destruct (Nat.lt_ge_cases k 60) as [Hk|Hk].
  - destruct (slot_surjective k Hk) as [c <-].
    specialize (H c). unfold item in H.
    destruct (lookup_lt_is_Some_2 u (slot c)) as [x Hx]; [lia|].
    destruct (lookup_lt_is_Some_2 v (slot c)) as [y Hy]; [lia|].
    rewrite Hx, Hy in *. cbn in H. congruence.
  - rewrite !lookup_ge_None_2 by lia. reflexivity.
Qed.

Lemma hand_vector_snoc (h : list Card) (c : Card) :
  hand_vector (h ++ [c]) = vec_add (hand_vector h) (to_vector c DECK_SIZE).
Proof.
  unfold hand_vector, vec_sum. rewrite map_app, fold_left_app. reflexivity.
Qed.

Lemma hand_vector_nil : hand_vector [] = zeros DECK_SIZE.
Proof. reflexivity. Qed.

Lemma fill0_zeros (v : list Z) : length v = 60%nat -> fill0 v = zeros DECK_SIZE.
Proof.
  intros H. apply list_eq. intros k. unfold fill0, zeros.
  rewrite list_lookup_fmap.
  destruct (Nat.lt_ge_cases k 60) as [Hk|Hk].
  - destruct (lookup_lt_is_Some_2 v k) as [x ->]; [lia|].
    cbn. symmetry. apply lookup_replicate_2. exact Hk.
  - rewrite !lookup_ge_None_2; [reflexivity | rewrite length_replicate; exact Hk | lia].
Qed.

(** [np.logical_or.reduce] over the one-hot vectors of distinct cards is
    their sum. *)
Lemma item_vec_or (u v : list Z) (k : nat) :
  (k < length u)%nat -> (k < length v)%nat ->
  item (vec_or u v) k = truth (Z.abs (item u k) + Z.abs (item v k)).
Proof.
  intros Hu Hv. unfold item, vec_or. rewrite lookup_zip_with.
  destruct (lookup_lt_is_Some_2 u k Hu) as [x ->].
  destruct (lookup_lt_is_Some_2 v k Hv) as [y ->]. reflexivity.
Qed.

Lemma vec_or_length (u v : list Z) :
  length u = 60%nat -> length v = 60%nat -> length (vec_or u v) = 60%nat.
Proof. intros Hu Hv. unfold vec_or. rewrite length_zip_with. lia. Qed.

Lemma occurrences_nonneg (c : Card) (l : list Card) : 0 <= occurrences c l.
Proof. unfold occurrences. lia. Qed.

Lemma truth_truth (a b : Z) :
  0 <= a -> 0 <= b -> truth (truth a + b) = truth (a + b).
Proof.
  intros Ha Hb. unfold truth.
  destruct (Z.eqb_spec a 0); cbv iota;
    destruct (Z.eqb_spec (a + b) 0);
    match goal with |- context [?x =? 0] => destruct (Z.eqb_spec x 0) end;
    lia.
Qed.

Lemma fold_vec_or_spec (l : list Card) (v : list Z) (c : Card) :
  length v = 60%nat ->
  length (fold_left vec_or (map (fun x => to_vector x DECK_SIZE) l) v) = 60%nat
  /\ (item v (slot c) = 0 \/ item v (slot c) = 1 ->
      item (fold_left vec_or (map (fun x => to_vector x DECK_SIZE) l) v) (slot c)
      = truth (item v (slot c) + occurrences c l)).
Proof.
  revert v. induction l as [|x l IH]; intros v Hv; cbn [map fold_left].
  - split; [exact Hv|]. unfold occurrences. cbn.
    intros [-> | ->]; reflexivity.
  - assert (Hlen : length (vec_or v (to_vector x DECK_SIZE)) = 60%nat)
      by (apply vec_or_length; [exact Hv | apply to_vector_length]).
    destruct (IH _ Hlen) as [H1 H2]. split; [exact H1|].
    intros Hbit.
    assert (Hi : item (vec_or v (to_vector x DECK_SIZE)) (slot c)
                 = truth (item v (slot c) + (if card_eqb c x then 1 else 0))).
    { rewrite item_vec_or, item_to_vector;
        rewrite ?to_vector_length, ?Hv; try apply slot_below_60.
      fold (slot c) (slot x). rewrite card_eqb_slot.
      destruct (card_eqb c x); f_equal; lia. }
    rewrite H2.
    + rewrite Hi. pose proof (occurrences_nonneg c l) as Ho.
      rewrite truth_truth by (destruct (card_eqb c x); lia).
      f_equal. unfold occurrences. cbn [List.filter].
      destruct (card_eqb c x); cbn [length]; lia.
    + rewrite Hi. unfold truth. destruct (_ =? 0); auto.
Qed.

Lemma vec_or_reduce_hand_vector (h : list Card) :
  NoDup h ->
  vec_or_reduce (map (fun c => to_vector c DECK_SIZE) h) = hand_vector h.
Proof.
  intros Hnd. destruct h as [|x l]; [reflexivity|].
  cbn [map vec_or_reduce].
  assert (Hm : length (map truth (to_vector x DECK_SIZE)) = 60%nat)
    by (rewrite length_map; apply to_vector_length).
  apply vector_ext.
  - apply (fold_vec_or_spec l _ x Hm).
  - apply hand_vector_length.
  - intros c. rewrite item_hand_vector.
    assert (Hx : item (map truth (to_vector x DECK_SIZE)) (slot c)
                 = if card_eqb c x then 1 else 0).
    { unfold item. rewrite list_lookup_fmap. fold (item (to_vector x DECK_SIZE) (slot c)).
      pose proof (item_to_vector x (slot c) (slot_below_60 c)) as Hi.
      unfold item in Hi.
      destruct (to_vector x DECK_SIZE !! slot c) as [y|] eqn:Hy; cbn in Hi |- *.
      - subst y. fold (slot x). rewrite card_eqb_slot.
        destruct (card_eqb c x); reflexivity.
      - apply lookup_ge_None_1 in Hy. rewrite to_vector_length in Hy.
        pose proof (slot_below_60 c). unfold slot in Hy. lia. }
    destruct (fold_vec_or_spec l _ c Hm) as [_ H2].
    rewrite H2 by (rewrite Hx; destruct (card_eqb c x); auto).
    rewrite Hx. rewrite (occurrences_NoDup c (x :: l) Hnd).
    apply NoDup_cons in Hnd. destruct Hnd as [Hx' Hnd].
    rewrite (occurrences_NoDup c l Hnd). cbn [existsb].
    destruct (card_eqb c x) eqn:E; cbn [orb].
    + apply card_eqb_eq in E. subst x.
      destruct (existsb (card_eqb c) l) eqn:Ex; [|reflexivity].
      apply existsb_card_In in Ex. exfalso. apply Hx'. now apply list_elem_of_In.
    + destruct (existsb (card_eqb c) l); reflexivity.
Qed.

(** ** What a play does *)

Lemma legal_cards_nonempty (e : Env) (p : nat) :
  hand_of e p <> [] ->
  List.filter (fun card => _is_valid_play e card p) (hand_of e p) <> [].
Proof.
  intros Hne. destruct (legal_card_in_hand e p Hne) as (c & Hin & Hv).
  intros E. assert (H : In c (List.filter (fun card => _is_valid_play e card p)
                               (hand_of e p))) by (apply filter_In; auto).
  rewrite E in H. destruct H.
Qed.

Lemma simulate_play_empty (e : Env) (p : nat) :
  hand_of e p = [] -> _simulate_play p e = (Ok tt, e).
Proof. intros H. unfold _simulate_play, bind, get. now rewrite H. Qed.

Lemma simulate_play_spec (e : Env) (p : nat) :
  hand_of e p <> [] ->
  exists card g hand',
    In card (hand_of e p)
    /\ _is_valid_play e card p = true
    /\ remove_card card (hand_of e p) = Some hand'
    /\ _simulate_play p e = (Ok tt, after_play p card hand' (set_np_random g e)).
Proof.
  intros Hne. unfold _simulate_play, bind, get.
  pose proof (legal_cards_nonempty e p Hne) as Hv.
  destruct (List.filter _ (hand_of e p)) as [|v0 vs] eqn:Hvalid; [congruence|].
  destruct (choice_returns (v0 :: vs) e) as (card & g & -> & Hin); [discriminate|].
  rewrite <- Hvalid in Hin. apply filter_In in Hin. destruct Hin as [Hin Hval].
  change (hand_of (set_np_random g e) p) with (hand_of e p).
  destruct (remove_card_In card _ Hin) as [hand' Hrm]. rewrite Hrm.
  exists card, g, hand'. repeat split; try assumption.
Qed.

Lemma process_play_spec (e : Env) (action : Z) :
  s_phase (state e) = 1 -> holds_card e action ->
  exists hand_idx card,
    from_vector_idx action = Ok card
    /\ hand_of e 0 !! hand_idx = Some card
    /\ _process_play action e = (Ok tt, after_agent_play hand_idx card e).
Proof.
  intros Hp (c & Hdec & Hin). unfold _process_play, _vector_idx_to_hand_idx.
  rewrite Hp, Hdec. cbn [Z.eqb Pos.eqb negb].
  destruct (index_where _ (hand_of e 0)) as [idx|] eqn:Hidx.
  - apply index_where_Some in Hidx. destruct Hidx as (x & Hx & Heq).
    apply card_eqb_eq in Heq. subst x. rewrite Hx.
    exists idx, c. repeat split; try assumption.
  - pose proof (index_where_None _ _ Hidx c Hin) as Hf. cbn in Hf.
    change (card_eqb c c = false) in Hf. rewrite card_eqb_refl in Hf.
    discriminate.
Qed.

(** ** The mask *)

Lemma fold_vec_add_map (l : list Card) (z : list Z) :
  fold_left (fun v card => vec_add v (to_vector card DECK_SIZE)) l z
  = fold_left vec_add (map (fun c => to_vector c DECK_SIZE) l) z.
Proof. revert z. induction l as [|c l IH]; intros z; cbn; [reflexivity | apply IH]. Qed.

Lemma update_valid_actions_playing_spec (e : Env) :
  s_phase (state e) <> 0 ->
  _update_valid_actions e
  = (Ok tt,
     set_state
       (put_valid_actions
          (hand_vector
             (List.filter (fun card => _is_valid_play e card 0) (hand_of e 0)))) e).
Proof.
  intros Hp. unfold _update_valid_actions.
  destruct (Z.eqb_spec (s_phase (state e)) 0) as [E|_]; [contradiction|].
  unfold hand_vector, vec_sum. now rewrite fold_vec_add_map.
Qed.

Lemma filter_all {A : Type} (f : A -> bool) (l : list A) :
  (forall x, In x l -> f x = true) -> List.filter f l = l.
Proof.
  induction l as [|x l IH]; intros H; cbn; [reflexivity|].
  rewrite (H x) by now left. f_equal. apply IH. intros y Hy. apply H. now right.
Qed.

Lemma legal_cards_empty_trick (e : Env) (p : nat) :
  cards_played_in_trick e = [] ->
  List.filter (fun card => _is_valid_play e card p) (hand_of e p) = hand_of e p.
Proof.
  intros Ht. apply filter_all. intros c Hc.
  unfold _is_valid_play. rewrite (proj2 (existsb_card_In _ _) Hc), Ht. reflexivity.
Qed.

Lemma update_valid_actions_bidding_spec (e : Env) :
  s_phase (state e) = 0 ->
  _update_valid_actions e
  = if forallb (fun b => b <? DECK_SIZE) (_get_valid_bids e)
    then (Ok tt, set_state (put_valid_actions (bid_mask (_get_valid_bids e))) e)
    else (Raise IndexError, e).
Proof. intros Hp. unfold _update_valid_actions. now rewrite Hp. Qed.

Lemma bid_mask_length (l : list Z) : length (bid_mask l) = 60%nat.
Proof.
  unfold bid_mask. generalize (zeros DECK_SIZE) (eq_refl : length (zeros DECK_SIZE) = 60%nat).
  induction l as [|b l IH]; intros z Hz; cbn [fold_left]; [exact Hz|].
  apply IH. now rewrite length_insert.
Qed.

Lemma item_bid_mask (l : list Z) (b : Z) :
  Forall (fun x => 0 <= x < DECK_SIZE) l -> 0 <= b < DECK_SIZE ->
  item (bid_mask l) (Z.to_nat b) = if existsb (Z.eqb b) l then 1 else 0.
Proof.
  intros Hl Hb. unfold bid_mask.
  assert (G : forall z, length z = 60%nat ->
            item (fold_left (fun v x => <[Z.to_nat x:=1]> v) l z) (Z.to_nat b)
            = if existsb (Z.eqb b) l then 1 else item z (Z.to_nat b)).
  { induction l as [|x l IH]; intros z Hz; cbn [fold_left existsb]; [reflexivity|].
    apply Forall_cons in Hl. destruct Hl as [Hx Hl].
    rewrite (IH Hl) by now rewrite length_insert.
    destruct (existsb (Z.eqb b) l); [now rewrite orb_true_r|].
    rewrite orb_false_r. unfold item. unfold DECK_SIZE in *.
    destruct (Z.eqb_spec b x) as [->|Hne].
    - rewrite list_lookup_insert_eq by lia. reflexivity.
    - rewrite list_lookup_insert_ne by lia. reflexivity. }
  rewrite G by reflexivity. rewrite item_zeros.
  destruct (existsb (Z.eqb b) l); reflexivity.
Qed.

(** ** Seats in a trick *)

Lemma seat_cases (n : nat) : (n < 4)%nat -> n = 0%nat \/ n = 1%nat \/ n = 2%nat \/ n = 3%nat.
Proof. lia. Qed.

Ltac seat_split H :=
  apply seat_cases in H; destruct H as [-> | [-> | [-> | ->]]].

Lemma has_played_next (L n q : nat) :
  (L < 4)%nat -> (n < 4)%nat -> (q < 4)%nat ->
  has_played L (S n) q
  = if (q =? (L + n) mod 4)%nat then true else has_played L n q.
Proof.
  intros HL Hn Hq. seat_split HL; seat_split Hn; seat_split Hq; reflexivity.
Qed.

Lemma has_played_turn (L n : nat) :
  (L < 4)%nat -> (n < 4)%nat -> has_played L n ((L + n) mod 4) = false.
Proof. intros HL Hn. seat_split HL; seat_split Hn; reflexivity. Qed.

Lemma has_played_none (L q : nat) : has_played L 0 q = false.
Proof. reflexivity. Qed.

Lemma has_played_all (L q : nat) :
  (L < 4)%nat -> (q < 4)%nat -> has_played L 4 q = true.
Proof. intros HL Hq. seat_split HL; seat_split Hq; reflexivity. Qed.

Lemma agent_pos_seat (L : nat) :
  (L < 4)%nat -> ((L + agent_pos L) mod 4 = 0)%nat /\ (agent_pos L < 4)%nat.
Proof. intros HL. seat_split HL; split; vm_compute; lia. Qed.

Lemma before_agent_nonzero (L j : nat) :
  (L < 4)%nat -> (j < agent_pos L)%nat -> ((L + j) mod 4)%nat <> 0%nat.
Proof.
  intros HL Hj. seat_split HL; unfold agent_pos in Hj; cbn in Hj;
    try lia; assert (Hj' : (j < 4)%nat) by lia; seat_split Hj'; cbn; lia.
Qed.

Lemma after_agent_nonzero (L j : nat) :
  (L < 4)%nat -> (agent_pos L < j)%nat -> (j < 4)%nat ->
  ((L + j) mod 4)%nat <> 0%nat /\ ((L + j) mod 4)%nat <> L.
Proof.
  intros HL Hj H4. seat_split HL; seat_split H4; unfold agent_pos in Hj;
    cbn in Hj |- *; lia.
Qed.

Lemma position_of_leader (L : nat) :
  (L < 4)%nat -> (4 - Z.of_nat L) mod 4 = Z.of_nat (agent_pos L).
Proof. intros HL. seat_split HL; reflexivity. Qed.

(** ** The lead suit of the simulated plays *)

Lemma find_app_first {A : Type} (f : A -> bool) (l l' : list A) :
  find f (l ++ l')
  = match find f l with Some x => Some x | None => find f l' end.
Proof.
  induction l as [|x l IH]; cbn; [reflexivity|].
  destruct (f x); [reflexivity | exact IH].
Qed.

Lemma lead_of_snoc (trick : list Card) (card : Card) :
  lead_after card (lead_of trick) = lead_of (trick ++ [card]).
Proof.
  unfold lead_of, lead_after. rewrite find_app_first.
  destruct (find is_regular trick) as [c0|]; [reflexivity|].
  cbn. destruct (is_regular card); reflexivity.
Qed.

Ltac env_simpl :=
  cbn [state hands trump_card cards_played_in_trick round_starter trick_leader
       np_random py_random deck_rest
       s_hand s_trump_card s_cards_played_in_trick s_cards_played_in_round
       s_player_bids s_player_tricks s_player_scores s_round_number s_phase
       s_lead_suit s_position_in_trick s_valid_actions
       set_state set_hands set_trump_card set_cards_played_in_trick
       set_round_starter set_trick_leader set_np_random set_py_random
       set_deck_rest
       put_hand put_trump_card put_cards_played_in_trick
       put_cards_played_in_round put_player_bids put_player_tricks
       put_player_scores put_round_number put_phase put_lead_suit
       put_position_in_trick put_valid_actions] in *.

Ltac split_all := repeat match goal with |- _ /\ _ => split end.

(** ** Hands within the partition *)

Lemma concat_NoDup_member {A : Type} (hs : list (list A)) (h : list A) :
  NoDup (concat hs) -> In h hs -> NoDup h.
Proof.
  induction hs as [|x hs IH]; cbn; [intros _ []|].
  intros Hnd [-> | Hin].
  - apply NoDup_app in Hnd. tauto.
  - apply NoDup_app in Hnd. apply IH; tauto.
Qed.

Lemma partition_hand_NoDup (e : Env) (p : nat) :
  deck_partition e -> NoDup (hand_of e p).
Proof.
  intros (_ & _ & Hperm). unfold hand_of.
  destruct (hands e !! p) as [h|] eqn:Hh; cbn; [|apply NoDup_nil_2].
  assert (Hnd : NoDup (all_cards e)) by (rewrite Hperm; apply create_deck_NoDup).
  unfold all_cards in Hnd. apply NoDup_app in Hnd. destruct Hnd as (_ & _ & Hnd).
  apply NoDup_app in Hnd. destruct Hnd as (Hnd & _).
  apply (concat_NoDup_member (hands e)); [exact Hnd|].
  apply list_elem_of_In. eapply list_elem_of_lookup_2. exact Hh.
Qed.

Lemma hand_of_insert_eq (p : nat) (h : list Card) (hs : list (list Card)) :
  (p < length hs)%nat -> default [] (<[ p := h ]> hs !! p) = h.
Proof. intros Hp. now rewrite list_lookup_insert_eq. Qed.

Lemma hand_of_insert_ne (p q : nat) (h : list Card) (hs : list (list Card)) :
  p <> q -> default [] (<[ p := h ]> hs !! q) = default [] (hs !! q).
Proof. intros Hne. now rewrite list_lookup_insert_ne. Qed.

Lemma hand_vector_single (c : Card) : hand_vector [c] = to_vector c DECK_SIZE.
Proof. destruct c as [[] []]; reflexivity. Qed.

(** ** A simulated play within a trick *)

Lemma in_trick_after_play (L k n p : nat) (card : Card) (hand' : list Card)
    (g : rng) (e : Env) :
  in_trick L k n e -> (n < 4)%nat -> p = ((L + n) mod 4)%nat -> p <> 0%nat ->
  remove_card card (hand_of e p) = Some hand' ->
  in_trick L k (S n) (after_play p card hand' (set_np_random g e)).
Proof.
  intros (Hst & Hph & Hl & HL & Hn & Hsz & Htr & Hpos & Hlead) Hn4 Hp Hp0 Hrm.
  destruct Hst as (Hrs & Hh4 & Hrn & Hpart & Hb4 & Hbr & Ht4 & Htv & Htrump & Hhand).
  assert (Hp4 : (p < 4)%nat) by (subst p; apply Nat.mod_upper_bound; lia).
  pose proof (remove_card_perm _ _ _ Hrm) as Hperm.
  assert (Hne : hand_of e p <> []).
  { intros E. rewrite E in Hperm. now apply Permutation_nil_cons in Hperm. }
  unfold in_trick, static_ok, after_play, hand_of, dealt in *. env_simpl.
  split_all; try assumption.
  - now rewrite length_insert.
  - apply (partition_move e _ card Hpart); try reflexivity.
    env_simpl. apply (concat_insert_remove card p (hand_of e p)); [|exact Hperm].
    now apply hand_of_lookup.
  - rewrite Htv. symmetry. apply hand_vector_snoc.
  - rewrite hand_of_insert_ne by exact Hp0. exact Hhand.
  - rewrite length_app. cbn. lia.
  - intros q Hq. rewrite has_played_next by assumption.
    destruct (Nat.eqb_spec q ((L + n) mod 4)) as [E|E].
    + rewrite <- Hp in E. subst q.
      rewrite hand_of_insert_eq by (rewrite Hh4; exact Hp4).
      pose proof (Hsz p Hp4) as Hs. subst p.
      rewrite has_played_turn in Hs by assumption.
      apply Permutation_length in Hperm. cbn [length] in Hperm. lia.
    + rewrite hand_of_insert_ne by (rewrite Hp; auto). apply Hsz. exact Hq.
  - intros Hle. rewrite Hlead by lia. apply lead_of_snoc.
Qed.

(** ** The loop over the simulated seats *)

Lemma simulate_until_unfold (fuel : nat) (target : Env -> nat) (p : nat) (e : Env) :
  simulate_until fuel target p e
  = if (p =? target e)%nat then (Ok tt, e)
    else match fuel with
         | O => (Raise Diverges, e)
         | S fuel' =>
             bind (_simulate_play p)
               (fun _ => simulate_until fuel' target (_get_next_player p)) e
         end.
Proof. destruct fuel; cbn [simulate_until]; unfold bind at 1, get;
  destruct (p =? target e)%nat; reflexivity. Qed.

Lemma simulate_loop {X : Type} (f : Env -> X) (L k N T : nat) (m : X)
    (target : Env -> nat) :
  (forall p card hand' g e, f (after_play p card hand' (set_np_random g e)) = f e) ->
  (L < 4)%nat -> (1 <= k)%nat -> (N <= 4)%nat ->
  (forall n e, in_trick L k n e -> target e = T) ->
  ((L + N) mod 4)%nat = T ->
  forall d n fuel,
    (n + d = N)%nat -> (d <= fuel)%nat ->
    (forall j, (n <= j < N)%nat ->
       ((L + j) mod 4)%nat <> T /\ ((L + j) mod 4)%nat <> 0%nat) ->
    returns (fun e => in_trick L k n e /\ f e = m)
      (simulate_until fuel target ((L + n) mod 4)%nat)
      (fun _ e' => in_trick L k N e' /\ f e' = m).
Proof.
  intros Hf0 HL Hk HN Htarget HT. induction d as [|d IH]; intros n fuel Hnd Hf Hseats e [He Hm].
  - assert (n = N) by lia. subst n.
    rewrite simulate_until_unfold, (Htarget N e He), HT, Nat.eqb_refl.
    exists tt, e. auto.
  - destruct fuel as [|fuel]; [lia|].
    destruct (Hseats n) as [HnT Hn0]; [lia|].
    rewrite simulate_until_unfold, (Htarget n e He).
    destruct (Nat.eqb_spec ((L + n) mod 4) T) as [E|_]; [contradiction|].
    assert (Hp4 : ((L + n) mod 4 < 4)%nat) by (apply Nat.mod_upper_bound; lia).
    assert (Hne : hand_of e ((L + n) mod 4) <> []).
    { destruct He as (_ & _ & _ & _ & _ & Hsz & _).
      specialize (Hsz _ Hp4). rewrite has_played_turn in Hsz by lia.
      intros E. rewrite E in Hsz. cbn in Hsz. lia. }
    destruct (simulate_play_spec e _ Hne) as (card & g & hand' & Hin & _ & Hrm & Hsim).
    unfold bind. rewrite Hsim.
    assert (Hnext : _get_next_player ((L + n) mod 4) = ((L + S n) mod 4)%nat).
    { unfold _get_next_player, NUM_PLAYERS.
      rewrite Nat.Div0.add_mod_idemp_l. f_equal. lia. }
    rewrite Hnext. apply (IH (S n) fuel); [lia | lia | intros j Hj; apply Hseats; lia |].
    split.
    + apply (in_trick_after_play L k n _ card hand' g e He); auto. lia.
    + rewrite Hf0. exact Hm.
Qed.

(** ** The agent's play within a trick *)

Lemma in_trick_after_agent_play (L k hand_idx : nat) (card : Card) (e : Env) :
  in_trick L k (agent_pos L) e ->
  hand_of e 0 !! hand_idx = Some card ->
  in_trick L k (S (agent_pos L)) (after_agent_play hand_idx card e).
Proof.
  intros (Hst & Hph & Hl & HL & Hn & Hsz & Htr & Hpos & Hlead) Hidx.
  destruct Hst as (Hrs & Hh4 & Hrn & Hpart & Hb4 & Hbr & Ht4 & Htv & Htrump & Hhand).
  destruct (agent_pos_seat L HL) as [Hseat Hap].
  pose proof (delete_Permutation _ _ _ Hidx) as Hperm.
  assert (Hne : hand_of e 0 <> []).
  { intros E. rewrite E in Hidx. discriminate. }
  assert (Hnd : NoDup (delete hand_idx (hand_of e 0))).
  { pose proof (partition_hand_NoDup e 0 Hpart) as H. rewrite Hperm in H.
    apply NoDup_cons in H. tauto. }
  assert (Hvec : match delete hand_idx (hand_of e 0) with
                 | [] => zeros DECK_SIZE
                 | _ :: _ =>
                     vec_or_reduce
                       (map (fun c => to_vector c DECK_SIZE)
                          (delete hand_idx (hand_of e 0)))
                 end = hand_vector (delete hand_idx (hand_of e 0))).
  { rewrite <- (vec_or_reduce_hand_vector _ Hnd).
    destruct (delete hand_idx (hand_of e 0)); reflexivity. }
  assert (Hpart' : deck_partition (after_agent_play hand_idx card e)).
  { apply (partition_move e _ card Hpart); try reflexivity.
    - unfold after_agent_play. env_simpl.
      apply (concat_insert_remove card 0 (hand_of e 0)); [|exact Hperm].
      now apply hand_of_lookup.
    - unfold after_agent_play. env_simpl.
      destruct (length (cards_played_in_trick e ++ [card]) =? 1)%nat; reflexivity. }
  unfold in_trick, static_ok. split_all; try assumption.
  - unfold after_agent_play. now rewrite <- Hh4, <- (length_insert (hands e) 0 (delete hand_idx (hand_of e 0))).
  - unfold after_agent_play. env_simpl.
    destruct (length (cards_played_in_trick e ++ [card]) =? 1)%nat; exact Hrn.
  - unfold after_agent_play. env_simpl.
    destruct (length (cards_played_in_trick e ++ [card]) =? 1)%nat; exact Hb4.
  - unfold after_agent_play. env_simpl.
    destruct (length (cards_played_in_trick e ++ [card]) =? 1)%nat; exact Hbr.
  - unfold after_agent_play. env_simpl.
    destruct (length (cards_played_in_trick e ++ [card]) =? 1)%nat; exact Ht4.
  - unfold after_agent_play. env_simpl. rewrite hand_vector_snoc, <- Htv.
    destruct (length (cards_played_in_trick e ++ [card]) =? 1)%nat; reflexivity.
  - unfold after_agent_play. env_simpl.
    destruct (length (cards_played_in_trick e ++ [card]) =? 1)%nat; exact Htrump.
  - unfold after_agent_play, hand_of. env_simpl.
    rewrite hand_of_insert_eq by (rewrite Hh4; lia). fold (hand_of e 0).
    rewrite <- Hvec.
    destruct (length (cards_played_in_trick e ++ [card]) =? 1)%nat; reflexivity.
  - unfold after_agent_play. env_simpl.
    destruct (length (cards_played_in_trick e ++ [card]) =? 1)%nat; exact Hph.
  - unfold after_agent_play. env_simpl. rewrite length_app, Hn. cbn. lia.
  - intros q Hq. rewrite has_played_next by assumption. rewrite Hseat.
    unfold after_agent_play, hand_of. env_simpl.
    destruct (Nat.eqb_spec q 0) as [->|Hq0].
    + rewrite hand_of_insert_eq by (rewrite Hh4; lia). fold (hand_of e 0).
      specialize (Hsz 0%nat Hq). rewrite <- Hseat, has_played_turn in Hsz by assumption.
      rewrite Hseat in Hsz.
      apply Permutation_length in Hperm. cbn [length] in Hperm. lia.
    + rewrite hand_of_insert_ne by auto. apply Hsz. exact Hq.
  - unfold after_agent_play, dealt. env_simpl.
    destruct (length (cards_played_in_trick e ++ [card]) =? 1)%nat; exact Htr.
  - unfold after_agent_play. env_simpl.
    destruct (length (cards_played_in_trick e ++ [card]) =? 1)%nat; exact Hpos.
  - intros Hle. lia.
Qed.

(** ** The deal, in full *)

Lemma deal_cards_full (e : Env) :
  exists (deck2 : list Card) (hs : list (list Card)) (trump : option Card)
         (g : rng),
    _deal_cards e
    = (Ok tt,
       set_state
         (fun s =>
            put_trump_card (hand_vector (option_list trump))
              (put_hand (hand_vector (default [] (hs !! 0%nat))) s))
         (set_trump_card trump
            (set_hands hs (set_deck_rest deck2 (set_py_random g e)))))
    /\ map length hs = replicate 4 (dealt e)
    /\ deck2 ++ concat hs ++ option_list trump ≡ₚ _create_deck
    /\ (trump = None <-> dealt e = 15%nat).
Proof.
  pose proof (deal_cards_spec e) as H1.
  pose proof (deal_sizes e) as H2. cbv zeta in H2.
  unfold _deal_cards in *.
  destruct (shuffle _create_deck (py_random e)) as [deck g].
  destruct (deal_rounds _ _) as [deck1 hs].
  destruct (pop deck1) as [[c d]|].
  - exists d, hs, (Some c), g.
    destruct H1 as (e1 & [= <-] & Hperm & _).
    destruct H2 as (e2 & [= <-] & Hsz & Hnone & _).
    split; [|split; [exact Hsz | split; [exact Hperm | exact Hnone]]].
    change (option_list (Some c)) with [c]. rewrite hand_vector_single. reflexivity.
  - exists deck1, hs, None, g.
    destruct H1 as (e1 & [= <-] & Hperm & _).
    destruct H2 as (e2 & [= <-] & Hsz & Hnone & _).
    split; [|split; [exact Hsz | split; [exact Hperm | exact Hnone]]].
    reflexivity.
Qed.

Lemma sizes_hand_of (hs : list (list Card)) (k p : nat) :
  map length hs = replicate 4 k -> (p < 4)%nat ->
  length (default [] (hs !! p)) = k.
Proof.
  intros H Hp.
  destruct hs as [|h0 [|h1 [|h2 [|h3 [|h4 hs]]]]]; cbn in H; try discriminate H.
  injection H as H0 H1 H2 H3.
  destruct p as [|[|[|[|p]]]]; try assumption; exfalso; lia.
Qed.

Lemma sizes_length (hs : list (list Card)) (k : nat) :
  map length hs = replicate 4 k -> length hs = 4%nat.
Proof. intros H. rewrite <- (length_map length), H. reflexivity. Qed.

(** ** The bidding phase *)

Lemma valid_bids_below (e : Env) :
  s_round_number (state e) < DECK_SIZE ->
  forallb (fun b => b <? DECK_SIZE) (_get_valid_bids e) = true.
Proof.
  intros H. apply forallb_forall. intros b Hb.
  apply get_valid_bids_spec in Hb. apply Z.ltb_lt. lia.
Qed.

Lemma update_valid_actions_bidding (e : Env) :
  bidding_core e ->
  match _update_valid_actions e with
  | (Ok _, e') => bidding e'
  | (Raise x, e') =>
      x = IndexError /\ bidding e'
      /\ DECK_SIZE <= s_round_number (state e')
  end.
Proof.
  intros H. pose proof H as (_ & Hph & _).
  rewrite (update_valid_actions_bidding_spec e Hph).
  destruct (forallb _ (_get_valid_bids e)) eqn:Hall.
  - split; [exact H|]. intros _. reflexivity.
  - assert (Hrn : DECK_SIZE <= s_round_number (state e)).
    { destruct (Z.le_gt_cases DECK_SIZE (s_round_number (state e))) as [Hle|Hlt];
        [exact Hle|].
      rewrite valid_bids_below in Hall by lia. discriminate. }
    split; [reflexivity|]. split; [|exact Hrn].
    split; [exact H|]. intros Hlt. lia.
Qed.

Lemma bidding_core_set_bid (i : nat) (b : Z) (e : Env) :
  bidding_core e -> 0 <= b <= s_round_number (state e) ->
  bidding_core
    (set_state (fun s => put_player_bids (<[ i := b ]> (s_player_bids s)) s) e).
Proof.
  intros (Hst & Hph & Hl & Ht & Hsz & Htr & Hlead) Hb.
  destruct Hst as (Hrs & Hh4 & Hrn & Hpart & Hb4 & Hbr & Ht4 & Htv & Htrump & Hhand).
  unfold bidding_core, static_ok. split_all; try assumption.
  - cbn. now rewrite length_insert.
  - cbn. destruct (decide (i < length (s_player_bids (state e)))%nat) as [Hi|Hi].
    + apply Forall_insert; assumption.
    + rewrite list_insert_ge by lia. exact Hbr.
Qed.

Lemma remove_bid_incl (x b : Z) (l : list Z) : In b (remove_bid x l) -> In b l.
Proof.
  induction l as [|y l IH]; cbn; [tauto|].
  destruct (y =? x); cbn; tauto.
Qed.

Lemma simulate_bid_bidding (i : nat) :
  returns bidding_core (simulate_bid i) (fun _ => bidding_core).
Proof.
  intros e H. pose proof H as ((_ & _ & Hrn & _) & _).
  unfold simulate_bid, bind, get.
  match goal with |- context [choice ?a] => set (bids := a) end.
  assert (Hsub : forall b, In b bids -> 0 <= b <= s_round_number (state e)).
  { intros b Hb. subst bids.
    assert (In b (zrange (s_round_number (state e) + 1))) as Hz.
    { repeat match type of Hb with
             | In _ (if ?c then _ else _) => destruct c
             end; auto. eapply remove_bid_incl; eauto. }
    apply zrange_In in Hz. lia. }
  assert (Hne : bids <> []).
  { assert (Hl : (2 <= length (zrange (s_round_number (state e) + 1)))%nat)
      by (rewrite zrange_length; lia).
    subst bids. intros E.
    repeat match type of E with
           | (if ?c then _ else _) = _ => destruct c
           end;
      try (rewrite E in Hl; cbn in Hl; lia).
    pose proof (remove_bid_length
                  (s_round_number (state e) - zsum (s_player_bids (state e)))
                  (zrange (s_round_number (state e) + 1))) as Hr.
    rewrite E in Hr. cbn in Hr. lia. }
  destruct (choice_returns bids e Hne) as (b & g & -> & Hin).
  unfold set_bid, modify. eexists tt, _. split; [reflexivity|].
  apply bidding_core_set_bid; [exact H|]. apply Hsub. exact Hin.
Qed.

Lemma early_bid_bidding (i : nat) :
  returns bidding_core
    (let* e := get in
     let valid_bids := zrange (s_round_number (state e) + 1) in
     let* bid := choice valid_bids in
     set_bid i bid)
    (fun _ => bidding_core).
Proof.
  intros e H. pose proof H as ((_ & _ & Hrn & _) & _).
  unfold bind, get.
  destruct (choice_returns (zrange (s_round_number (state e) + 1)) e)
    as (b & g & -> & Hin).
  { intros E. apply (f_equal (@length Z)) in E. rewrite zrange_length in E.
    cbn in E. lia. }
  unfold set_bid, modify. eexists tt, _. split; [reflexivity|].
  apply bidding_core_set_bid; [exact H|]. apply zrange_In in Hin.
  cbn. lia.
Qed.

(** ** [reset] *)

Lemma reset_bidding (seed : option rng) (e : Env) :
  (round_starter e < 4)%nat ->
  exists e', reset seed e = (Ok tt, e') /\ bidding e'
             /\ s_round_number (state e') = 1
             /\ round_starter e' = round_starter e
             /\ s_player_scores (state e') = zeros 4
             /\ s_player_bids (state e') = zeros 4.
Proof.
  intros Hrs. unfold reset, bind, modify.
  match goal with |- context [_deal_cards ?x] => set (e1 := x) end.
  assert (Hrs1 : round_starter e1 = round_starter e)
    by (subst e1; destruct seed; reflexivity).
  assert (Hst1 : state e1 = initial_state) by reflexivity.
  assert (Htl1 : trick_leader e1 = round_starter e)
    by (subst e1; destruct seed; reflexivity).
  assert (Htk1 : cards_played_in_trick e1 = []) by reflexivity.
  clearbody e1.
  pose proof (deal_cards_partition e1) as Hpart.
  destruct (deal_cards_full e1) as (deck2 & hs & trump & g & E & Hsz & Hperm & _).
  rewrite E in Hpart |- *. cbn [snd] in Hpart.
  match goal with |- context [_update_valid_actions ?x] => set (e2 := x) in * end.
  assert (Hcore : bidding_core e2).
  { unfold bidding_core, static_ok. subst e2. split_all.
    - cbn. rewrite Hrs1. exact Hrs.
    - cbn. eapply sizes_length; eauto.
    - cbn. rewrite Hst1. cbn. lia.
    - apply Hpart; rewrite Hst1; [reflexivity | apply zeros_clear].
    - cbn. rewrite Hst1. reflexivity.
    - cbn. rewrite Hst1. cbn. repeat constructor; lia.
    - cbn. rewrite Hst1. reflexivity.
    - cbn. rewrite Hst1, Htk1. reflexivity.
    - reflexivity.
    - reflexivity.
    - cbn. rewrite Hst1. reflexivity.
    - cbn. rewrite Htl1. exact Hrs.
    - exact Htk1.
    - intros p Hp. unfold hand_of. cbn [hands set_state set_trump_card set_hands].
      rewrite (sizes_hand_of hs _ p Hsz Hp). unfold dealt. cbn [state set_state].
      reflexivity.
    - cbn. rewrite Hst1. reflexivity.
    - cbn. rewrite Hst1. reflexivity. }
  pose proof (update_valid_actions_bidding e2 Hcore) as Hu.
  assert (Hrn2 : s_round_number (state e2) = 1)
    by (subst e2; cbn; rewrite Hst1; reflexivity).
  assert (Hfr : forall e3 r, _update_valid_actions e2 = (r, e3) ->
            s_round_number (state e3) = 1
            /\ round_starter e3 = round_starter e
            /\ s_player_scores (state e3) = zeros 4
            /\ s_player_bids (state e3) = zeros 4).
  { intros e3 r. unfold _update_valid_actions.
    destruct (s_phase (state e2) =? 0); [destruct (forallb _ _)|];
      intros [= _ <-]; subst e2; cbn; rewrite ?Hst1, ?Hrs1; auto. }
  destruct (_update_valid_actions e2) as [[[]|x] e3] eqn:Eu.
  - exists e3. split; [reflexivity|]. split; [exact Hu|]. eapply Hfr; eauto.
  - destruct Hu as (_ & _ & Hge). destruct (Hfr e3 _ eq_refl) as [Hr _].
    unfold DECK_SIZE in Hge. lia.
Qed.

(** ** Running a sequence *)

Lemma bind_Ok_eq {A B : Type} (m : M A) (k : A -> M B) (e e1 : Env) (a : A) :
  m e = (Ok a, e1) -> bind m k e = k a e1.
Proof. intros E. unfold bind. now rewrite E. Qed.

Lemma bind_Raise_eq {A B : Type} (m : M A) (k : A -> M B) (e e1 : Env) (x : exn) :
  m e = (Raise x, e1) -> bind m k e = (Raise x, e1).
Proof. intros E. unfold bind. now rewrite E. Qed.

Lemma bind_get_eq {B : Type} (k : Env -> M B) (e : Env) : bind get k e = k e e.
Proof. reflexivity. Qed.

Lemma returns_conj {A : Type} (P1 P2 : Env -> Prop) (Q1 Q2 : A -> Env -> Prop)
    (m : M A) :
  returns P1 m Q1 -> returns P2 m Q2 ->
  returns (fun e => P1 e /\ P2 e) m (fun a e => Q1 a e /\ Q2 a e).
Proof.
  intros H1 H2 e [Hp1 Hp2].
  destruct (H1 e Hp1) as (a & e' & E & Hq1).
  destruct (H2 e Hp2) as (a' & e'' & E' & Hq2).
  rewrite E in E'. injection E' as <- <-. exists a, e'. auto.
Qed.

(** ** The two loops of a trick *)

Lemma play_frame_after_play (p : nat) (card : Card) (hand' : list Card)
    (g : rng) (e : Env) :
  play_frame (after_play p card hand' (set_np_random g e)) = play_frame e.
Proof. reflexivity. Qed.

Lemma loop_before_agent (L k : nat) (e : Env) :
  (1 <= k)%nat -> in_trick L k 0 e ->
  exists e',
    simulate_until NUM_PLAYERS (fun _ => 0%nat) L e = (Ok tt, e')
    /\ in_trick L k (agent_pos L) e' /\ play_frame e' = play_frame e.
Proof.
  intros Hk He. pose proof He as (_ & _ & _ & HL & _).
  destruct (agent_pos_seat L HL) as [Hseat Hap].
  destruct (simulate_loop play_frame L k (agent_pos L) 0 (play_frame e)
              (fun _ => 0%nat) play_frame_after_play HL Hk) with
    (d := agent_pos L) (n := 0%nat) (fuel := NUM_PLAYERS) (e := e)
    as ([] & e' & E & H1 & H2); auto; try (unfold NUM_PLAYERS; lia).
  - intros j Hj. split; apply before_agent_nonzero; auto; lia.
  - rewrite Nat.add_0_r, Nat.mod_small in E by exact HL. eauto.
Qed.

Lemma loop_after_agent (L k : nat) (e : Env) :
  (1 <= k)%nat -> in_trick L k (S (agent_pos L)) e ->
  exists e',
    simulate_until NUM_PLAYERS trick_leader (_get_next_player 0) e = (Ok tt, e')
    /\ in_trick L k 4 e' /\ play_frame e' = play_frame e.
Proof.
  intros Hk He. pose proof He as (_ & _ & _ & HL & _).
  destruct (agent_pos_seat L HL) as [Hseat Hap].
  destruct (simulate_loop play_frame L k 4 L (play_frame e)
              trick_leader play_frame_after_play HL Hk) with
    (d := (3 - agent_pos L)%nat) (n := S (agent_pos L)) (fuel := NUM_PLAYERS)
    (e := e)
    as ([] & e' & E & H1 & H2); auto; try (unfold NUM_PLAYERS; lia).
  - intros n e0 (_ & _ & Hl & _). exact Hl.
  - clear -HL. seat_split HL; reflexivity.
  - intros j Hj. destruct (after_agent_nonzero L j HL) as [H0 H1]; [lia | lia |].
    auto.
  - assert (Hs : ((L + S (agent_pos L)) mod 4)%nat = _get_next_player 0)
      by (clear -HL; seat_split HL; reflexivity).
    rewrite Hs in E. eauto.
Qed.

(** ** The end of a trick *)

Lemma zsum_alter (w : nat) (v : list Z) :
  (w < length v)%nat -> zsum (alter (fun t => t + 1) w v) = zsum v + 1.
Proof.
  revert w. induction v as [|x v IH]; intros w Hw; cbn in Hw; [lia|].
  destruct w as [|w]; cbn.
  - lia.
  - change (x + zsum (alter (fun t => t + 1) w v) = x + zsum v + 1).
    rewrite IH by lia. lia.
Qed.

Lemma zsum_fill0 (v : list Z) : zsum (fill0 v) = 0.
Proof. induction v as [|x v IH]; cbn; [reflexivity|]. exact IH. Qed.

Lemma evaluate_trick_winner (e : Env) :
  (trick_leader e < 4)%nat -> cards_played_in_trick e <> [] ->
  exists w, _evaluate_trick e = (Ok w, e) /\ (w < 4)%nat.
Proof.
  intros HL Hne.
  destruct (trick_winner_in_trick (trick_leader e) (trump_card e)
              (cards_played_in_trick e) HL Hne)
    as (i & c & _ & E & Hw & _).
  unfold _evaluate_trick. rewrite E. eauto.
Qed.

Lemma finish_trick_spec (L k : nat) (e : Env) :
  in_trick L k 4 e -> (1 <= k)%nat ->
  exists r w e',
    _finish_trick e = (Ok r, e')
    /\ in_trick w (k - 1) 0 e'
    /\ s_valid_actions (state e') = s_hand (state e')
    /\ s_round_number (state e') = s_round_number (state e)
    /\ round_starter e' = round_starter e
    /\ hands e' = hands e
    /\ s_player_tricks (state e')
       = alter (fun t => t + 1) w (s_player_tricks (state e))
    /\ s_player_bids (state e') = s_player_bids (state e)
    /\ s_player_scores (state e') = s_player_scores (state e)
    /\ _evaluate_trick e = (Ok w, e).
Proof.
  intros He Hk. pose proof He as (Hst & Hph & Hl & HL & Hn & Hsz & Htr & Hpos & Hlead).
  destruct Hst as (Hrs & Hh4 & Hrn & Hpart & Hb4 & Hbr & Ht4 & Htv & Htrump & Hhand).
  destruct (evaluate_trick_winner e) as (w & Ew & Hw).
  { rewrite Hl. exact HL. }
  { intros E. rewrite E in Hn. discriminate. }
  pose proof (keeps_piles_partition _ finish_trick_keeps_piles e Hpart) as Hpart'.
  unfold _finish_trick in *. rewrite (bind_Ok_eq _ _ _ _ _ Ew) in *.
  rewrite bind_get_eq in *. unfold bind at 1 in Hpart'. unfold bind at 1.
  unfold modify in *.
  match goal with |- context [bind _update_valid_actions _ ?x] => set (e1 := x) in * end.
  assert (Hph1 : s_phase (state e1) <> 0) by (subst e1; cbn; rewrite Hph; lia).
  rewrite (bind_Ok_eq _ _ _ _ _ (update_valid_actions_playing_spec e1 Hph1)) in *.
  rewrite legal_cards_empty_trick in * by reflexivity.
  unfold ret in *. cbn [snd] in Hpart'.
  eexists _, w, _. split; [reflexivity|].
  split; [|subst e1; split_all; try reflexivity; try assumption].
  2: { cbn. rewrite Hhand. reflexivity. }
  unfold in_trick, static_ok. split_all; try assumption; try reflexivity.
  - subst e1. cbn. now rewrite length_alter.
  - subst e1. cbn. rewrite Htv, fill0_zeros by apply hand_vector_length.
    symmetry. apply hand_vector_nil.
  - intros p Hp. rewrite has_played_none. specialize (Hsz p Hp).
    rewrite has_played_all in Hsz by assumption.
    change (hand_of _ p) with (hand_of e p). lia.
  - subst e1. unfold dealt in *. cbn. rewrite zsum_alter by lia. lia.
  - subst e1. cbn. apply position_of_leader. exact Hw.
Qed.

Lemma all_hands_empty (hs : list (list Card)) (m : nat) :
  length hs = 4%nat ->
  (forall p, (p < 4)%nat -> length (default [] (hs !! p)) = m) ->
  forallb (fun hand => (length hand =? 0)%nat) hs = (m =? 0)%nat.
Proof.
  intros Hl H.
  destruct hs as [|h0 [|h1 [|h2 [|h3 [|h4 hs]]]]]; try discriminate Hl.
  pose proof (H 0%nat ltac:(lia)) as H0. pose proof (H 1%nat ltac:(lia)) as H1.
  pose proof (H 2%nat ltac:(lia)) as H2. pose proof (H 3%nat ltac:(lia)) as H3.
  cbn in H0, H1, H2, H3. cbn [forallb]. rewrite H0, H1, H2, H3.
  destruct (m =? 0)%nat; reflexivity.
Qed.

(** ** The end of a round *)

Lemma score_seats_frame (ps : list nat) (s : State) :
  fold_left score_seat ps s
  = put_player_scores (s_player_scores (fold_left score_seat ps s)) s.
Proof.
  revert s. induction ps as [|p ps IH]; intros s; cbn [fold_left].
  - destruct s; reflexivity.
  - rewrite IH. unfold score_seat at 2 4. destruct s; reflexivity.
Qed.

Lemma finish_round_spec (w : nat) (e : Env) :
  in_trick w 0 0 e ->
  match _finish_round e with
  | (Ok _, e') =>
      bidding e'
      /\ s_round_number (state e') = s_round_number (state e) + 1
      /\ round_starter e' = ((round_starter e + 1) mod NUM_PLAYERS)%nat
  | (Raise x, e') =>
      x = IndexError /\ bidding e'
      /\ DECK_SIZE <= s_round_number (state e')
      /\ s_round_number (state e') = s_round_number (state e) + 1
      /\ round_starter e' = ((round_starter e + 1) mod NUM_PLAYERS)%nat
  end.
Proof.
  intros (Hst & Hph & Hl & HL & Hn & Hsz & Htr & Hpos & Hlead).
  destruct Hst as (Hrs & Hh4 & Hrn & Hpart & Hb4 & Hbr & Ht4 & Htv & Htrump & Hhand).
  assert (Htk : cards_played_in_trick e = [])
    by (destruct (cards_played_in_trick e); [reflexivity | discriminate]).
  unfold _finish_round. rewrite bind_get_eq. unfold bind at 1. unfold modify.
  rewrite (score_seats_frame (seq 0 NUM_PLAYERS) (state e)).
  set (sc := s_player_scores (fold_left score_seat (seq 0 NUM_PLAYERS) (state e))).
  match goal with |- context [bind _deal_cards _ ?x] => set (e1 := x) end.
  assert (Hrn1 : s_round_number (state e1) = s_round_number (state e) + 1)
    by reflexivity.
  assert (Hrs1 : round_starter e1 = ((round_starter e + 1) mod NUM_PLAYERS)%nat)
    by reflexivity.
  pose proof (deal_cards_partition e1) as Hpart1.
  destruct (deal_cards_full e1) as (deck2 & hs & trump & g & E & Hsizes & Hperm & _).
  rewrite (bind_Ok_eq _ _ _ _ _ E). rewrite E in Hpart1. cbn [snd] in Hpart1.
  match goal with |- context [bind _update_valid_actions _ ?x] => set (e2 := x) in * end.
  assert (Hm4 : ((round_starter e + 1) mod NUM_PLAYERS < 4)%nat)
    by (apply Nat.mod_upper_bound; unfold NUM_PLAYERS; lia).
  assert (Hcore : bidding_core e2).
  { unfold bidding_core, static_ok. split_all.
    - exact Hm4.
    - subst e2. cbn. eapply sizes_length; eauto.
    - change (1 <= s_round_number (state e) + 1). lia.
    - apply Hpart1.
      + subst e1. cbn. rewrite fill0_length. apply Hpart.
      + subst e1. cbn. apply fill0_clear.
    - subst e2 e1. cbn. now rewrite fill0_length.
    - subst e2 e1. cbn. apply Forall_forall. intros b Hb.
      pose proof (fill0_clear (s_player_bids (state e))) as Hz.
      rewrite Forall_forall in Hz. rewrite (Hz b Hb). lia.
    - subst e2 e1. cbn. now rewrite fill0_length.
    - subst e2 e1. cbn. rewrite Htv, Htk. reflexivity.
    - reflexivity.
    - reflexivity.
    - reflexivity.
    - exact Hm4.
    - exact Htk.
    - intros p Hp. unfold hand_of. subst e2. cbn [hands set_state set_trump_card set_hands].
      rewrite (sizes_hand_of hs _ p Hsizes Hp). reflexivity.
    - subst e2 e1. cbn. apply zsum_fill0.
    - subst e2 e1. cbn. rewrite Hlead by lia. rewrite Htk. reflexivity. }
  pose proof (update_valid_actions_bidding e2 Hcore) as Hu.
  assert (Hfr : forall e3 (r : result unit), _update_valid_actions e2 = (r, e3) ->
            s_round_number (state e3) = s_round_number (state e) + 1
            /\ round_starter e3 = ((round_starter e + 1) mod NUM_PLAYERS)%nat).
  { intros e3 r. unfold _update_valid_actions.
    destruct (s_phase (state e2) =? 0); [destruct (forallb _ _)|];
      intros [= _ <-]; split; reflexivity. }
  unfold bind. destruct (_update_valid_actions e2) as [[[]|x] e3] eqn:Eu.
  - unfold ret. destruct (Hfr e3 _ eq_refl). auto.
  - destruct (Hfr e3 _ eq_refl). destruct Hu as (? & ? & ?). auto.
Qed.

(** ** The bids before the agent, with the round they belong to *)

Lemma update_valid_actions_frame (e e' : Env) (r : result unit) :
  _update_valid_actions e = (r, e') ->
  s_round_number (state e') = s_round_number (state e)
  /\ round_starter e' = round_starter e.
Proof.
  unfold _update_valid_actions.
  destruct (s_phase (state e) =? 0); [destruct (forallb _ _)|];
    intros [= _ <-]; split; reflexivity.
Qed.

Lemma early_bid_frame (n ph : Z) (st i : nat) :
  returns (fun e => bidding_core e /\ round_frame n ph st e)
    (let* e := get in
     let valid_bids := zrange (s_round_number (state e) + 1) in
     let* bid := choice valid_bids in
     set_bid i bid)
    (fun _ e => bidding_core e /\ round_frame n ph st e).
Proof.
  intros e [H Hf]. destruct (early_bid_bidding i e H) as (u & e' & E & H').
  exists u, e'. split; [exact E|]. split; [exact H'|].
  revert E. unfold bind, get.
  pose proof H as ((_ & _ & Hrn & _) & _).
  destruct (choice_returns (zrange (s_round_number (state e) + 1)) e)
    as (b & g & -> & Hin).
  { intros E. apply (f_equal (@length Z)) in E. rewrite zrange_length in E.
    cbn in E. lia. }
  unfold set_bid, modify. intros [= _ <-]. exact Hf.
Qed.

Lemma play_until_agent_turn_bidding_frame (e : Env) :
  bidding_core e ->
  match _play_until_agent_turn e with
  | (Ok _, e') =>
      bidding e'
      /\ s_round_number (state e') = s_round_number (state e)
      /\ round_starter e' = round_starter e
  | (Raise x, e') =>
      x = IndexError /\ bidding e'
      /\ DECK_SIZE <= s_round_number (state e')
      /\ s_round_number (state e') = s_round_number (state e)
      /\ round_starter e' = round_starter e
  end.
Proof.
  intros H. pose proof H as (_ & Hph & _).
  unfold _play_until_agent_turn. rewrite bind_get_eq, Hph. cbn [Z.eqb].
  set (P := fun x => bidding_core x
                     /\ round_frame (s_round_number (state e)) 0 (round_starter e) x).
  assert (Hr : returns P
                 (if negb (round_starter e =? 0)%nat
                  then for_each (seat_range (round_starter e) NUM_PLAYERS)
                         (fun i =>
                            let* e := get in
                            let valid_bids := zrange (s_round_number (state e) + 1) in
                            let* bid := choice valid_bids in
                            set_bid i bid)
                  else ret tt) (fun _ => P)).
  { destruct (negb (round_starter e =? 0)%nat).
    - apply returns_for_each. intros i. apply early_bid_frame.
    - intros x Hx. exists tt, x. auto. }
  destruct (Hr e) as ([] & e1 & E1 & Hc1 & Hrn1 & _ & Hrs1).
  { split; [exact H|]. repeat split; assumption. }
  rewrite (bind_Ok_eq _ _ _ _ _ E1).
  pose proof (update_valid_actions_bidding e1 Hc1) as Hu.
  destruct (_update_valid_actions e1) as [[[]|x] e2] eqn:Eu;
    destruct (update_valid_actions_frame _ _ _ Eu) as [F1 F2];
    rewrite <- Hrn1, <- Hrs1, <- F1, <- F2.
  - auto.
  - destruct Hu as (? & ? & ?). auto.
Qed.

(** ** One call of [step] *)

Lemma agent_hand_size (L k : nat) (e : Env) :
  in_trick L k (agent_pos L) e -> length (hand_of e 0) = k.
Proof.
  intros (_ & _ & _ & HL & _ & Hsz & _).
  destruct (agent_pos_seat L HL) as [Hseat Hap].
  specialize (Hsz 0%nat ltac:(lia)).
  rewrite <- Hseat, has_played_turn in Hsz by assumption.
  rewrite Hseat in Hsz. lia.
Qed.

Lemma after_agent_play_frame (hand_idx : nat) (card : Card) (e : Env) :
  s_round_number (state (after_agent_play hand_idx card e))
  = s_round_number (state e)
  /\ round_starter (after_agent_play hand_idx card e) = round_starter e.
Proof.
  unfold after_agent_play. cbn.
  destruct (length (cards_played_in_trick e ++ [card]) =? 1)%nat; split; reflexivity.
Qed.

Lemma dealt_pos (e : Env) : 1 <= s_round_number (state e) -> (1 <= dealt e)%nat.
Proof. intros H. unfold dealt. lia. Qed.

Lemma returns_for_each_in {A : Type} (P : Env -> Prop) (xs : list A)
    (body : A -> M unit) :
  (forall x, In x xs -> returns P (body x) (fun _ => P)) ->
  returns P (for_each xs body) (fun _ => P).
Proof.
  induction xs as [|y ys IH]; intros Hb; cbn [for_each].
  - intros e H. exists tt, e. auto.
  - apply (returns_bind _ (fun _ => P)); [apply Hb; now left|].
    intros _. apply IH. intros x Hx. apply Hb. now right.
Qed.

Lemma returns_preserves_conj {A : Type} (P1 P2 : Env -> Prop)
    (Q : A -> Env -> Prop) (m : M A) :
  returns P1 m Q -> preserves P2 m ->
  returns (fun e => P1 e /\ P2 e) m (fun a e => Q a e /\ P2 e).
Proof.
  intros Hr Hp e [H1 H2]. specialize (Hp e H2).
  destruct (Hr e H1) as (a & e' & E & Hq). rewrite E in Hp. eauto.
Qed.

Lemma choice_state {A : Type} (a : list A) (e : Env) :
  state (snd (choice a e)) = state e.
Proof.
  unfold choice. destruct (randbelow _ _) as [i g].
  destruct (a !! i); reflexivity.
Qed.

Lemma simulate_bid_keeps_agent_bid (i : nat) (a : Z) :
  i <> 0%nat ->
  preserves (fun e => item (s_player_bids (state e)) 0 = a) (simulate_bid i).
Proof.
  intros Hi e H. unfold simulate_bid. rewrite bind_get_eq. unfold bind.
  match goal with |- context [choice ?l e] => pose proof (choice_state l e) as Hc;
    destruct (choice l e) as [[b|x] e1] end; cbn [snd] in Hc |- *.
  - unfold set_bid, modify. cbn. rewrite Hc. unfold item.
    rewrite list_lookup_insert_ne by exact Hi. exact H.
  - rewrite Hc. exact H.
Qed.

Lemma item_insert_0 (b : Z) (v : list Z) :
  v <> [] -> item (<[ 0%nat := b ]> v) 0 = b.
Proof. destruct v; [congruence | reflexivity]. Qed.

Lemma step_bidding_spec (action : Z) (e : Env) :
  bidding e -> In action (_get_valid_bids e) ->
  exists e',
    step action e = (Ok (0%Q, false), e')
    /\ at_turn e'
    /\ s_round_number (state e') = s_round_number (state e)
    /\ round_starter e' = round_starter e
    /\ item (s_player_bids (state e')) 0 = action
    /\ trick_leader e' = round_starter e.
Proof.
  intros [H _] Hin. pose proof H as (Hst & Hph & _).
  pose proof Hst as (Hrs & _ & Hrn & _).
  unfold step. rewrite bind_get_eq, Hph. cbn [Z.eqb].
  rewrite (bind_Ok_eq _ _ _ _ _ (process_bid_accepts e action Hin)).
  match goal with |- context [bind (for_each _ _) _ ?x] => set (e1 := x) end.
  assert (H1 : bidding_core e1).
  { apply bidding_core_set_bid; [exact H|]. now apply get_valid_bids_spec. }
  set (P := fun x => (bidding_core x
                      /\ round_frame (s_round_number (state e)) 0 (round_starter e) x)
                     /\ item (s_player_bids (state x)) 0 = action).
  assert (Hr : returns P
                 (for_each
                    (if negb (round_starter e =? 0)%nat
                     then seat_range 1 (round_starter e)
                     else seat_range 1 NUM_PLAYERS) simulate_bid) (fun _ => P)).
  { apply returns_for_each_in. intros i Hi.
    apply returns_preserves_conj.
    - apply returns_conj; [apply simulate_bid_bidding|].
      apply simulate_bid_returns. exact Hrn.
    - apply simulate_bid_keeps_agent_bid.
      destruct (negb (round_starter e =? 0)%nat); apply in_seq in Hi; lia. }
  destruct (Hr e1) as ([] & e2 & E2 & (H2 & Hrn2 & _ & Hrs2) & Hbid2).
  { split; [split; [exact H1|]; repeat split; reflexivity || assumption|].
    subst e1. cbn. apply item_insert_0.
    destruct Hst as (_ & _ & _ & _ & Hb4 & _).
    intros E. rewrite E in Hb4. discriminate. }
  rewrite (bind_Ok_eq _ _ _ _ _ E2). unfold bind at 1. unfold modify.
  match goal with |- context [bind _update_valid_actions _ ?x] => set (e3 := x) end.
  assert (Hph3 : s_phase (state e3) <> 0) by (subst e3; cbn; lia).
  rewrite (bind_Ok_eq _ _ _ _ _ (update_valid_actions_playing_spec e3 Hph3)).
  assert (Htk3 : cards_played_in_trick e3 = []) by apply H2.
  rewrite legal_cards_empty_trick by exact Htk3.
  match goal with |- context [bind _play_until_agent_turn _ ?x] => set (e4 := x) end.
  assert (H4 : in_trick (round_starter e) (dealt e2) 0 e4).
  { destruct H2 as (Hst2 & Hph2 & Hl2 & Htk2 & Hsz2 & Htr2 & Hlead2).
    unfold in_trick. split_all.
    - exact Hst2.
    - reflexivity.
    - subst e4 e3. cbn. exact Hrs2.
    - exact Hrs.
    - change (length (cards_played_in_trick e2) = 0%nat). now rewrite Htk2.
    - intros p Hp. rewrite has_played_none.
      change (hand_of e4 p) with (hand_of e2 p). rewrite (Hsz2 p Hp). lia.
    - change (zsum (s_player_tricks (state e2)) + Z.of_nat (dealt e2)
              = Z.of_nat (dealt e2)). lia.
    - subst e4 e3. cbn. rewrite Hrs2. apply position_of_leader. exact Hrs.
    - intros _. subst e4 e3. cbn. rewrite Hlead2, Htk2. reflexivity. }
  assert (Hk : (1 <= dealt e2)%nat) by (apply dealt_pos; lia).
  destruct (loop_before_agent _ _ e4 Hk H4) as (e5 & E5 & H5 & Hf5).
  assert (E5' : _play_until_agent_turn e4 = (Ok tt, e5)).
  { unfold _play_until_agent_turn. rewrite bind_get_eq.
    assert (Hph4 : s_phase (state e4) = 1) by reflexivity.
    rewrite Hph4. cbn [Z.eqb].
    assert (Hl4 : trick_leader e4 = round_starter e) by (subst e4 e3; cbn; exact Hrs2).
    rewrite Hl4. exact E5. }
  rewrite (bind_Ok_eq _ _ _ _ _ E5'). unfold ret.
  exists e5. split; [reflexivity|].
  injection Hf5 as Hm5 Hh5 Hn5 Hs5 Hb5 _.
  split_all.
  - exists (dealt e2). split; [exact Hk|].
    assert (Hl5 : trick_leader e5 = round_starter e) by apply H5.
    rewrite Hl5. split; [exact H5|].
    rewrite Hm5, Hh5. subst e4. cbn [state set_state s_valid_actions s_hand put_valid_actions].
    symmetry. apply H4.
  - rewrite Hn5. exact Hrn2.
  - rewrite Hs5. subst e4 e3. cbn. exact Hrs2.
  - rewrite Hb5. exact Hbid2.
  - apply H5.
Qed.

Lemma step_playing_spec (action : Z) (e : Env) :
  at_turn e -> holds_card e action ->
  match step action e with
  | (Ok (r, done), e') =>
      (at_turn e'
       /\ s_round_number (state e') = s_round_number (state e)
       /\ round_starter e' = round_starter e
       /\ done = false
       /\ (1 < length (hand_of e 0))%nat
       /\ zsum (s_player_tricks (state e'))
          = zsum (s_player_tricks (state e)) + 1
       /\ S (length (hand_of e' 0)) = length (hand_of e 0))
      \/ (bidding e'
          /\ s_round_number (state e') = s_round_number (state e) + 1
          /\ round_starter e' = ((round_starter e + 1) mod NUM_PLAYERS)%nat
          /\ done = (s_round_number (state e') >? MAX_ROUND)
          /\ length (hand_of e 0) = 1%nat)
  | (Raise x, e') =>
      x = IndexError /\ bidding e'
      /\ DECK_SIZE <= s_round_number (state e')
      /\ s_round_number (state e') = s_round_number (state e) + 1
      /\ length (hand_of e 0) = 1%nat
  end.
Proof.
  intros (k & Hk & Hin & Hmask) Hholds.
  set (L := trick_leader e) in *.
  pose proof Hin as (_ & Hph & _ & HL & _ & _ & Htr & _).
  pose proof (agent_hand_size L k e Hin) as Hk0.
  destruct (process_play_spec e action Hph Hholds) as (idx & card & _ & Hidx & E1).
  pose proof (in_trick_after_agent_play L k idx card e Hin Hidx) as H1.
  destruct (after_agent_play_frame idx card e) as [Hrn1 Hrs1].
  set (e1 := after_agent_play idx card e) in *. clearbody e1.
  destruct (loop_after_agent L k e1 Hk H1) as (e2 & E2 & H2 & Hf2).
  injection Hf2 as _ _ Hrn2 Hrs2 _ _.
  destruct (finish_trick_spec L k e2 H2 Hk)
    as (r & w & e3 & E3 & H3 & Hm3 & Hrn3 & Hrs3 & _).
  unfold step. rewrite bind_get_eq, Hph. cbn [Z.eqb Pos.eqb].
  rewrite (bind_Ok_eq _ _ _ _ _ E1), (bind_Ok_eq _ _ _ _ _ E2),
    (bind_Ok_eq _ _ _ _ _ E3), bind_get_eq.
  assert (Hh3 : length (hands e3) = 4%nat) by apply H3.
  assert (Hs3 : forall p, (p < 4)%nat ->
                  length (default [] (hands e3 !! p)) = (k - 1)%nat).
  { intros p Hp. destruct H3 as (_ & _ & _ & _ & _ & Hsz & _).
    specialize (Hsz p Hp). rewrite has_played_none in Hsz.
    unfold hand_of in Hsz. lia. }
  rewrite (all_hands_empty (hands e3) (k - 1) Hh3 Hs3).
  assert (Hrn03 : s_round_number (state e3) = s_round_number (state e))
    by congruence.
  assert (Hrs03 : round_starter e3 = round_starter e) by congruence.
  destruct (Nat.eqb_spec (k - 1) 0) as [Hz|Hnz].
  - rewrite Hz in H3. pose proof (finish_round_spec w e3 H3) as H4.
    assert (Hone : length (hand_of e 0) = 1%nat) by lia.
    destruct (_finish_round e3) as [[r4|x] e4] eqn:E4.
    + rewrite (bind_Ok_eq _ _ _ _ _ E4), bind_get_eq.
      destruct H4 as (H4 & Hrn4 & Hrs4).
      destruct (s_round_number (state e4) >? MAX_ROUND) eqn:Hd.
      * unfold ret. right. rewrite Hd, Hrn4, Hrs4, Hrn03, Hrs03. auto.
      * pose proof (play_until_agent_turn_bidding_frame e4 (proj1 H4)) as H5.
        destruct (_play_until_agent_turn e4) as [[[]|x] e5] eqn:E5.
        -- rewrite (bind_Ok_eq _ _ _ _ _ E5). unfold ret.
           destruct H5 as (H5 & Hrn5 & Hrs5). right.
           rewrite Hrn5, Hrs5, Hd, Hrn4, Hrs4, Hrn03, Hrs03. auto.
        -- rewrite (bind_Raise_eq _ _ _ _ _ E5).
           destruct H5 as (-> & H5 & Hge & Hrn5 & Hrs5).
           split; [reflexivity|]. split; [exact H5|]. split; [exact Hge|].
           rewrite Hrn5, Hrn4, Hrn03. auto.
    + rewrite (bind_Raise_eq _ _ _ _ _ E4).
      destruct H4 as (-> & H4 & Hge & Hrn4 & Hrs4).
      split; [reflexivity|]. split; [exact H4|]. split; [exact Hge|].
      rewrite Hrn4, Hrn03. auto.
  - assert (Hk1 : (1 <= k - 1)%nat) by lia.
    destruct (loop_before_agent w (k - 1) e3 Hk1 H3) as (e4 & E4 & H4 & Hf4).
    assert (E4' : _play_until_agent_turn e3 = (Ok tt, e4)).
    { unfold _play_until_agent_turn. rewrite bind_get_eq.
      assert (Hph3 : s_phase (state e3) = 1) by apply H3.
      assert (Hl3 : trick_leader e3 = w) by apply H3.
      rewrite Hph3, Hl3. cbn [Z.eqb Pos.eqb]. exact E4. }
    rewrite (bind_Ok_eq _ _ _ _ _ E4'). unfold ret. left.
    injection Hf4 as Hm4 Hh4 Hrn4 Hrs4 _ _.
    assert (Hl4 : trick_leader e4 = w) by apply H4.
    split_all.
    + exists (k - 1)%nat. split; [exact Hk1|]. rewrite Hl4.
      split; [exact H4|]. congruence.
    + congruence.
    + congruence.
    + reflexivity.
    + lia.
    + destruct H4 as (_ & _ & _ & _ & _ & _ & Htr4 & _).
      unfold dealt in *. rewrite Hrn4, Hrn03 in Htr4. lia.
    + rewrite (agent_hand_size w (k - 1) e4 H4). lia.
Qed.

(** ** The invariant of a game *)

Lemma step_game_inv (action : Z) (e : Env) :
  game_inv e -> game_inv (snd (step action e)).
Proof.
  intros [Hb | Ht].
  - destruct (in_dec Z.eq_dec action (_get_valid_bids e)) as [Hin|Hout].
    + destruct (step_bidding_spec action e Hb Hin) as (e' & -> & H & _).
      right. exact H.
    + rewrite (bidding_step_rejects e action); [left; exact Hb | apply Hb | exact Hout].
  - assert (Hph : s_phase (state e) = 1).
    { destruct Ht as (k & _ & Hin & _). apply Hin. }
    destruct (process_play_cases e action Hph) as [[Hh _] | [Hn E]].
    + pose proof (step_playing_spec action e Ht Hh) as H.
      destruct (step action e) as [[[r done]|x] e']; cbn [snd].
      * destruct H as [H | H]; [right | left]; apply H.
      * left. apply H.
    + assert (Es : step action e = (Raise ValueError, e)).
      { unfold step. rewrite bind_get_eq, Hph. cbn [Z.eqb Pos.eqb].
        apply bind_Raise_eq. exact E. }
      rewrite Es. right. exact Ht.
Qed.

Lemma reachable_game_inv (e : Env) : reachable e -> game_inv e.
Proof.
  induction 1 as [np0 py0 | e seed _ IH | e action _ IH].
  - unfold __init__.
    destruct (reset_bidding None (mkEnv initial_state [] None [] 0 0 np0 py0 []))
      as (e' & -> & H & _); [cbn; lia|].
    left. exact H.
  - assert (Hrs : (round_starter e < 4)%nat).
    { destruct IH as [[H _] | (k & _ & H & _)]; apply H. }
    destruct (reset_bidding seed e Hrs) as (e' & -> & H & _).
    left. exact H.
  - apply step_game_inv. exact IH.
Qed.

Lemma game_inv_static (e : Env) : game_inv e -> static_ok e.
Proof. intros [[H _] | (k & _ & H & _)]; apply H. Qed.

Lemma game_inv_phase (e : Env) :
  game_inv e ->
  (s_phase (state e) = 0 /\ bidding e) \/ (s_phase (state e) = 1 /\ at_turn e).
Proof.
  intros [H | H]; [left | right]; (split; [|exact H]).
  - apply H.
  - destruct H as (k & _ & H & _). apply H.
Qed.

Lemma game_inv_bidding (e : Env) :
  game_inv e -> s_phase (state e) = 0 -> bidding e.
Proof.
  intros H Hph. destruct (game_inv_phase e H) as [[_ Hb] | [Hp _]];
    [exact Hb | rewrite Hph in Hp; discriminate].
Qed.

Lemma game_inv_at_turn (e : Env) :
  game_inv e -> s_phase (state e) = 1 -> at_turn e.
Proof.
  intros H Hph. destruct (game_inv_phase e H) as [[Hp _] | [_ Ht]];
    [rewrite Hph in Hp; discriminate | exact Ht].
Qed.

Lemma item_hand_vector_NoDup (h : list Card) (c : Card) :
  NoDup h ->
  item (hand_vector h) (slot c) = if existsb (card_eqb c) h then 1 else 0.
Proof. intros Hnd. rewrite item_hand_vector. now apply occurrences_NoDup. Qed.

(** X15. Between two calls the game is well formed: the phase is 0 or 1,
    the round starter and the trick leader are seats, there are four
    hands, the round number is at least 1, and the bid and trick vectors
    have one entry for each seat, every bid lying between 0 and the
    round number. *)
Theorem reachable_well_formed (e : Env) :
  reachable e ->
  (s_phase (state e) = 0 \/ s_phase (state e) = 1)
  /\ (round_starter e < NUM_PLAYERS)%nat
  /\ (trick_leader e < NUM_PLAYERS)%nat
  /\ length (hands e) = NUM_PLAYERS
  /\ 1 <= s_round_number (state e)
  /\ length (s_player_bids (state e)) = NUM_PLAYERS
  /\ length (s_player_tricks (state e)) = NUM_PLAYERS
  /\ Forall (fun b => 0 <= b <= s_round_number (state e))
            (s_player_bids (state e)).
Proof.
  intros He. apply reachable_game_inv in He.
  pose proof (game_inv_static e He)
    as (Hrs & Hh4 & Hrn & _ & Hb4 & Hbr & Ht4 & _).
  split.
  { destruct (game_inv_phase e He) as [[H _] | [H _]]; auto. }
  split; [exact Hrs|]. split.
  { destruct He as [[(_ & _ & H & _) _] | (k & _ & H & _)]; [exact H|].
    destruct H as (_ & _ & _ & HL & _). exact HL. }
  auto 10.
Qed.

(** X16. The observation shows the cards as they lie: in every reachable
    state the hand vector is the sum of the one-hot vectors of the
    agent's cards, with a 1 at the slot of each card the agent holds and
    a 0 elsewhere; likewise the trump vector for the trump card (all 0
    when there is none) and the trick vector for the cards of the
    current trick. *)
Theorem observation_shows_cards (e : Env) :
  reachable e ->
  s_hand (state e) = hand_vector (hand_of e 0)
  /\ s_trump_card (state e) = hand_vector (option_list (trump_card e))
  /\ s_cards_played_in_trick (state e) = hand_vector (cards_played_in_trick e)
  /\ (forall c : Card,
        item (s_hand (state e)) (slot c)
        = if existsb (card_eqb c) (hand_of e 0) then 1 else 0)
  /\ (forall c : Card,
        item (s_trump_card (state e)) (slot c)
        = match trump_card e with
          | Some t => if card_eqb c t then 1 else 0
          | None => 0
          end).
Proof.
  intros He. apply reachable_game_inv in He.
  pose proof (game_inv_static e He)
    as (_ & _ & _ & Hpart & _ & _ & _ & Htv & Htrump & Hhand).
  split; [exact Hhand|]. split; [exact Htrump|]. split; [exact Htv|]. split.
  - intros c. rewrite Hhand. apply item_hand_vector_NoDup.
    apply partition_hand_NoDup. exact Hpart.
  - intros c. rewrite Htrump. destruct (trump_card e) as [t|].
    + change (option_list (Some t)) with [t].
      rewrite item_hand_vector_NoDup by (apply NoDup_singleton).
      cbn [existsb]. now rewrite orb_false_r.
    + change (option_list None) with (@nil Card).
      rewrite hand_vector_nil. apply item_zeros.
Qed.

(** X18. The mask of the Playing phase marks the whole hand. Whenever the
    agent is to play, it holds at least one card and [valid_actions] is
    the vector of its hand: a slot is 1 exactly when the agent holds the
    card, whatever cards lie in the trick. (The mask is computed when
    the previous trick is cleared or the bidding ends, before the seats
    ahead of the agent have played.) *)
Theorem playing_mask_is_hand (e : Env) :
  reachable e -> s_phase (state e) = 1 ->
  hand_of e 0 <> []
  /\ s_valid_actions (state e) = hand_vector (hand_of e 0)
  /\ forall c : Card,
       item (s_valid_actions (state e)) (slot c)
       = if existsb (card_eqb c) (hand_of e 0) then 1 else 0.
Proof.
  intros He Hph. apply reachable_game_inv in He.
  pose proof (game_inv_static e He)
    as (_ & _ & _ & Hpart & _ & _ & _ & _ & _ & Hhand).
  destruct (game_inv_at_turn e He Hph) as (k & Hk & Hin & Hmask).
  pose proof (agent_hand_size _ _ _ Hin) as Hsz.
  split.
  { intros E. rewrite E in Hsz. cbn in Hsz. lia. }
  rewrite Hmask, Hhand. split; [reflexivity|].
  intros c. apply item_hand_vector_NoDup, partition_hand_NoDup. exact Hpart.
Qed.

(** X19. The shape of a trick when the agent is to play. With [L] the
    trick leader, the seats from [L] up to the agent have played:
    [(4 - L) mod 4] cards lie in the trick and [position_in_trick] says
    so; every seat that has played holds one card fewer than the agent,
    every other seat as many; and the tricks taken so far plus the cards
    in the agent's hand are the cards dealt to a seat in this round,
    [min(round_number, 15)]. *)
Theorem playing_turn_structure (e : Env) :
  reachable e -> s_phase (state e) = 1 ->
  let L := trick_leader e in
  let n := length (cards_played_in_trick e) in
  n = ((4 - L) mod 4)%nat
  /\ s_position_in_trick (state e) = Z.of_nat n
  /\ (forall p, (p < NUM_PLAYERS)%nat ->
        (length (hand_of e p)
         + (if ((p + 4 - L) mod 4 <? n)%nat then 1 else 0)
         = length (hand_of e 0))%nat)
  /\ zsum (s_player_tricks (state e)) + Z.of_nat (length (hand_of e 0))
     = Z.of_nat (Nat.min (Z.to_nat (s_round_number (state e))) 15).
Proof.
  intros He Hph L n. apply reachable_game_inv in He.
  destruct (game_inv_at_turn e He Hph) as (k & Hk & Hin & Hmask).
  pose proof (agent_hand_size _ _ _ Hin) as Hsz.
  destruct Hin as (_ & _ & _ & HL & Hn & Hs & Htr & Hpos & _).
  fold L in HL, Hn, Hs, Hpos. subst n. rewrite Hn, Hsz.
  split; [reflexivity|]. split; [exact Hpos|]. split; [exact Hs | exact Htr].
Qed.

(** X20. The lead suit that an observation carries. In every reachable
    state ["lead_suit"] is the enum member of the suit of the first card
    of the current trick that is no Wizard and no Jester, and the integer
    [NUM_SUITS] when the trick has no such card; it is never one of the
    suit indices 0 to 3. *)
Theorem lead_suit_observed (e : Env) :
  reachable e ->
  s_lead_suit (state e)
  = match find is_regular (cards_played_in_trick e) with
    | Some c => LeadMember (suit c)
    | None => LeadIndex NUM_SUITS
    end
  /\ forall n : Z, 0 <= n < NUM_SUITS -> s_lead_suit (state e) <> LeadIndex n.
Proof.
  intros He. apply reachable_game_inv in He.
  assert (H : s_lead_suit (state e) = lead_of (cards_played_in_trick e)).
  { destruct He as [(Hc & _) | (k & _ & Hin & _)].
    - destruct Hc as (_ & _ & _ & Htk & _ & _ & Hlead). rewrite Hlead, Htk.
      reflexivity.
    - destruct Hin as (_ & _ & _ & _ & Hn & _ & _ & _ & Hlead).
      apply Hlead. lia. }
  split; [exact H|]. intros n Hn. rewrite H. unfold lead_of.
  destruct (find is_regular (cards_played_in_trick e)); [discriminate|].
  intros [= E]. unfold NUM_SUITS in *. lia.
Qed.

(** X17. The mask of the Bidding phase marks the legal bids. Whenever the
    agent is to bid in a round below 60, slot [b] of [valid_actions] is
    1 exactly when [b] is a bid that [_get_valid_bids] allows, and 0
    otherwise; the mask has 60 slots. At that moment every seat holds
    [min(round_number, 15)] cards, no card lies in the trick and no
    trick has been taken. *)
Theorem bidding_mask_marks_legal_bids (e : Env) :
  reachable e -> s_phase (state e) = 0 ->
  (s_round_number (state e) < DECK_SIZE ->
     length (s_valid_actions (state e)) = Z.to_nat DECK_SIZE
     /\ forall b : Z, 0 <= b < DECK_SIZE ->
          item (s_valid_actions (state e)) (Z.to_nat b)
          = if existsb (Z.eqb b) (_get_valid_bids e) then 1 else 0)
  /\ (forall p, (p < NUM_PLAYERS)%nat ->
        length (hand_of e p)
        = Nat.min (Z.to_nat (s_round_number (state e))) 15)
  /\ cards_played_in_trick e = []
  /\ zsum (s_player_tricks (state e)) = 0.
Proof.
  intros He Hph. apply reachable_game_inv in He.
  destruct (game_inv_bidding e He Hph) as [Hc Hm].
  destruct Hc as (_ & _ & _ & Htk & Hsz & Htr & _).
  split; [|auto].
  intros Hrn. rewrite (Hm Hrn). split; [apply bid_mask_length|].
  intros b Hb. apply item_bid_mask; [|exact Hb].
  apply List.Forall_forall. intros x Hx. apply get_valid_bids_spec in Hx. lia.
Qed.

(** X21. A legal bid starts the play. In the Bidding phase, [step] with a
    bid that [_get_valid_bids] allows returns reward 0 and [done =
    False]; the bid is stored as the agent's entry of the bid vector, the
    round number and the round starter stay, and the game is in the
    Playing phase with the agent to play a card from a non-empty hand. *)
Theorem step_accepts_legal_bid (e : Env) (action : Z) :
  reachable e -> s_phase (state e) = 0 -> In action (_get_valid_bids e) ->
  exists e',
    step action e = (Ok (0%Q, false), e')
    /\ s_phase (state e') = 1
    /\ item (s_player_bids (state e')) 0 = action
    /\ s_round_number (state e') = s_round_number (state e)
    /\ round_starter e' = round_starter e
    /\ trick_leader e' = round_starter e
    /\ hand_of e' 0 <> [].
Proof.
  intros He Hph Hin. apply reachable_game_inv in He.
  destruct (step_bidding_spec action e (game_inv_bidding e He Hph) Hin)
    as (e' & E & (k & Hk & Ht & _) & Hrn & Hrs & Hbid & Hl).
  exists e'. split; [exact E|].
  pose proof (agent_hand_size _ _ _ Ht) as Hsz.
  split; [apply Ht|]. split; [exact Hbid|]. split; [exact Hrn|].
  split; [exact Hrs|]. split; [exact Hl|].
  intros E0. rewrite E0 in Hsz. cbn in Hsz. lia.
Qed.

(** X22. A card ends a trick. In the Playing phase of a round below 59,
    [step] with a card the agent holds always returns: the loops over the
    other seats end and nothing raises. If the agent held more than one
    card, the game stays in the round and in the Playing phase with
    [done = False], one more trick is counted and the agent holds one
    card fewer; if it was the agent's last card, the round is over: the
    round number grows by one, the round starter moves to the next seat,
    the game is in the Bidding phase, and [done] tells whether the new
    round number exceeds [MAX_ROUND]. *)
Theorem step_play_finishes_trick (e : Env) (action : Z) :
  reachable e -> s_phase (state e) = 1 -> holds_card e action ->
  s_round_number (state e) < DECK_SIZE - 1 ->
  exists (r : Q) (done : bool) (e' : Env),
    step action e = (Ok (r, done), e')
    /\ (((1 < length (hand_of e 0))%nat
         /\ s_phase (state e') = 1
         /\ done = false
         /\ s_round_number (state e') = s_round_number (state e)
         /\ round_starter e' = round_starter e
         /\ zsum (s_player_tricks (state e'))
            = zsum (s_player_tricks (state e)) + 1
         /\ S (length (hand_of e' 0)) = length (hand_of e 0))
        \/ (length (hand_of e 0) = 1%nat
            /\ s_phase (state e') = 0
            /\ done = (s_round_number (state e') >? MAX_ROUND)
            /\ s_round_number (state e') = s_round_number (state e) + 1
            /\ round_starter e'
               = ((round_starter e + 1) mod NUM_PLAYERS)%nat)).
Proof.
  intros He Hph Hh Hrn. apply reachable_game_inv in He.
  pose proof (step_playing_spec action e (game_inv_at_turn e He Hph) Hh) as H.
  destruct (step action e) as [[[r done]|x] e'].
  - exists r, done, e'. split; [reflexivity|].
    destruct H as [(Ht & H1 & H2 & H3 & H4 & H5 & H6) | (Hb & H1 & H2 & H3 & H4)].
    + left. destruct Ht as (k & _ & Hin & _).
      split; [exact H4|]. split; [apply Hin|]. auto.
    + right. split; [exact H4|]. split; [apply Hb|]. auto.
  - destruct H as (_ & _ & Hge & Hn & _). unfold DECK_SIZE in *. lia.
Qed.

(** X23. What [step] can raise. From a reachable state [step] raises
    [ValueError], and then leaves the environment as it was, exactly for
    an action that is no legal bid (Bidding phase) or names no card of
    the agent's hand (Playing phase). The only other exception is the
    [IndexError] of the bid mask, which needs round 59 or later: it comes
    when the agent has played its last card of such a round, and leaves
    the game in the Bidding phase of the next round. The loops of [step]
    always end. *)
Theorem step_raises_only (e : Env) (action : Z) :
  reachable e ->
  match step action e with
  | (Ok _, _) =>
      (s_phase (state e) = 0 /\ In action (_get_valid_bids e))
      \/ (s_phase (state e) = 1 /\ holds_card e action)
  | (Raise x, e') =>
      (x = ValueError /\ e' = e
       /\ ((s_phase (state e) = 0 /\ ~ In action (_get_valid_bids e))
           \/ (s_phase (state e) = 1 /\ ~ holds_card e action)))
      \/ (x = IndexError
          /\ s_phase (state e) = 1 /\ holds_card e action
          /\ DECK_SIZE - 1 <= s_round_number (state e)
          /\ length (hand_of e 0) = 1%nat
          /\ s_phase (state e') = 0
          /\ s_round_number (state e') = s_round_number (state e) + 1)
  end.
Proof.
  intros He. apply reachable_game_inv in He.
  destruct (game_inv_phase e He) as [[Hph Hb] | [Hph Ht]].
  - destruct (in_dec Z.eq_dec action (_get_valid_bids e)) as [Hin|Hout].
    + destruct (step_bidding_spec action e Hb Hin) as (e' & -> & _). auto.
    + rewrite (bidding_step_rejects e action Hph Hout). left. auto.
  - destruct (process_play_cases e action Hph) as [[Hh _] | [Hn E]].
    + pose proof (step_playing_spec action e Ht Hh) as H.
      destruct (step action e) as [[[r done]|x] e']; [auto|].
      destruct H as (-> & Hb' & Hge & Hn & Hone). right.
      split; [reflexivity|]. split; [exact Hph|]. split; [exact Hh|].
      split; [unfold DECK_SIZE in *; lia|]. split; [exact Hone|].
      split; [apply Hb' | exact Hn].
    + assert (Es : step action e = (Raise ValueError, e)).
      { unfold step. rewrite bind_get_eq, Hph. cbn [Z.eqb Pos.eqb].
        apply bind_Raise_eq. exact E. }
      rewrite Es. left. auto.
Qed.

(** X14. What [reset] leaves, from any environment and with or without a
    seed: it returns; the game is in the Bidding phase of round 1 with
    all bids, tricks and scores 0, cleared trick and round vectors, lead
    suit [NUM_SUITS] and position 0; each of the four seats holds one
    card and a trump card is drawn; the hand vector shows the agent's
    card; the mask marks the bids 0 and 1; the trick leader is the round
    starter, which is the one the environment had; and the generator of
    the environment is the seed's when one was given. *)
Theorem reset_starts_round_one (seed : option rng) (e : Env) :
  exists e',
    reset seed e = (Ok tt, e')
    /\ s_round_number (state e') = 1
    /\ s_phase (state e') = 0
    /\ s_player_bids (state e') = [0; 0; 0; 0]
    /\ s_player_tricks (state e') = [0; 0; 0; 0]
    /\ s_player_scores (state e') = [0; 0; 0; 0]
    /\ s_cards_played_in_round (state e') = zeros DECK_SIZE
    /\ s_cards_played_in_trick (state e') = zeros DECK_SIZE
    /\ s_lead_suit (state e') = LeadIndex NUM_SUITS
    /\ s_position_in_trick (state e') = 0
    /\ map length (hands e') = [1; 1; 1; 1]%nat
    /\ trump_card e' <> None
    /\ cards_played_in_trick e' = []
    /\ s_hand (state e') = hand_vector (hand_of e' 0)
    /\ s_valid_actions (state e') = <[ 1%nat := 1 ]> (<[ 0%nat := 1 ]> (zeros DECK_SIZE))
    /\ trick_leader e' = round_starter e
    /\ round_starter e' = round_starter e
    /\ np_random e' = match seed with Some g => g | None => np_random e end.
Proof.
  unfold reset, bind, modify.
  match goal with |- context [_deal_cards ?x] => set (e1 := x) end.
  destruct (deal_cards_full e1) as (deck2 & hs & trump & g & E & Hsz & _ & Hnone).
  rewrite E.
  match goal with |- context [_update_valid_actions ?x] => set (e2 := x) end.
  assert (Hv : _get_valid_bids e2 = [0; 1]) by reflexivity.
  assert (Hu : _update_valid_actions e2
               = (Ok tt, set_state (put_valid_actions (bid_mask [0; 1])) e2)).
  { rewrite update_valid_actions_bidding_spec by reflexivity. rewrite Hv. reflexivity. }
  rewrite Hu. eexists. split; [reflexivity|].
  split_all; try reflexivity.
  - exact Hsz.
  - cbn. intros Et. apply Hnone in Et. discriminate Et.
  - subst e2 e1. cbn. destruct seed; reflexivity.
  - subst e2 e1. cbn. destruct seed; reflexivity.
  - subst e2 e1. cbn. destruct seed; reflexivity.
Qed.

(** ** Scores *)

Lemma finish_round_scores_state (e : Env) :
  s_player_scores (state (snd (_finish_round e)))
  = s_player_scores (fold_left score_seat (seq 0 NUM_PLAYERS) (state e)).
Proof.
  unfold _finish_round. rewrite bind_get_eq. unfold bind at 1. unfold modify.
  match goal with |- context [bind _deal_cards _ ?x] => set (e1 := x) end.
  destruct (deal_cards_full e1) as (deck2 & hs & trump & g & E & _).
  rewrite (bind_Ok_eq _ _ _ _ _ E).
  match goal with |- context [bind _update_valid_actions _ ?x] => set (e2 := x) end.
  unfold bind, _update_valid_actions.
  destruct (s_phase (state e2) =? 0); [destruct (forallb _ _)|]; reflexivity.
Qed.

Lemma finish_round_reward (e : Env) (r : Q) :
  fst (_finish_round e) = Ok r ->
  r = inject_Z
        (wrap32
           (item (s_player_scores
                    (fold_left score_seat (seq 0 NUM_PLAYERS) (state e))) 0
            - item (s_player_scores (state e)) 0)).
Proof.
  unfold _finish_round. rewrite bind_get_eq. unfold bind at 1. unfold modify.
  match goal with |- context [bind _deal_cards _ ?x] => set (e1 := x) end.
  destruct (deal_cards_full e1) as (deck2 & hs & trump & g & E & _).
  rewrite (bind_Ok_eq _ _ _ _ _ E).
  unfold bind. destruct (_update_valid_actions _) as [[[]|x] e3]; cbn.
  - intros [= <-]. reflexivity.
  - discriminate.
Qed.

(** X13. The scores of a round, as [_finish_round] writes them. For each
    of the four seats: a seat whose tricks equal its bid gains
    [1 + bid], any other seat loses the distance between its bid and its
    tricks (int32 arithmetic; with numbers that do not overflow these
    are the plain sums). The value that the call returns is the change
    of the agent's score. The scores are written before the next round
    is dealt, so they stand also when the mask update raises. *)
Theorem finish_round_scores (e : Env) (i : nat) :
  length (s_player_scores (state e)) = NUM_PLAYERS -> (i < NUM_PLAYERS)%nat ->
  let bid := item (s_player_bids (state e)) i in
  let tricks := item (s_player_tricks (state e)) i in
  let old := item (s_player_scores (state e)) i in
  let new := item (s_player_scores (state (snd (_finish_round e)))) i in
  new = (if tricks =? bid then wrap32 (old + wrap32 (1 + 1 * bid))
         else wrap32 (old - Z.abs (wrap32 (bid - tricks))))
  /\ (- 2 ^ 30 < old < 2 ^ 30 -> 0 <= bid < 2 ^ 30 -> 0 <= tricks < 2 ^ 30 ->
      new = if tricks =? bid then old + 1 + bid else old - Z.abs (bid - tricks))
  /\ (i = 0%nat -> forall r : Q,
        fst (_finish_round e) = Ok r -> r = inject_Z (wrap32 (new - old))).
Proof.
  intros Hlen Hi bid tricks old new.
  assert (Hnew : new = (if tricks =? bid then wrap32 (old + wrap32 (1 + 1 * bid))
                        else wrap32 (old - Z.abs (wrap32 (bid - tricks))))).
  { subst new bid tricks old. rewrite finish_round_scores_state.
    destruct (state e) as [h tc ct cr bids trs scores rn ph ls pos va].
    cbn [s_player_bids s_player_tricks s_player_scores] in *.
    destruct scores as [|s0 [|s1 [|s2 [|s3 [|s4 scores]]]]]; try discriminate Hlen.
    unfold NUM_PLAYERS in Hi.
    destruct i as [|[|[|[|i]]]]; try (exfalso; lia); reflexivity. }
  split; [exact Hnew|]. split.
  - intros Ho Hb Ht. rewrite Hnew.
    assert (Hw : forall z, - 2 ^ 31 <= z < 2 ^ 31 -> wrap32 z = z).
    { intros z Hz. unfold wrap32.
      rewrite Z.mod_small by lia. lia. }
    destruct (tricks =? bid).
    + rewrite (Hw (1 + 1 * bid)) by lia. rewrite Hw by lia. lia.
    + rewrite (Hw (bid - tricks)) by lia. rewrite Hw by lia. reflexivity.
  - intros -> r Hr. apply finish_round_reward in Hr. rewrite Hr.
    subst new old. rewrite finish_round_scores_state. reflexivity.
Qed.

(** X10. A simulated seat plays by the rules. A seat with an empty hand
    passes: the call changes nothing. A seat that holds cards never
    fails: it puts one card of its hand on the trick, a card that
    [_is_valid_play] allows, which leaves its hand; the other hands stay
    as they are, the trick vector and the round vector count the card,
    and the lead suit is set to the card's suit (as an enum member) if
    it was unset and the card is no Wizard and no Jester. *)
Theorem simulate_play_legal (e : Env) (p : nat) :
  (hand_of e p = [] -> _simulate_play p e = (Ok tt, e))
  /\ (hand_of e p <> [] -> (p < length (hands e))%nat ->
      exists (card : Card) (e' : Env),
        _simulate_play p e = (Ok tt, e')
        /\ In card (hand_of e p)
        /\ _is_valid_play e card p = true
        /\ cards_played_in_trick e' = cards_played_in_trick e ++ [card]
        /\ remove_card card (hand_of e p) = Some (hand_of e' p)
        /\ (forall q, q <> p -> hand_of e' q = hand_of e q)
        /\ s_cards_played_in_trick (state e')
           = vec_add (s_cards_played_in_trick (state e))
                     (to_vector card DECK_SIZE)
        /\ s_cards_played_in_round (state e')
           = vec_add (s_cards_played_in_round (state e))
                     (to_vector card DECK_SIZE)
        /\ s_lead_suit (state e')
           = if lead_is_unset (s_lead_suit (state e)) && is_regular card
             then LeadMember (suit card)
             else s_lead_suit (state e)).
Proof.
  split; [apply simulate_play_empty|].
  intros Hne Hp.
  destruct (simulate_play_spec e p Hne) as (card & g & hand' & Hin & Hv & Hrm & E).
  exists card, (after_play p card hand' (set_np_random g e)).
  split; [exact E|]. split; [exact Hin|]. split; [exact Hv|].
  split; [reflexivity|]. split.
  { rewrite Hrm. f_equal. unfold after_play, hand_of. cbn.
    symmetry. apply hand_of_insert_eq. exact Hp. }
  split.
  { intros q Hq. unfold after_play, hand_of. cbn.
    apply hand_of_insert_ne. auto. }
  split; [reflexivity|]. split; reflexivity.
Qed.

(** ** Finding a card of the hand *)

Lemma index_where_first {A : Type} (p : A -> bool) (l : list A) (i : nat) (c : A) :
  NoDup l -> l !! i = Some c -> (forall x, p x = true -> x = c) -> p c = true ->
  index_where p l = Some i.
Proof.
  revert i. induction l as [|x l IH]; intros i Hnd Hi Hp Hc; [discriminate|].
  apply NoDup_cons in Hnd. destruct Hnd as [Hx Hnd].
  destruct i as [|i]; cbn in Hi |- *.
  - injection Hi as ->. now rewrite Hc.
  - destruct (p x) eqn:Hpx.
    + apply Hp in Hpx. subst x. exfalso. apply Hx.
      eapply list_elem_of_lookup_2. exact Hi.
    + now rewrite (IH i Hnd Hi Hp Hc).
Qed.

(** X7. Looking a card up by its slot finds it where it lies. In a
    reachable state the agent's hand has no card twice, and
    [_vector_idx_to_hand_idx] maps the slot of the card at position [i]
    of the hand to [i]; it answers [None] for the slot of every card the
    agent does not hold, and raises [ValueError] for an index outside
    the 60 slots. *)
Theorem vector_idx_to_hand_idx_round_trip (e : Env) :
  reachable e ->
  NoDup (hand_of e 0)
  /\ (forall (i : nat) (c : Card),
        hand_of e 0 !! i = Some c ->
        _vector_idx_to_hand_idx e (vector_index c) = Ok (Some i))
  /\ (forall c : Card,
        ~ In c (hand_of e 0) ->
        _vector_idx_to_hand_idx e (vector_index c) = Ok None)
  /\ (forall a : Z,
        ~ 0 <= a < DECK_SIZE ->
        _vector_idx_to_hand_idx e a = Raise ValueError).
Proof.
  intros He. apply reachable_partition in He.
  pose proof (partition_hand_NoDup e 0 He) as Hnd.
  split; [exact Hnd|]. split; [|split].
  - intros i c Hi. unfold _vector_idx_to_hand_idx.
    rewrite from_vector_idx_vector_index.
    rewrite (index_where_first _ _ i c Hnd Hi); [reflexivity | |].
    + intros x Hx. now apply card_eqb_eq in Hx.
    + apply (card_eqb_refl c).
  - intros c Hc. unfold _vector_idx_to_hand_idx.
    rewrite from_vector_idx_vector_index.
    destruct (index_where _ (hand_of e 0)) as [j|] eqn:Hj; [|reflexivity].
    apply index_where_Some in Hj. destruct Hj as (x & Hx & Hp).
    apply card_eqb_eq in Hp. subst x. exfalso. apply Hc.
    apply list_elem_of_In. eapply list_elem_of_lookup_2. exact Hx.
  - intros a Ha. unfold _vector_idx_to_hand_idx.
    rewrite (proj2 (from_vector_idx_cases a) Ha). reflexivity.
Qed.

(** X6. The bound of the bid mask. In the Bidding phase
    [_update_valid_actions] succeeds in every round below 60 and stores
    the mask that marks the legal bids; in every round above 60 it
    raises [IndexError] and stores nothing, because a legal bid of 60 or
    more has no slot in the mask of 60 entries. *)
Theorem update_valid_actions_bound (e : Env) :
  s_phase (state e) = 0 ->
  (s_round_number (state e) < DECK_SIZE ->
     _update_valid_actions e
     = (Ok tt, set_state (put_valid_actions (bid_mask (_get_valid_bids e))) e))
  /\ (DECK_SIZE < s_round_number (state e) ->
      _update_valid_actions e = (Raise IndexError, e)).
Proof.
  intros Hph. rewrite (update_valid_actions_bidding_spec e Hph). split.
  - intros Hrn. now rewrite valid_bids_below.
  - intros Hrn.
    destruct (forallb _ (_get_valid_bids e)) eqn:Hall; [|reflexivity].
    exfalso. rewrite forallb_forall in Hall.
    pose proof (proj1 (valid_bids_membership e 60)) as H60.
    pose proof (proj1 (valid_bids_membership e 61)) as H61.
    cbv zeta in H60, H61. unfold DECK_SIZE in *.
    destruct (Z.eq_dec 60 (s_round_number (state e)
                           - zsum (s_player_bids (state e)))) as [E|E].
    + assert (Hin : In 61 (_get_valid_bids e)).
      { apply H61. split; [lia|]. intros [_ E']. lia. }
      apply Hall in Hin. apply Z.ltb_lt in Hin. lia.
    + assert (Hin : In 60 (_get_valid_bids e)).
      { apply H60. split; [lia|]. intros [_ E']. lia. }
      apply Hall in Hin. apply Z.ltb_lt in Hin. lia.
Qed.

(** ** Witnesses *)

Lemma accepted_bid_misses_total_witness :
  s_player_bids (state last_bid_env) <> []
  /\ item (s_player_bids (state last_bid_env)) 0 = 0
  /\ count_nonzero (s_player_bids (state last_bid_env)) = 3%nat
  /\ _process_bid 1 last_bid_env
     = (Ok tt,
        set_state
          (fun s => put_player_bids (<[ 0%nat := 1 ]> (s_player_bids s)) s)
          last_bid_env)
  /\ zsum (s_player_bids
             (state
                (set_state
                   (fun s => put_player_bids (<[ 0%nat := 1 ]> (s_player_bids s)) s)
                   last_bid_env)))
     <> s_round_number
          (state
             (set_state
                (fun s => put_player_bids (<[ 0%nat := 1 ]> (s_player_bids s)) s)
                last_bid_env)).
Proof.
  assert (H1 : s_player_bids (state last_bid_env) <> []) by discriminate.
  assert (H2 : item (s_player_bids (state last_bid_env)) 0 = 0) by reflexivity.
  assert (H3 : count_nonzero (s_player_bids (state last_bid_env)) = 3%nat)
    by reflexivity.
  assert (H4 : _process_bid 1 last_bid_env
               = (Ok tt,
                  set_state
                    (fun s => put_player_bids (<[ 0%nat := 1 ]> (s_player_bids s)) s)
                    last_bid_env)) by reflexivity.
  split; [exact H1|]. split; [exact H2|]. split; [exact H3|]. split; [exact H4|].
  exact (accepted_bid_misses_total last_bid_env _ 1 H1 H2 H3 H4).
Defined.

Lemma legal_card_exists_witness :
  hand_of (env_after 3) 0 <> []
  /\ exists c, In c (hand_of (env_after 3) 0)
               /\ _is_valid_play (env_after 3) c 0 = true.
Proof.
  assert (H : hand_of (env_after 3) 0 <> []) by (vm_compute; discriminate).
  split; [exact H|]. exact (legal_card_exists (env_after 3) 0 H).
Defined.

Lemma reachable_well_formed_witness :
  reachable (env_after 3)
  /\ (s_phase (state (env_after 3)) = 0 \/ s_phase (state (env_after 3)) = 1)
  /\ (round_starter (env_after 3) < NUM_PLAYERS)%nat
  /\ (trick_leader (env_after 3) < NUM_PLAYERS)%nat
  /\ length (hands (env_after 3)) = NUM_PLAYERS
  /\ 1 <= s_round_number (state (env_after 3))
  /\ length (s_player_bids (state (env_after 3))) = NUM_PLAYERS
  /\ length (s_player_tricks (state (env_after 3))) = NUM_PLAYERS
  /\ Forall (fun b => 0 <= b <= s_round_number (state (env_after 3)))
            (s_player_bids (state (env_after 3))).
Proof.
  split; [apply env_after_reachable|].
  exact (reachable_well_formed (env_after 3) (env_after_reachable 3)).
Defined.

Lemma observation_shows_cards_witness :
  reachable (env_after 3)
  /\ s_hand (state (env_after 3)) = hand_vector (hand_of (env_after 3) 0)
  /\ s_trump_card (state (env_after 3))
     = hand_vector (option_list (trump_card (env_after 3)))
  /\ s_cards_played_in_trick (state (env_after 3))
     = hand_vector (cards_played_in_trick (env_after 3))
  /\ (forall c : Card,
        item (s_hand (state (env_after 3))) (slot c)
        = if existsb (card_eqb c) (hand_of (env_after 3) 0) then 1 else 0)
  /\ (forall c : Card,
        item (s_trump_card (state (env_after 3))) (slot c)
        = match trump_card (env_after 3) with
          | Some t => if card_eqb c t then 1 else 0
          | None => 0
          end).
Proof.
  split; [apply env_after_reachable|].
  exact (observation_shows_cards (env_after 3) (env_after_reachable 3)).
Defined.

Lemma playing_mask_is_hand_witness :
  reachable (env_after 3)
  /\ s_phase (state (env_after 3)) = 1
  /\ hand_of (env_after 3) 0 <> []
  /\ s_valid_actions (state (env_after 3)) = hand_vector (hand_of (env_after 3) 0)
  /\ forall c : Card,
       item (s_valid_actions (state (env_after 3))) (slot c)
       = if existsb (card_eqb c) (hand_of (env_after 3) 0) then 1 else 0.
Proof.
  assert (H : s_phase (state (env_after 3)) = 1) by (vm_compute; reflexivity).
  split; [apply env_after_reachable|]. split; [exact H|].
  exact (playing_mask_is_hand (env_after 3) (env_after_reachable 3) H).
Defined.

Lemma playing_turn_structure_witness :
  reachable (env_after 3)
  /\ s_phase (state (env_after 3)) = 1
  /\ (let L := trick_leader (env_after 3) in
      let n := length (cards_played_in_trick (env_after 3)) in
      n = ((4 - L) mod 4)%nat
      /\ s_position_in_trick (state (env_after 3)) = Z.of_nat n
      /\ (forall p, (p < NUM_PLAYERS)%nat ->
            (length (hand_of (env_after 3) p)
             + (if ((p + 4 - L) mod 4 <? n)%nat then 1 else 0)
             = length (hand_of (env_after 3) 0))%nat)
      /\ zsum (s_player_tricks (state (env_after 3)))
         + Z.of_nat (length (hand_of (env_after 3) 0))
         = Z.of_nat (Nat.min (Z.to_nat (s_round_number (state (env_after 3)))) 15)).
Proof.
  assert (H : s_phase (state (env_after 3)) = 1) by (vm_compute; reflexivity).
  split; [apply env_after_reachable|]. split; [exact H|].
  exact (playing_turn_structure (env_after 3) (env_after_reachable 3) H).
Defined.

Lemma lead_suit_observed_witness :
  reachable (env_after 3)
  /\ s_lead_suit (state (env_after 3))
     = match find is_regular (cards_played_in_trick (env_after 3)) with
       | Some c => LeadMember (suit c)
       | None => LeadIndex NUM_SUITS
       end
  /\ forall n : Z, 0 <= n < NUM_SUITS ->
       s_lead_suit (state (env_after 3)) <> LeadIndex n.
Proof.
  split; [apply env_after_reachable|].
  exact (lead_suit_observed (env_after 3) (env_after_reachable 3)).
Defined.

Lemma bidding_mask_marks_legal_bids_witness :
  reachable (env_after 2)
  /\ s_phase (state (env_after 2)) = 0
  /\ (s_round_number (state (env_after 2)) < DECK_SIZE ->
        length (s_valid_actions (state (env_after 2))) = Z.to_nat DECK_SIZE
        /\ forall b : Z, 0 <= b < DECK_SIZE ->
             item (s_valid_actions (state (env_after 2))) (Z.to_nat b)
             = if existsb (Z.eqb b) (_get_valid_bids (env_after 2)) then 1 else 0)
  /\ (forall p, (p < NUM_PLAYERS)%nat ->
        length (hand_of (env_after 2) p)
        = Nat.min (Z.to_nat (s_round_number (state (env_after 2)))) 15)
  /\ cards_played_in_trick (env_after 2) = []
  /\ zsum (s_player_tricks (state (env_after 2))) = 0.
Proof.
  assert (H : s_phase (state (env_after 2)) = 0) by (vm_compute; reflexivity).
  split; [apply env_after_reachable|]. split; [exact H|].
  exact (bidding_mask_marks_legal_bids (env_after 2) (env_after_reachable 2) H).
Defined.

Lemma step_accepts_legal_bid_witness :
  reachable (env_after 2)
  /\ s_phase (state (env_after 2)) = 0
  /\ In 2 (_get_valid_bids (env_after 2))
  /\ exists e',
       step 2 (env_after 2) = (Ok (0%Q, false), e')
       /\ s_phase (state e') = 1
       /\ item (s_player_bids (state e')) 0 = 2
       /\ s_round_number (state e') = s_round_number (state (env_after 2))
       /\ round_starter e' = round_starter (env_after 2)
       /\ trick_leader e' = round_starter (env_after 2)
       /\ hand_of e' 0 <> [].
Proof.
  assert (H : s_phase (state (env_after 2)) = 0) by (vm_compute; reflexivity).
  assert (Hin : In 2 (_get_valid_bids (env_after 2))) by (vm_compute; auto).
  split; [apply env_after_reachable|]. split; [exact H|]. split; [exact Hin|].
  exact (step_accepts_legal_bid (env_after 2) 2 (env_after_reachable 2) H Hin).
Defined.

Lemma step_play_finishes_trick_witness :
  reachable (env_after 3)
  /\ s_phase (state (env_after 3)) = 1
  /\ holds_card (env_after 3) 24
  /\ s_round_number (state (env_after 3)) < DECK_SIZE - 1
  /\ exists (r : Q) (done : bool) (e' : Env),
       step 24 (env_after 3) = (Ok (r, done), e')
       /\ (((1 < length (hand_of (env_after 3) 0))%nat
            /\ s_phase (state e') = 1
            /\ done = false
            /\ s_round_number (state e') = s_round_number (state (env_after 3))
            /\ round_starter e' = round_starter (env_after 3)
            /\ zsum (s_player_tricks (state e'))
               = zsum (s_player_tricks (state (env_after 3))) + 1
            /\ S (length (hand_of e' 0)) = length (hand_of (env_after 3) 0))
           \/ (length (hand_of (env_after 3) 0) = 1%nat
               /\ s_phase (state e') = 0
               /\ done = (s_round_number (state e') >? MAX_ROUND)
               /\ s_round_number (state e')
                  = s_round_number (state (env_after 3)) + 1
               /\ round_starter e'
                  = ((round_starter (env_after 3) + 1) mod NUM_PLAYERS)%nat)).
Proof.
  assert (H : s_phase (state (env_after 3)) = 1) by (vm_compute; reflexivity).
  assert (Hh : holds_card (env_after 3) 24).
  { exists (mkCard TWELVE DIAMONDS). split; [reflexivity|]. vm_compute. auto. }
  assert (Hrn : s_round_number (state (env_after 3)) < DECK_SIZE - 1)
    by (vm_compute; reflexivity).
  split; [apply env_after_reachable|]. split; [exact H|]. split; [exact Hh|].
  split; [exact Hrn|].
  exact (step_play_finishes_trick (env_after 3) 24 (env_after_reachable 3) H Hh Hrn).
Defined.

Lemma step_raises_only_witness :
  reachable (env_after 3)
  /\ match step 7 (env_after 3) with
     | (Ok _, _) =>
         (s_phase (state (env_after 3)) = 0
          /\ In 7 (_get_valid_bids (env_after 3)))
         \/ (s_phase (state (env_after 3)) = 1 /\ holds_card (env_after 3) 7)
     | (Raise x, e') =>
         (x = ValueError /\ e' = env_after 3
          /\ ((s_phase (state (env_after 3)) = 0
               /\ ~ In 7 (_get_valid_bids (env_after 3)))
              \/ (s_phase (state (env_after 3)) = 1
                  /\ ~ holds_card (env_after 3) 7)))
         \/ (x = IndexError
             /\ s_phase (state (env_after 3)) = 1 /\ holds_card (env_after 3) 7
             /\ DECK_SIZE - 1 <= s_round_number (state (env_after 3))
             /\ length (hand_of (env_after 3) 0) = 1%nat
             /\ s_phase (state e') = 0
             /\ s_round_number (state e')
                = s_round_number (state (env_after 3)) + 1)
     end.
Proof.
  split; [apply env_after_reachable|].
  exact (step_raises_only (env_after 3) 7 (env_after_reachable 3)).
Defined.

Lemma finish_round_scores_witness :
  length (s_player_scores (state (env_after 1))) = NUM_PLAYERS
  /\ (0 < NUM_PLAYERS)%nat
  /\ (let bid := item (s_player_bids (state (env_after 1))) 0 in
      let tricks := item (s_player_tricks (state (env_after 1))) 0 in
      let old := item (s_player_scores (state (env_after 1))) 0 in
      let new :=
        item (s_player_scores (state (snd (_finish_round (env_after 1))))) 0 in
      new = (if tricks =? bid then wrap32 (old + wrap32 (1 + 1 * bid))
             else wrap32 (old - Z.abs (wrap32 (bid - tricks))))
      /\ (- 2 ^ 30 < old < 2 ^ 30 -> 0 <= bid < 2 ^ 30 -> 0 <= tricks < 2 ^ 30 ->
          new = if tricks =? bid then old + 1 + bid
                else old - Z.abs (bid - tricks))
      /\ (0%nat = 0%nat -> forall r : Q,
            fst (_finish_round (env_after 1)) = Ok r ->
            r = inject_Z (wrap32 (new - old)))).
Proof.
  assert (H1 : length (s_player_scores (state (env_after 1))) = NUM_PLAYERS)
    by (vm_compute; reflexivity).
  assert (H2 : (0 < NUM_PLAYERS)%nat) by (unfold NUM_PLAYERS; lia).
  split; [exact H1|]. split; [exact H2|].
  exact (finish_round_scores (env_after 1) 0 H1 H2).
Defined.

Lemma vector_idx_to_hand_idx_round_trip_witness :
  reachable (env_after 3)
  /\ NoDup (hand_of (env_after 3) 0)
  /\ (forall (i : nat) (c : Card),
        hand_of (env_after 3) 0 !! i = Some c ->
        _vector_idx_to_hand_idx (env_after 3) (vector_index c) = Ok (Some i))
  /\ (forall c : Card,
        ~ In c (hand_of (env_after 3) 0) ->
        _vector_idx_to_hand_idx (env_after 3) (vector_index c) = Ok None)
  /\ (forall a : Z,
        ~ 0 <= a < DECK_SIZE ->
        _vector_idx_to_hand_idx (env_after 3) a = Raise ValueError).
Proof.
  split; [apply env_after_reachable|].
  exact (vector_idx_to_hand_idx_round_trip (env_after 3) (env_after_reachable 3)).
Defined.

Lemma update_valid_actions_bound_witness :
  s_phase (state (env_after 2)) = 0
  /\ (s_round_number (state (env_after 2)) < DECK_SIZE ->
        _update_valid_actions (env_after 2)
        = (Ok tt,
           set_state
             (put_valid_actions (bid_mask (_get_valid_bids (env_after 2))))
             (env_after 2)))
  /\ (DECK_SIZE < s_round_number (state (env_after 2)) ->
      _update_valid_actions (env_after 2) = (Raise IndexError, env_after 2)).
Proof.
  assert (H : s_phase (state (env_after 2)) = 0) by (vm_compute; reflexivity).
  split; [exact H|]. exact (update_valid_actions_bound (env_after 2) H).
Defined.

(** ** The resolution of a trick *)

(** X12. What [_finish_trick] does in the Playing phase, for a trick that
    is not empty and a trick leader that is a seat: it returns; the
    winner that [_evaluate_trick] names is a seat, gets one more trick
    and leads the next trick, and [position_in_trick] is the number of
    seats between it and the agent; the trick and its vector are cleared
    and the lead suit is unset; the mask is the vector of the agent's
    whole hand; hands, bids, scores and round number stay. The reward is
    0.2 when the agent wins a trick that it still needed for its bid,
    -0.2 when it wins a trick beyond its bid, and 0 when another seat
    wins. *)
Theorem finish_trick_effect (e : Env) :
  (trick_leader e < NUM_PLAYERS)%nat -> cards_played_in_trick e <> [] ->
  s_phase (state e) = 1 ->
  exists (w : nat) (r : Q) (e' : Env),
    _evaluate_trick e = (Ok w, e)
    /\ _finish_trick e = (Ok r, e')
    /\ (w < NUM_PLAYERS)%nat
    /\ r = (if (w =? 0)%nat
            then if item (s_player_tricks (state e)) 0
                    <? item (s_player_bids (state e)) 0
                 then (2 # 10)%Q else (- (2 # 10))%Q
            else 0%Q)
    /\ trick_leader e' = w
    /\ s_player_tricks (state e')
       = alter (fun t => t + 1) w (s_player_tricks (state e))
    /\ s_position_in_trick (state e') = (4 - Z.of_nat w) mod 4
    /\ cards_played_in_trick e' = []
    /\ s_cards_played_in_trick (state e')
       = fill0 (s_cards_played_in_trick (state e))
    /\ s_lead_suit (state e') = LeadIndex NUM_SUITS
    /\ s_valid_actions (state e') = hand_vector (hand_of e 0)
    /\ hands e' = hands e
    /\ s_player_bids (state e') = s_player_bids (state e)
    /\ s_player_scores (state e') = s_player_scores (state e)
    /\ s_round_number (state e') = s_round_number (state e).
Proof.
  intros HL Hne Hph.
  destruct (evaluate_trick_winner e HL Hne) as (w & Ew & Hw).
  unfold _finish_trick. rewrite (bind_Ok_eq _ _ _ _ _ Ew), bind_get_eq.
  unfold bind at 1. unfold modify.
  match goal with |- context [bind _update_valid_actions _ ?x] => set (e1 := x) end.
  assert (Hph1 : s_phase (state e1) <> 0) by (subst e1; cbn; rewrite Hph; lia).
  rewrite (bind_Ok_eq _ _ _ _ _ (update_valid_actions_playing_spec e1 Hph1)).
  rewrite legal_cards_empty_trick by reflexivity.
  unfold ret. eexists w, _, _. split; [exact Ew|]. split; [reflexivity|].
  split; [exact Hw|]. split_all; reflexivity.
Qed.

Lemma finish_trick_effect_witness :
  (trick_leader full_trick_env < NUM_PLAYERS)%nat
  /\ cards_played_in_trick full_trick_env <> []
  /\ s_phase (state full_trick_env) = 1
  /\ exists (w : nat) (r : Q) (e' : Env),
       _evaluate_trick full_trick_env = (Ok w, full_trick_env)
       /\ _finish_trick full_trick_env = (Ok r, e')
       /\ (w < NUM_PLAYERS)%nat
       /\ r = (if (w =? 0)%nat
               then if item (s_player_tricks (state full_trick_env)) 0
                       <? item (s_player_bids (state full_trick_env)) 0
                    then (2 # 10)%Q else (- (2 # 10))%Q
               else 0%Q)
       /\ trick_leader e' = w
       /\ s_player_tricks (state e')
          = alter (fun t => t + 1) w (s_player_tricks (state full_trick_env))
       /\ s_position_in_trick (state e') = (4 - Z.of_nat w) mod 4
       /\ cards_played_in_trick e' = []
       /\ s_cards_played_in_trick (state e')
          = fill0 (s_cards_played_in_trick (state full_trick_env))
       /\ s_lead_suit (state e') = LeadIndex NUM_SUITS
       /\ s_valid_actions (state e') = hand_vector (hand_of full_trick_env 0)
       /\ hands e' = hands full_trick_env
       /\ s_player_bids (state e') = s_player_bids (state full_trick_env)
       /\ s_player_scores (state e') = s_player_scores (state full_trick_env)
       /\ s_round_number (state e') = s_round_number (state full_trick_env).
Proof.
  assert (H1 : (trick_leader full_trick_env < NUM_PLAYERS)%nat)
    by (vm_compute; lia).
  assert (H2 : cards_played_in_trick full_trick_env <> [])
    by (vm_compute; discriminate).
  assert (H3 : s_phase (state full_trick_env) = 1) by (vm_compute; reflexivity).
  split; [exact H1|]. split; [exact H2|]. split; [exact H3|].
  exact (finish_trick_effect full_trick_env H1 H2 H3).
Defined.

(** ** The round vector *)

Lemma In_replicate {A : Type} (n : nat) (x y : A) :
  In y (replicate n x) <-> y = x /\ (0 < n)%nat.
Proof.
  induction n as [|n IH]; cbn.
  - split; [intros [] | intros [_ H]; lia].
  - rewrite IH. split.
    + intros [<- | [-> _]]; split; auto; lia.
    + intros [-> _]. now left.
Qed.

Lemma NoDup_replicate_le {A : Type} (n : nat) (x : A) :
  NoDup (replicate n x) -> (n <= 1)%nat.
Proof.
  destruct n as [|[|n]]; [lia | lia |]. cbn. intros H.
  apply NoDup_cons in H. destruct H as [H _]. exfalso. apply H. left.
Qed.

Lemma In_counted (n : Card -> nat) (l : list Card) (c : Card) :
  In c (flat_map (fun x => replicate (n x) x) l) <-> In c l /\ (0 < n c)%nat.
Proof.
  rewrite in_flat_map. split.
  - intros (x & Hx & Hc). apply In_replicate in Hc. destruct Hc as [-> Hn]. auto.
  - intros [Hc Hn]. exists c. split; [exact Hc|]. apply In_replicate. auto.
Qed.

Lemma NoDup_counted (n : Card -> nat) (l : list Card) (c : Card) :
  NoDup (flat_map (fun x => replicate (n x) x) l) -> In c l -> (n c <= 1)%nat.
Proof.
  induction l as [|x l IH]; cbn [flat_map]; [intros _ []|].
  intros Hnd [-> | Hc]; apply NoDup_app in Hnd; destruct Hnd as (H1 & _ & H2).
  - now apply NoDup_replicate_le in H1.
  - now apply IH.
Qed.

(** X24. The round vector marks the cards that have left the hands. In
    every reachable state each entry of [cards_played_in_round] is 0 or
    1, as the observation space declares, and the entry of a card is 1
    exactly when the card is neither in the undealt rest of the deck, nor
    in a hand, nor the trump card: it has been played in this round. *)
Theorem round_vector_marks_played_cards (e : Env) (c : Card) :
  reachable e ->
  (item (s_cards_played_in_round (state e)) (slot c) = 0
   \/ item (s_cards_played_in_round (state e)) (slot c) = 1)
  /\ (item (s_cards_played_in_round (state e)) (slot c) = 1 <->
      ~ In c (deck_rest e ++ concat (hands e) ++ option_list (trump_card e))).
Proof.
  intros He. apply reachable_partition in He. destruct He as (Hlen & Hpos & Hperm).
  set (v := s_cards_played_in_round (state e)) in *.
  set (rest := deck_rest e ++ concat (hands e) ++ option_list (trump_card e)).
  assert (Hall : rest ++ cards_of_vector v ≡ₚ _create_deck).
  { rewrite <- Hperm. unfold all_cards, rest. now rewrite <- !app_assoc. }
  assert (Hnd : NoDup (rest ++ cards_of_vector v))
    by (rewrite Hall; apply create_deck_NoDup).
  apply NoDup_app in Hnd. destruct Hnd as (_ & Hdisj & Hndv).
  pose proof (item_nonneg v (slot c) Hpos) as H0.
  pose proof (NoDup_counted (fun x => Z.to_nat (item v (Z.to_nat (vector_index x))))
                _create_deck c Hndv (create_deck_complete c)) as H1.
  cbn beta in H1. fold (slot c) in H1.
  split; [lia|]. split.
  - intros E Hin. apply (Hdisj c); [now apply list_elem_of_In|].
    apply list_elem_of_In. unfold cards_of_vector. apply In_counted.
    split; [apply create_deck_complete|]. fold (slot c). lia.
  - intros Hout.
    assert (Hc : In c (rest ++ cards_of_vector v)).
    { apply (Permutation_in c (Permutation_sym Hall)), create_deck_complete. }
    apply in_app_or in Hc. destruct Hc as [Hc | Hc]; [contradiction|].
    unfold cards_of_vector in Hc. apply In_counted in Hc.
    destruct Hc as [_ Hc]. fold (slot c) in Hc. lia.
Qed.

Lemma round_vector_marks_played_cards_witness :
  reachable (env_after 3)
  /\ (item (s_cards_played_in_round (state (env_after 3)))
        (slot (mkCard FOUR HEARTS)) = 0
      \/ item (s_cards_played_in_round (state (env_after 3)))
           (slot (mkCard FOUR HEARTS)) = 1)
  /\ (item (s_cards_played_in_round (state (env_after 3)))
        (slot (mkCard FOUR HEARTS)) = 1 <->
      ~ In (mkCard FOUR HEARTS)
          (deck_rest (env_after 3) ++ concat (hands (env_after 3))
           ++ option_list (trump_card (env_after 3)))).
Proof.
  split; [apply env_after_reachable|].
  exact (round_vector_marks_played_cards (env_after 3) (mkCard FOUR HEARTS)
           (env_after_reachable 3)).
Defined.

(** ** The agent's play and the mask *)


